(** * One-Key Orchestra: transport clock, timing evaluator, input debounce,
      loop lifecycle and lookahead scheduler.

    A shallow embedding of [BeatTracker.js], [InputHandler.js],
    [Instruments.js] and the scheduling part of [AudioEngine.js].

    Numbers.  A JavaScript number is modelled as an exact rational ([Q]):
    every arithmetic step of the source is kept, but no rounding error is
    modelled, so "equal within floating tolerance" reads as [==] here.
    The results of [Math.round] and [Math.floor] are integers ([Z]) and
    are injected back into [Q] where the source computes with them.
    [null] is [None]; where the source does arithmetic on a field that may
    be [null], the coercion [ToNumber(null) = 0] is written out ([num]).

    Clocks.  [performance.now()] (milliseconds) and
    [audioCtx.currentTime] (seconds) are inputs: every method takes the
    readings it would observe as a [Clock]. *)

From Stdlib Require Import ZArith QArith Qround Qabs Lqa Bool List.
From stdpp Require Import gmap list strings.
Import ListNotations.

Local Open Scope Z_scope.

(** ** JavaScript arithmetic used by the sources *)
Module JS.

(** [Math.floor]. *)
Definition Math_floor (x : Q) : Z := Qfloor x.

(** [Math.round]: the integer nearest to [x]; of two equally near integers
    the one closer to +infinity. *)
Definition Math_round (x : Q) : Z := Qfloor (x + (1 # 2))%Q.

(** [Math.abs]. *)
Definition Math_abs (x : Q) : Q := Qabs x.

(** [a % b] on integral numbers: the remainder has the sign of the
    dividend. *)
Definition rem (a b : Z) : Z := Z.rem a b.

(** Truncation toward zero, the integral part that [x % 1] removes. *)
Definition trunc (x : Q) : Z := Z.quot (Qnum x) (Zpos (Qden x)).

(** [x % 1] on an arbitrary number. *)
Definition fmod1 (x : Q) : Q := (x - inject_Z (trunc x))%Q.

(** [ToNumber] of a field that holds a number or [null]. *)
Definition num (o : option Q) : Q :=
  match o with Some q => q | None => 0%Q end.

(** [a <= b] and [a < b] as the booleans the source branches on. *)
Definition le (a b : Q) : bool := Qle_bool a b.
Definition lt (a b : Q) : bool := negb (Qle_bool b a).

End JS.

(** The two time bases, as read at the moment a method runs. *)
Record Clock := mkClock {
  currentTime : Q;      (* audioCtx.currentTime, in seconds *)
  performance_now : Q   (* performance.now(), in milliseconds *)
}.

(** ** BeatTracker.js *)
Module BeatTracker.

Inductive Accuracy := perfect | good | off.

Module BeatInfo.
Record t := mk {
  beat : Z;
  progress : Q;
  barNumber : Z;
  totalBeats : Q
}.
End BeatInfo.

Module Timing.
Record t := mk {
  accuracy : Accuracy;
  nearestBeat : Z;
  offset : Q;
  barNumber : Z
}.
End Timing.

(** The fields of a [BeatTracker] instance.  [audioCtx] records whether an
    audio context has been attached (its truthiness); the context's
    [currentTime] is read from the [Clock]. *)
Record t := mk {
  bpm : Q;
  beatDuration : Q;
  startTime : option Q;
  isRunning : bool;
  isPaused : bool;
  pausedAt : option Q;
  totalPausedTime : Q;
  barCount : Z;
  audioCtx : bool;
  perfectWindow : Q;
  goodWindow : Q
}.

(** [new BeatTracker(bpm)].  The division is that of the rationals: at
    [bpm0 = 0] it gives 0 where the source gives [Infinity], so a tempo of
    0 is outside the embedding. *)
Definition constructor (bpm0 : Q) : t :=
  {| bpm := bpm0;
     beatDuration := (60000 / bpm0)%Q;
     startTime := None;
     isRunning := false;
     isPaused := false;
     pausedAt := None;
     totalPausedTime := 0%Q;
     barCount := 0;
     audioCtx := false;
     perfectWindow := 50%Q;
     goodWindow := 150%Q |}.

(** [setAudioContext(ctx)]; [attached] is the truthiness of [ctx]. *)
Definition setAudioContext (attached : bool) (s : t) : t :=
  {| bpm := bpm s; beatDuration := beatDuration s; startTime := startTime s;
     isRunning := isRunning s; isPaused := isPaused s; pausedAt := pausedAt s;
     totalPausedTime := totalPausedTime s; barCount := barCount s;
     audioCtx := attached;
     perfectWindow := perfectWindow s; goodWindow := goodWindow s |}.

(** The reading every method takes first:
    [this.audioCtx ? this.audioCtx.currentTime : performance.now()]. *)
Definition now (s : t) (c : Clock) : Q :=
  if audioCtx s then currentTime c else performance_now c.

(** [start()]. *)
Definition start (s : t) (c : Clock) : t :=
  {| bpm := bpm s; beatDuration := beatDuration s;
     startTime := Some (now s c);
     isRunning := true;
     isPaused := isPaused s; pausedAt := pausedAt s;
     totalPausedTime := totalPausedTime s;
     barCount := 0;
     audioCtx := audioCtx s;
     perfectWindow := perfectWindow s; goodWindow := goodWindow s |}.

(** [stop()]. *)
Definition stop (s : t) : t :=
  {| bpm := bpm s; beatDuration := beatDuration s;
     startTime := None;
     isRunning := false;
     isPaused := false; pausedAt := None;
     totalPausedTime := 0%Q;
     barCount := barCount s;
     audioCtx := audioCtx s;
     perfectWindow := perfectWindow s; goodWindow := goodWindow s |}.

(** [pause()]. *)
Definition pause (s : t) (c : Clock) : t :=
  if negb (isRunning s) || isPaused s then s
  else
    {| bpm := bpm s; beatDuration := beatDuration s; startTime := startTime s;
       isRunning := isRunning s;
       isPaused := true; pausedAt := Some (now s c);
       totalPausedTime := totalPausedTime s;
       barCount := barCount s; audioCtx := audioCtx s;
       perfectWindow := perfectWindow s; goodWindow := goodWindow s |}.

(** [resume()]. *)
Definition resume (s : t) (c : Clock) : t :=
  if negb (isPaused s) then s
  else
    {| bpm := bpm s; beatDuration := beatDuration s; startTime := startTime s;
       isRunning := isRunning s;
       isPaused := false; pausedAt := None;
       totalPausedTime := (totalPausedTime s + (now s c - JS.num (pausedAt s)))%Q;
       barCount := barCount s; audioCtx := audioCtx s;
       perfectWindow := perfectWindow s; goodWindow := goodWindow s |}.

(** [setBPM(bpm)], for a tempo that is not 0 (see [constructor]). *)
Definition setBPM (bpm0 : Q) (s : t) : t :=
  {| bpm := bpm0; beatDuration := (60000 / bpm0)%Q; startTime := startTime s;
     isRunning := isRunning s; isPaused := isPaused s; pausedAt := pausedAt s;
     totalPausedTime := totalPausedTime s; barCount := barCount s;
     audioCtx := audioCtx s;
     perfectWindow := perfectWindow s; goodWindow := goodWindow s |}.

(** [getCurrentBeatInfo()]. *)
Definition getCurrentBeatInfo (s : t) (c : Clock) : BeatInfo.t :=
  match isRunning s, startTime s with
  | true, Some st =>
      let elapsed :=
        if audioCtx s then
          let now := if isPaused s then JS.num (pausedAt s) else currentTime c in
          ((now - st - totalPausedTime s) * 1000)%Q
        else
          let now := if isPaused s then JS.num (pausedAt s) else performance_now c in
          (now - st - totalPausedTime s)%Q in
      let beatDur := (60000 / bpm s)%Q in
      let totalBeats := (elapsed / beatDur)%Q in
      let currentBeat := JS.rem (JS.Math_floor totalBeats) 4 + 1 in
      let beatProgress := JS.fmod1 totalBeats in
      let barNumber := JS.Math_floor (totalBeats / 4)%Q in
      BeatInfo.mk currentBeat beatProgress barNumber totalBeats
  | _, _ => BeatInfo.mk 1 0%Q 0 0%Q
  end.

(** The value [evaluateTiming] returns when the tracker is not running. *)
Definition fallback : Timing.t := Timing.mk off 1 0%Q 0.

(** [evaluateTiming(hitTime)]. *)
Definition evaluateTiming (s : t) (c : Clock) (hitTime : Q) : Timing.t :=
  match isRunning s, startTime s with
  | true, Some st =>
      let elapsed :=
        if audioCtx s then
          let audioNow := currentTime c in
          ((audioNow - st - totalPausedTime s) * 1000)%Q
        else (hitTime - st - totalPausedTime s)%Q in
      let beatPosition := (elapsed / beatDuration s)%Q in
      let nearestBeatIndex := JS.Math_round beatPosition in
      let nearestBeat := JS.rem nearestBeatIndex 4 + 1 in
      let offset := ((beatPosition - inject_Z nearestBeatIndex) * beatDuration s)%Q in
      let absOffset := JS.Math_abs offset in
      let accuracy :=
        if JS.le absOffset (perfectWindow s) then perfect
        else if JS.le absOffset (goodWindow s) then good
        else off in
      let barNumber := JS.Math_floor (inject_Z nearestBeatIndex / 4)%Q in
      Timing.mk accuracy nearestBeat offset barNumber
  | _, _ => fallback
  end.

(** [getTimeToNextBeat()]. *)
Definition getTimeToNextBeat (s : t) (c : Clock) : Q :=
  match isRunning s, startTime s with
  | true, Some st =>
      let elapsed :=
        if audioCtx s then ((currentTime c - st - totalPausedTime s) * 1000)%Q
        else (performance_now c - st - totalPausedTime s)%Q in
      let beatPosition := (elapsed / beatDuration s)%Q in
      let nextBeatTime :=
        (inject_Z (JS.Math_floor beatPosition + 1) * beatDuration s)%Q in
      (nextBeatTime - elapsed)%Q
  | _, _ => beatDuration s
  end.

End BeatTracker.

(** ** InputHandler.js *)
Module InputHandler.

(** A call made to one of the two registered callbacks. *)
Inductive Callback :=
| NoteStart (timestamp : Q)
| NoteEnd (startTime : option Q) (endTime : Q).

(** The DOM events the handler listens to, with the fields it reads. *)
Inductive DomEvent :=
| keydown (isSpace : bool) (repeat : bool)
| keyup (isSpace : bool)
| touchstart
| touchend.

(** The fields of an [InputHandler].  [onNoteStart] and [onNoteEnd] record
    whether a callback is registered; [listening] whether the four
    document listeners are attached. *)
Record t := mk {
  onNoteStart : bool;
  onNoteEnd : bool;
  isHolding : bool;
  holdStartTime : option Q;
  lastTriggerTime : Q;
  debounceMs : Q;
  listening : bool
}.

(** [new InputHandler()]. *)
Definition constructor : t :=
  {| onNoteStart := false; onNoteEnd := false; isHolding := false;
     holdStartTime := None; lastTriggerTime := 0%Q; debounceMs := 100%Q;
     listening := false |}.

(** [start()]. *)
Definition start (s : t) : t :=
  {| onNoteStart := onNoteStart s; onNoteEnd := onNoteEnd s;
     isHolding := isHolding s; holdStartTime := holdStartTime s;
     lastTriggerTime := lastTriggerTime s; debounceMs := debounceMs s;
     listening := true |}.

(** [stop()]. *)
Definition stop (s : t) : t :=
  {| onNoteStart := onNoteStart s; onNoteEnd := onNoteEnd s;
     isHolding := false; holdStartTime := None;
     lastTriggerTime := lastTriggerTime s; debounceMs := debounceMs s;
     listening := false |}.

(** [triggerNoteStart()]: the new state and the callbacks it invoked. *)
Definition triggerNoteStart (s : t) (c : Clock) : t * list Callback :=
  let now := performance_now c in
  if JS.lt (now - lastTriggerTime s)%Q (debounceMs s) then (s, [])
  else if isHolding s then (s, [])
  else
    ({| onNoteStart := onNoteStart s; onNoteEnd := onNoteEnd s;
        isHolding := true; holdStartTime := Some now;
        lastTriggerTime := now; debounceMs := debounceMs s;
        listening := listening s |},
     if onNoteStart s then [NoteStart now] else []).

(** [triggerNoteEnd()]. *)
Definition triggerNoteEnd (s : t) (c : Clock) : t * list Callback :=
  if negb (isHolding s) then (s, [])
  else
    let endTime := performance_now c in
    let startTime := holdStartTime s in
    ({| onNoteStart := onNoteStart s; onNoteEnd := onNoteEnd s;
        isHolding := false; holdStartTime := None;
        lastTriggerTime := lastTriggerTime s; debounceMs := debounceMs s;
        listening := listening s |},
     if onNoteEnd s then [NoteEnd startTime endTime] else []).

(** [handleKeyDown], [handleKeyUp], [handleTouchStart], [handleTouchEnd],
    reached only while the listeners are attached. *)
Definition dispatch (ev : DomEvent) (s : t) (c : Clock) : t * list Callback :=
  if negb (listening s) then (s, [])
  else
    match ev with
    | keydown isSpace repeat =>
        if negb isSpace then (s, [])
        else if repeat then (s, [])
        else triggerNoteStart s c
    | keyup isSpace =>
        if negb isSpace then (s, []) else triggerNoteEnd s c
    | touchstart => triggerNoteStart s c
    | touchend => triggerNoteEnd s c
    end.

(** [getHoldDuration()]. *)
Definition getHoldDuration (s : t) (c : Clock) : Q :=
  match isHolding s, holdStartTime s with
  | true, Some h => (performance_now c - h)%Q
  | _, _ => 0%Q
  end.

(** What drives a handler from outside: a DOM event, or a call of
    [start()] or [stop()] by the game. *)
Inductive Step :=
| Dom (ev : DomEvent) (c : Clock)
| Start
| Stop.

Definition step (st : Step) (s : t) : t * list Callback :=
  match st with
  | Dom ev c => dispatch ev s c
  | Start => (start s, [])
  | Stop => (stop s, [])
  end.

(** A sequence of steps, with every callback invoked along the way. *)
Fixpoint run (steps : list Step) (s : t) : t * list Callback :=
  match steps with
  | [] => (s, [])
  | st :: rest =>
      let '(s1, out1) := step st s in
      let '(s2, out2) := run rest s1 in
      (s2, out1 ++ out2)
  end.

(** The timestamps handed to [onNoteStart], in order. *)
Fixpoint noteStarts (out : list Callback) : list Q :=
  match out with
  | [] => []
  | NoteStart ts :: rest => ts :: noteStarts rest
  | NoteEnd _ _ :: rest => noteStarts rest
  end.

End InputHandler.

(** ** Instruments.js *)
Module Instruments.

Record Envelope := mkEnvelope {
  attack : Q; decay : Q; sustain : Q; release : Q
}.

Record Instrument := mkInstrument {
  name : string;
  beat : Z;
  oscillator : string;
  baseFreq : Q;
  color : string;
  shape : string;
  envelope : Envelope
}.

Definition melody : Instrument :=
  mkInstrument "Melody" 1 "triangle" 440 "#64b5f6" "spiral"
    (mkEnvelope (5 # 100) (1 # 10) (7 # 10) (4 # 10)).
Definition pad : Instrument :=
  mkInstrument "Pad" 2 "sine" 330 "#ba68c8" "wave"
    (mkEnvelope (1 # 10) (3 # 10) (8 # 10) (6 # 10)).
Definition bass : Instrument :=
  mkInstrument "Bass" 3 "sine" 110 "#d4a574" "circle"
    (mkEnvelope (1 # 100) (2 # 10) (6 # 10) (3 # 10)).
Definition percussion : Instrument :=
  mkInstrument "Perc" 4 "square" 880 "#ef5350" "particles"
    (mkEnvelope (1 # 1000) (1 # 10) (1 # 10) (1 # 10)).

(** [Object.values(INSTRUMENTS)], in the order the keys are written. *)
Definition INSTRUMENTS : list Instrument := [melody; pad; bass; percussion].

(** An argument of [getInstrumentByBeat]: a finite number, or any other
    JavaScript value ([undefined], [null], [NaN], a string, ...). *)
Inductive Value :=
| Num (q : Q)
| NotANumber.

(** [i.beat === beat]: strict equality never holds between a number and a
    value that is not one. *)
Definition strict_eq (b : Z) (v : Value) : bool :=
  match v with
  | Num q => Qeq_bool (inject_Z b) q
  | NotANumber => false
  end.

(** [instruments.find(i => i.beat === beat)]. *)
Definition find_by_beat (v : Value) : option Instrument :=
  List.find (fun i => strict_eq (beat i) v) INSTRUMENTS.

(** [getInstrumentByBeat(beat)]. *)
Definition getInstrumentByBeat (v : Value) : Instrument :=
  match find_by_beat v with
  | Some i => i
  | None => bass
  end.

End Instruments.

(** ** AudioEngine.js: loop lifecycle and lookahead scheduler

    The synthesis code (oscillators, envelopes, filters) is kept opaque:
    a loop is the list of the sound sources created for it, and
    [render ch n] is how many sources the synthesis code creates for a
    loop on channel [ch] when [n] sources exist already (the count depends
    on the genre style and, for one drum style, on [Math.random()]). *)
Module AudioEngine.

(** Keys of the [activeLoops] map: a beat number, or ['drums']. *)
Inductive Channel :=
| Beat (b : Z)
| Drums.

#[global] Instance Channel_eq_dec : EqDecision Channel.
Proof. solve_decision. Defined.

Definition Channel_code (ch : Channel) : Z + unit :=
  match ch with Beat b => inl b | Drums => inr tt end.

Definition Channel_decode (x : Z + unit) : Channel :=
  match x with inl b => Beat b | inr _ => Drums end.

Lemma Channel_decode_code ch : Channel_decode (Channel_code ch) = ch.
Proof. by destruct ch. Qed.

#[global] Instance Channel_countable : Countable Channel :=
  inj_countable' Channel_code Channel_decode Channel_decode_code.

(** Genres.js: the presets, with each chord root as its semitone offset
    [n] (the multiplier is [st(n) = 2^(n/12)]). *)
Inductive GenreId := pop | lofi | house.

Definition genre_bpm (g : GenreId) : Q :=
  match g with pop => 100 | lofi => 75 | house => 128 end%Q.

Definition genre_chords (g : GenreId) : list Z :=
  match g with
  | pop => [0; 0; -3; -3; 5; 5; 7; 7]
  | lofi => [2; 2; 7; 7; 0; 0; -3; -3]
  | house => [5; 5; 0; 0; -3; -3; 7; 7]
  end.

(** One call of a [play...Loop] method, as the audio graph sees it: the
    channel, the time its first sound is scheduled at, the sources created,
    the pitch ([baseFreq] of the instrument and chord root in semitones,
    for the three pitched loops) and whether it is the dissonant variant. *)
Record Group := mkGroup {
  channel : Channel;
  startAt : Q;
  members : list nat;
  pitch : option (Q * Z);
  dissonant : bool
}.

(** The fields of an [AudioEngine], followed by the part of the browser it
    acts on: [created] counts the sound sources made so far (the next
    fresh source), [rendered] lists every group in the order the engine
    rendered it, [stopped] holds the sources whose [stop()] was called
    through a loop handle, [timers] counts the timeouts armed.
    [isInitialized] also stands for [this.ctx] being set.
    [schedulerTimerId] is [None] for [null]. *)
Record t := mk {
  isInitialized : bool;
  activeLoops : gmap Channel (list nat);
  bpm : Q;
  beatDuration : Q;
  schedulerTimerId : option nat;
  nextLoopTime : Q;
  scheduleAheadTime : Q;
  lookahead : Q;
  isDrumsPlaying : bool;
  genre : GenreId;
  created : nat;
  rendered : list Group;
  stopped : gset nat;
  timers : nat
}.

(** [new AudioEngine()]. *)
Definition constructor : t :=
  {| isInitialized := false; activeLoops := ∅;
     bpm := 100%Q; beatDuration := (60 / 100)%Q;
     schedulerTimerId := None; nextLoopTime := 0%Q;
     scheduleAheadTime := (1 # 10)%Q; lookahead := 25%Q;
     isDrumsPlaying := false; genre := pop;
     created := 0%nat; rendered := []; stopped := ∅; timers := 0%nat |}.

(** Field updates. *)
Definition set_loops (m : gmap Channel (list nat)) (e : t) : t :=
  mk (isInitialized e) m (bpm e) (beatDuration e) (schedulerTimerId e)
     (nextLoopTime e) (scheduleAheadTime e) (lookahead e) (isDrumsPlaying e)
     (genre e) (created e) (rendered e) (stopped e) (timers e).

Definition set_stopped (st : gset nat) (e : t) : t :=
  mk (isInitialized e) (activeLoops e) (bpm e) (beatDuration e)
     (schedulerTimerId e) (nextLoopTime e) (scheduleAheadTime e) (lookahead e)
     (isDrumsPlaying e) (genre e) (created e) (rendered e) st (timers e).

Definition set_nextLoopTime (x : Q) (e : t) : t :=
  mk (isInitialized e) (activeLoops e) (bpm e) (beatDuration e)
     (schedulerTimerId e) x (scheduleAheadTime e) (lookahead e)
     (isDrumsPlaying e) (genre e) (created e) (rendered e) (stopped e)
     (timers e).

Definition set_isDrumsPlaying (b : bool) (e : t) : t :=
  mk (isInitialized e) (activeLoops e) (bpm e) (beatDuration e)
     (schedulerTimerId e) (nextLoopTime e) (scheduleAheadTime e) (lookahead e)
     b (genre e) (created e) (rendered e) (stopped e) (timers e).

Definition set_timer (id : option nat) (n : nat) (e : t) : t :=
  mk (isInitialized e) (activeLoops e) (bpm e) (beatDuration e) id
     (nextLoopTime e) (scheduleAheadTime e) (lookahead e) (isDrumsPlaying e)
     (genre e) (created e) (rendered e) (stopped e) n.

Definition set_tempo (g : GenreId) (b : Q) (e : t) : t :=
  mk (isInitialized e) (activeLoops e) b (60 / b)%Q (schedulerTimerId e)
     (nextLoopTime e) (scheduleAheadTime e) (lookahead e) (isDrumsPlaying e)
     g (created e) (rendered e) (stopped e) (timers e).

Definition set_initialized (e : t) : t :=
  mk true (activeLoops e) (bpm e) (beatDuration e) (schedulerTimerId e)
     (nextLoopTime e) (scheduleAheadTime e) (lookahead e) (isDrumsPlaying e)
     (genre e) (created e) (rendered e) (stopped e) (timers e).

(** [loop.stop()]: [sources.forEach(s => { try { s.stop(); } catch (e) { } })]. *)
Definition loop_stop (loop : list nat) (e : t) : t :=
  set_stopped (stopped e ∪ list_to_set loop) e.

(** [initialize()], for what the methods below read of it. *)
Definition initialize (e : t) : t :=
  if isInitialized e then e else set_initialized e.

(** [setBPM(bpm)]. *)
Definition setBPM (b : Q) (e : t) : t := set_tempo (genre e) b e.

(** [stopLoop(beat)]. *)
Definition stopLoop (ch : Channel) (e : t) : t :=
  match activeLoops e !! ch with
  | Some loop => set_loops (delete ch (activeLoops (loop_stop loop e))) (loop_stop loop e)
  | None => e
  end.

Section Engine.

Variable render : Channel -> nat -> nat.

(** What every [play...Loop] method does with the engine: create the
    sources of the loop, their first sound at [time], then
    [this.activeLoops.set(key, { stop })]. *)
Definition install (key : Channel) (time : Q) (p : option (Q * Z))
    (isDissonant : bool) (e : t) : t :=
  let sources := seq (created e) (render key (created e)) in
  mk (isInitialized e) (<[key := sources]> (activeLoops e)) (bpm e)
     (beatDuration e) (schedulerTimerId e) (nextLoopTime e)
     (scheduleAheadTime e) (lookahead e) (isDrumsPlaying e) (genre e)
     (created e + length sources)%nat
     (rendered e ++ [mkGroup key time sources p isDissonant])
     (stopped e) (timers e).

(** [playBassLoop], [playMelodyLoop], [playPadLoop], [playPercussionLoop]:
    each starts at [this.ctx.currentTime] and registers under its own key. *)
Definition playBassLoop (freq : Q * Z) (isDissonant : bool) (e : t) (c : Clock) : t :=
  install (Beat 3) (currentTime c) (Some freq) isDissonant e.

Definition playMelodyLoop (freq : Q * Z) (isDissonant : bool) (e : t) (c : Clock) : t :=
  install (Beat 1) (currentTime c) (Some freq) isDissonant e.

Definition playPadLoop (freq : Q * Z) (isDissonant : bool) (e : t) (c : Clock) : t :=
  install (Beat 2) (currentTime c) (Some freq) isDissonant e.

Definition playPercussionLoop (isDissonant : bool) (e : t) (c : Clock) : t :=
  install (Beat 4) (currentTime c) None isDissonant e.

(** [playDrumLoop(isDissonant, time = null)]. *)
Definition playDrumLoop (isDissonant : bool) (time : option Q) (e : t) (c : Clock) : t :=
  let now := match time with Some x => x | None => currentTime c end in
  install Drums now None isDissonant e.

(** [chords[chordIndex]]: [undefined] outside the array. *)
Definition chord_at (g : GenreId) (chordIndex : Z) : option Z :=
  if chordIndex <? 0 then None else genre_chords g !! Z.to_nat chordIndex.

(** [playNote(beat, barNumber, accuracy)].  [None] is the [TypeError] thrown
    by [chord.root] when [chords[chordIndex]] is [undefined]; otherwise the
    returned value ([null], or [{ beat, barNumber }]) and the new state. *)
Definition playNote (beat barNumber : Z) (accuracy : BeatTracker.Accuracy)
    (e : t) (c : Clock) : option (option (Z * Z) * t) :=
  if negb (isInitialized e) then Some (None, e)
  else
    let instrument := Instruments.getInstrumentByBeat (Instruments.Num (inject_Z beat)) in
    let chordIndex := JS.rem barNumber (Z.of_nat (length (genre_chords (genre e)))) in
    match chord_at (genre e) chordIndex with
    | None => None
    | Some root =>
        let isDissonant :=
          match accuracy with BeatTracker.off => true | _ => false end in
        let baseFreq := (Instruments.baseFreq instrument, root) in
        let e1 := stopLoop (Beat beat) e in
        let e2 :=
          match beat with
          | 1 => playMelodyLoop baseFreq isDissonant e1 c
          | 2 => playPadLoop baseFreq isDissonant e1 c
          | 3 => playBassLoop baseFreq isDissonant e1 c
          | 4 => playPercussionLoop isDissonant e1 c
          | _ => e1
          end in
        Some (Some (beat, barNumber), e2)
    end.

(** [scheduleLoop(time)]. *)
Definition scheduleLoop (time : Q) (e : t) (c : Clock) : t :=
  if isDrumsPlaying e then playDrumLoop false (Some time) e c else e.

(** The [while] loop of [scheduler()]; [None] when [fuel] iterations were
    not enough to leave it. *)
Fixpoint scheduler_loop (fuel : nat) (e : t) (c : Clock) : option t :=
  if JS.lt (nextLoopTime e) (currentTime c + scheduleAheadTime e)%Q then
    match fuel with
    | O => None
    | S fuel' =>
        let e1 := scheduleLoop (nextLoopTime e) e c in
        scheduler_loop fuel'
          (set_nextLoopTime (nextLoopTime e1 + beatDuration e1 * 4)%Q e1) c
    end
  else Some e.

(** [scheduler()]: one scheduling pass, then the timeout is armed again. *)
Definition scheduler (fuel : nat) (e : t) (c : Clock) : option t :=
  if negb (isDrumsPlaying e) then Some e
  else
    match scheduler_loop fuel e c with
    | Some e1 => Some (set_timer (Some (S (timers e1))) (S (timers e1)) e1)
    | None => None
    end.

(** [startContinuousDrums()], on an engine whose audio context exists,
    where a [Clock] reading of the audio time is available.  The method
    reads [this.ctx.currentTime]: before [initialize()] has created the
    context the source throws there, having set [isDrumsPlaying]. *)
Definition startContinuousDrums (fuel : nat) (e : t) (c : Clock) : option t :=
  if isDrumsPlaying e then Some e
  else
    scheduler fuel
      (set_nextLoopTime (currentTime c) (set_isDrumsPlaying true e)) c.

(** [stopContinuousDrums()]. *)
Definition stopContinuousDrums (e : t) : t :=
  let e1 := set_isDrumsPlaying false e in
  let e2 := set_timer None (timers e1) e1 in
  stopLoop Drums e2.

(** Every source of every loop of a map. *)
Definition all_sources (m : gmap Channel (list nat)) : list nat :=
  concat (map snd (map_to_list m)).

(** [stopAll()]. *)
Definition stopAll (e : t) : t :=
  let e1 := stopContinuousDrums e in
  let e2 := loop_stop (all_sources (activeLoops e1)) e1 in
  set_loops ∅ e2.

(** [stopInstruments()]. *)
Definition stopInstruments (e : t) : t :=
  let instruments := filter (fun kv => fst kv ≠ Drums) (activeLoops e) in
  let e1 := loop_stop (all_sources instruments) e in
  set_loops (filter (fun kv => fst kv = Drums) (activeLoops e1)) e1.

(** [setGenre(genreId)], for a known genre. *)
Definition setGenre (fuel : nat) (g : GenreId) (e : t) (c : Clock) : option t :=
  let e1 := set_tempo g (genre_bpm g) e in
  if isDrumsPlaying e1 then startContinuousDrums fuel (stopContinuousDrums e1) c
  else Some e1.

End Engine.

End AudioEngine.

(** ** The timing evaluator as the specification words it

    A second definition of the evaluator, written from the design text
    alone, to compare [BeatTracker.evaluateTiming] with. *)
Module Reference.

(** "Round to nearest integer beat index"; at exactly half a beat from both
    neighbours the later one is taken. *)
Definition round_half_up (x : Q) : Z :=
  let below := Qfloor x in
  if Qle_bool (1 # 2) (x - inject_Z below)%Q then below + 1 else below.

(** Perfect up to 50 ms of absolute offset, Good up to 150 ms, else Off. *)
Definition classify (offsetMs : Q) : BeatTracker.Accuracy :=
  if Qle_bool (Qabs offsetMs) 50 then BeatTracker.perfect
  else if Qle_bool (Qabs offsetMs) 150 then BeatTracker.good
  else BeatTracker.off.

(** Elapsed musical time in milliseconds: current time minus origin minus
    accumulated pause, read on the audio clock when that is the
    evaluator's time base and at the hit's timestamp otherwise. *)
Definition elapsedMs (audioClock : bool) (origin accumulatedPause : Q)
    (c : Clock) (hitTimestamp : Q) : Q :=
  if audioClock then ((currentTime c - origin - accumulatedPause) * 1000)%Q
  else (hitTimestamp - origin - accumulatedPause)%Q.

(** The evaluation of a hit, from the elapsed time and the beat duration. *)
Definition evaluate (elapsed beatDurationMs : Q) : BeatTracker.Timing.t :=
  let position := (elapsed / beatDurationMs)%Q in
  let roundedIndex := round_half_up position in
  let offsetMs := ((position - inject_Z roundedIndex) * beatDurationMs)%Q in
  BeatTracker.Timing.mk (classify offsetMs) (roundedIndex mod 4 + 1) offsetMs
    (roundedIndex / 4).

End Reference.

(** * Properties *)

(** ** Facts about the JavaScript arithmetic *)
Module JSFacts.

Lemma Math_round_near (x : Q) :
  (inject_Z (JS.Math_round x) - (1 # 2) <= x
   /\ x < inject_Z (JS.Math_round x) + (1 # 2))%Q.
Proof.
  unfold JS.Math_round.
  pose proof (Qfloor_le (x + (1 # 2))) as Hlo.
  pose proof (Qlt_floor (x + (1 # 2))) as Hhi.
  rewrite inject_Z_plus in Hhi. change (inject_Z 1) with 1%Q in Hhi.
  split; lra.
Qed.

(** An integer within half a unit below and strictly less than half a unit
    above [x] is [Math.round x]. *)
Lemma Math_round_unique (x : Q) (n : Z) :
  (inject_Z n - (1 # 2) <= x)%Q -> (x < inject_Z n + (1 # 2))%Q ->
  JS.Math_round x = n.
Proof.
  intros Hlo Hhi. unfold JS.Math_round.
  pose proof (Qfloor_le (x + (1 # 2))) as Flo.
  pose proof (Qlt_floor (x + (1 # 2))) as Fhi.
  rewrite inject_Z_plus in Fhi. change (inject_Z 1) with 1%Q in Fhi.
  set (m := Qfloor (x + (1 # 2))) in *.
  assert (inject_Z m < inject_Z n + 1)%Q as H1 by lra.
  assert (inject_Z n < inject_Z m + 1)%Q as H2 by lra.
  change 1%Q with (inject_Z 1) in H1, H2.
  rewrite <- inject_Z_plus in H1, H2.
  rewrite <- Zlt_Qlt in H1, H2. lia.
Qed.

Lemma round_half_up_is_Math_round (x : Q) :
  Reference.round_half_up x = JS.Math_round x.
Proof.
  symmetry. apply Math_round_unique; unfold Reference.round_half_up;
    pose proof (Qfloor_le x) as Flo; pose proof (Qlt_floor x) as Fhi;
    rewrite inject_Z_plus in Fhi; change (inject_Z 1) with 1%Q in Fhi;
    destruct (Qle_bool (1 # 2) (x - inject_Z (Qfloor x))) eqn:E.
  - rewrite inject_Z_plus. change (inject_Z 1) with 1%Q.
    apply Qle_bool_iff in E. lra.
  - lra.
  - rewrite inject_Z_plus. change (inject_Z 1) with 1%Q. lra.
  - assert (~ (1 # 2 <= x - inject_Z (Qfloor x))%Q) as N.
    { intros H. apply Qle_bool_iff in H. congruence. }
    lra.
Qed.

Lemma Math_round_nonneg (x : Q) : (0 <= x)%Q -> 0 <= JS.Math_round x.
Proof.
  intros H. unfold JS.Math_round.
  change 0 with (Qfloor 0). apply Qfloor_resp_le. lra.
Qed.

Lemma Math_floor_quarter (n : Z) : JS.Math_floor (inject_Z n / 4)%Q = n / 4.
Proof. unfold JS.Math_floor. symmetry. apply (Zdiv_Qdiv n 4). Qed.

Lemma rem_is_mod (a : Z) : 0 <= a -> JS.rem a 4 = a mod 4.
Proof. intros H. apply Z.rem_mod_nonneg; lia. Qed.

Lemma trunc_floor (x : Q) :
  JS.trunc x = if Qle_bool 0 x then Qfloor x else - Qfloor (- x).
Proof.
  destruct x as [n d]. unfold JS.trunc, Qle_bool, Qfloor, Qopp. simpl.
  rewrite Z.mul_1_r. change (0 * Z.pos d) with 0.
  destruct (Z.leb_spec 0 n) as [H | H].
  - apply Z.quot_div_nonneg; lia.
  - rewrite <- (Z.quot_div_nonneg (- n) (Z.pos d)) by lia.
    rewrite Z.quot_opp_l by lia. lia.
Qed.

Lemma trunc_comp (x y : Q) : (x == y)%Q -> JS.trunc x = JS.trunc y.
Proof.
  intros E. rewrite !trunc_floor.
  assert (Qle_bool 0 x = Qle_bool 0 y) as ->.
  { apply eq_true_iff_eq. rewrite !Qle_bool_iff, E. tauto. }
  rewrite (Qfloor_comp x y E), (Qfloor_comp (- x) (- y)); [reflexivity |].
  now rewrite E.
Qed.

Lemma fmod1_comp (x y : Q) : (x == y)%Q -> (JS.fmod1 x == JS.fmod1 y)%Q.
Proof.
  intros E. unfold JS.fmod1. rewrite (trunc_comp x y E), E. reflexivity.
Qed.

Lemma Qle_bool_comp (a b a' b' : Q) :
  (a == a')%Q -> (b == b')%Q -> Qle_bool a b = Qle_bool a' b'.
Proof.
  intros Ea Eb. apply eq_true_iff_eq. rewrite !Qle_bool_iff, Ea, Eb. tauto.
Qed.

Lemma lt_true (a b : Q) : JS.lt a b = true <-> (a < b)%Q.
Proof.
  unfold JS.lt. rewrite negb_true_iff. split.
  - intros H. apply Qnot_le_lt. intros L. apply Qle_bool_iff in L. congruence.
  - intros H. destruct (Qle_bool b a) eqn:E; [| reflexivity].
    apply Qle_bool_iff in E. lra.
Qed.

Lemma lt_false (a b : Q) : JS.lt a b = false <-> (b <= a)%Q.
Proof.
  unfold JS.lt. rewrite negb_false_iff. apply Qle_bool_iff.
Qed.

End JSFacts.

(** ** The transport clock: [start], [stop], [pause], [resume] and the
    position query *)
Module TransportClock.
Import BeatTracker.

(** Two positions are the same up to the representation of their
    rational fields. *)
Definition same_position (a b : BeatInfo.t) : Prop :=
  BeatInfo.beat a = BeatInfo.beat b
  /\ (BeatInfo.progress a == BeatInfo.progress b)%Q
  /\ BeatInfo.barNumber a = BeatInfo.barNumber b
  /\ (BeatInfo.totalBeats a == BeatInfo.totalBeats b)%Q.

(** The position computed from a beat count, as the tail of
    [getCurrentBeatInfo] does. *)
Definition position_of (totalBeats : Q) : BeatInfo.t :=
  BeatInfo.mk (JS.rem (JS.Math_floor totalBeats) 4 + 1) (JS.fmod1 totalBeats)
    (JS.Math_floor (totalBeats / 4)%Q) totalBeats.

Lemma position_of_comp (x y : Q) :
  (x == y)%Q -> same_position (position_of x) (position_of y).
Proof.
  intros E. unfold same_position, position_of, JS.Math_floor.
  cbn [BeatInfo.beat BeatInfo.progress BeatInfo.barNumber BeatInfo.totalBeats].
  rewrite (Qfloor_comp x y E).
  rewrite (Qfloor_comp (x / 4) (y / 4)) by now rewrite E.
  repeat split; auto using JSFacts.fmod1_comp.
Qed.

(** The elapsed time (in milliseconds) a running, unpaused tracker sees. *)
Definition elapsed_ms (s : t) (st : Q) (c : Clock) : Q :=
  if audioCtx s then ((currentTime c - st - totalPausedTime s) * 1000)%Q
  else (performance_now c - st - totalPausedTime s)%Q.

Lemma getCurrentBeatInfo_running (s : t) (c : Clock) (st : Q) :
  isRunning s = true -> startTime s = Some st -> isPaused s = false ->
  getCurrentBeatInfo s c = position_of (elapsed_ms s st c / (60000 / bpm s))%Q.
Proof.
  intros R S P. unfold getCurrentBeatInfo, elapsed_ms, position_of.
  rewrite R, S, P. destruct (audioCtx s); reflexivity.
Qed.

Lemma getCurrentBeatInfo_idle (s : t) (c : Clock) :
  isRunning s = false \/ startTime s = None ->
  getCurrentBeatInfo s c = BeatInfo.mk 1 0%Q 0 0%Q.
Proof.
  unfold getCurrentBeatInfo. intros [H | H]; rewrite H; [reflexivity |].
  destruct (isRunning s); reflexivity.
Qed.

Lemma elapsed_ms_now (s : t) (st : Q) (c : Clock) :
  (elapsed_ms s st c ==
   (now s c - st - totalPausedTime s) * (if audioCtx s then 1000 else 1))%Q.
Proof. unfold elapsed_ms, now. destruct (audioCtx s); ring. Qed.

(** The elapsed beat count of a running transport at a clock reading, as
    the specification defines it: the time on the transport's clock since
    the origin, less the accumulated pause, taken at [pausedAt] while the
    transport is paused, in milliseconds, at [bpm] beats per 60000 ms. *)
Definition beat_count (s : t) (st : Q) (c : Clock) : Q :=
  let reading := if isPaused s then JS.num (pausedAt s) else now s c in
  let active := (reading - st - totalPausedTime s)%Q in
  let ms := if audioCtx s then (active * 1000)%Q else active in
  (ms * bpm s / 60000)%Q.

(** For a tempo that is not 0 the query computes its position from
    [beat_count]. *)
Lemma getCurrentBeatInfo_count (s : t) (c : Clock) (st : Q) :
  isRunning s = true -> startTime s = Some st -> ~ (bpm s == 0)%Q ->
  same_position (getCurrentBeatInfo s c) (position_of (beat_count s st c)).
Proof.
  intros R S Hb. unfold getCurrentBeatInfo, beat_count, now. rewrite R, S.
  destruct (audioCtx s), (isPaused s); cbv zeta;
    (apply (position_of_comp _ _); field; exact Hb).
Qed.

(** C2.  For a running transport with tempo [bpm > 0], at every clock
    reading where the elapsed beat count [B] (computed from the clock, the
    origin, the accumulated pause and the tempo) is not negative, the
    position query reports that beat count and returns
    [beat = (floor B mod 4) + 1], which lies in 1..4,
    [barNumber = floor (B / 4)] and the fraction of [B] as progress; and
    between any two queries (of the same or of another running transport)
    the bar number does not decrease when the beat count does not. *)
Theorem position_beat_and_bar (s : t) (c : Clock) (st : Q) :
  isRunning s = true -> startTime s = Some st -> (0 < bpm s)%Q ->
  (0 <= beat_count s st c)%Q ->
  let B := beat_count s st c in
  (BeatInfo.totalBeats (getCurrentBeatInfo s c) == B)%Q
  /\ BeatInfo.beat (getCurrentBeatInfo s c) = Qfloor B mod 4 + 1
  /\ 1 <= BeatInfo.beat (getCurrentBeatInfo s c) <= 4
  /\ BeatInfo.barNumber (getCurrentBeatInfo s c) = Qfloor (B / 4)
  /\ 0 <= BeatInfo.barNumber (getCurrentBeatInfo s c)
  /\ (BeatInfo.progress (getCurrentBeatInfo s c) == B - inject_Z (Qfloor B))%Q
  /\ forall (s' : t) (c' : Clock) (st' : Q),
       isRunning s' = true -> startTime s' = Some st' -> (0 < bpm s')%Q ->
       (B <= beat_count s' st' c')%Q ->
       BeatInfo.barNumber (getCurrentBeatInfo s c)
       <= BeatInfo.barNumber (getCurrentBeatInfo s' c').
Proof.
  intros R S Hb HB B.
  assert (~ (bpm s == 0)%Q) as Hn by lra.
  destruct (getCurrentBeatInfo_count s c st R S Hn) as (Eb & Ep & En & Et).
  fold B in Eb, Ep, En, Et, HB.
  unfold position_of, JS.Math_floor in Eb, Ep, En, Et.
  cbn [BeatInfo.beat BeatInfo.progress BeatInfo.barNumber BeatInfo.totalBeats]
    in Eb, Ep, En, Et.
  assert (0 <= Qfloor B) as Hfl.
  { change 0 with (Qfloor 0). now apply Qfloor_resp_le. }
  rewrite JSFacts.rem_is_mod in Eb by exact Hfl.
  pose proof (Z.mod_pos_bound (Qfloor B) 4 ltac:(lia)) as Hm.
  assert (0 <= Qfloor (B / 4)) as Hbar.
  { change 0 with (Qfloor 0). apply Qfloor_resp_le.
    apply Qle_shift_div_l; [reflexivity | lra]. }
  split; [exact Et |]. split; [exact Eb |]. split; [lia |].
  split; [exact En |]. split; [lia |]. split.
  - rewrite Ep. unfold JS.fmod1. rewrite JSFacts.trunc_floor.
    assert (Qle_bool 0 B = true) as -> by now apply Qle_bool_iff.
    reflexivity.
  - intros s' c' st' R' S' Hb' Hle.
    assert (~ (bpm s' == 0)%Q) as Hn' by lra.
    destruct (getCurrentBeatInfo_count s' c' st' R' S' Hn') as (_ & _ & En' & _).
    unfold position_of, JS.Math_floor in En'. cbn [BeatInfo.barNumber] in En'.
    rewrite En, En'. apply Qfloor_resp_le.
    apply Qmult_le_compat_r; [exact Hle | discriminate].
Qed.

(** At 100 BPM a query 1500 ms after the start is 2.5 beats in: beat 3 of
    bar 0, half way through. *)
Lemma position_beat_and_bar_witness :
  (beat_count (start (constructor 100) (mkClock 0 0)) 0 (mkClock 0 1500)
   == 5 # 2)%Q
  /\ BeatInfo.beat
       (getCurrentBeatInfo (start (constructor 100) (mkClock 0 0))
          (mkClock 0 1500))
     = Qfloor (beat_count (start (constructor 100) (mkClock 0 0)) 0
                 (mkClock 0 1500)) mod 4 + 1
  /\ Qfloor (beat_count (start (constructor 100) (mkClock 0 0)) 0
               (mkClock 0 1500)) mod 4 + 1 = 3.
Proof.
  pose proof (position_beat_and_bar (start (constructor 100) (mkClock 0 0))
                (mkClock 0 1500) 0%Q eq_refl eq_refl eq_refl
                ltac:(vm_compute; discriminate)) as H.
  cbv zeta in H. destruct H as (_ & H & _).
  split; [reflexivity |]. split; [exact H | reflexivity].
Defined.

(** While paused the position is frozen at the reading [pause()] took. *)
Lemma paused_position_frozen (s : t) (c1 c : Clock) :
  isRunning s = true -> isPaused s = false ->
  getCurrentBeatInfo (pause s c1) c = getCurrentBeatInfo s c1.
Proof.
  intros R P. unfold pause. rewrite R, P. simpl.
  unfold getCurrentBeatInfo. simpl. rewrite R, P. unfold now.
  destruct (startTime s); [| reflexivity].
  destruct (audioCtx s); reflexivity.
Qed.

(** C3.  On a running, unpaused transport, [pause()] records the current
    reading as [pausedAt]; [resume()] adds (now - pausedAt) to
    [totalPausedTime] and touches neither the origin nor the tempo; so a
    query at reading [c3] after a pause lasting from [c1] to [c2] gives the
    position the never-paused transport gives at the reading [c0] that lies
    the pause's duration before [c3], that is for the same net active
    time.  For any pause duration, in either time base. *)
Theorem pause_resume_keeps_phase (s : t) (c1 c2 c3 c0 : Clock) :
  isRunning s = true -> isPaused s = false ->
  (now s c3 - now s c0 == now s c2 - now s c1)%Q ->
  pausedAt (pause s c1) = Some (now s c1)
  /\ isPaused (pause s c1) = true
  /\ startTime (pause s c1) = startTime s
  /\ startTime (resume (pause s c1) c2) = startTime s
  /\ totalPausedTime (resume (pause s c1) c2)
     = (totalPausedTime s + (now s c2 - now s c1))%Q
  /\ isPaused (resume (pause s c1) c2) = false
  /\ bpm (resume (pause s c1) c2) = bpm s
  /\ same_position (getCurrentBeatInfo (resume (pause s c1) c2) c3)
       (getCurrentBeatInfo s c0).
Proof.
  intros R P D.
  assert (pause s c1
          = mk (bpm s) (beatDuration s) (startTime s) (isRunning s) true
              (Some (now s c1)) (totalPausedTime s) (barCount s) (audioCtx s)
              (perfectWindow s) (goodWindow s)) as Ep.
  { unfold pause. rewrite R, P. reflexivity. }
  rewrite Ep. unfold resume. simpl.
  do 7 (split; [reflexivity |]).
  destruct (startTime s) as [st |] eqn:S.
  - rewrite (getCurrentBeatInfo_running _ c3 st) by (simpl; auto).
    rewrite (getCurrentBeatInfo_running s c0 st) by auto.
    apply position_of_comp. simpl.
    apply Qdiv_comp; [| reflexivity].
    rewrite !elapsed_ms_now. simpl.
    unfold now in *. simpl. destruct (audioCtx s); lra.
  - rewrite !getCurrentBeatInfo_idle by (simpl; auto).
    repeat split; reflexivity.
Qed.

(** The witness: 100 BPM, started at 0 ms, paused from 1000 ms to 4000 ms,
    queried at 4500 ms, against the unpaused transport at 1500 ms. *)
Lemma pause_resume_keeps_phase_witness :
  same_position
    (getCurrentBeatInfo
       (resume (pause (start (constructor 100) (mkClock 0 0)) (mkClock 0 1000))
          (mkClock 0 4000)) (mkClock 0 4500))
    (getCurrentBeatInfo (start (constructor 100) (mkClock 0 0)) (mkClock 0 1500)).
Proof.
  apply (pause_resume_keeps_phase (start (constructor 100) (mkClock 0 0))
           (mkClock 0 1000) (mkClock 0 4000) (mkClock 0 4500) (mkClock 0 1500));
    reflexivity.
Defined.

(** *** [start()] and the transitions that are not valid *)

(** What [start()] writes, field by field. *)
Lemma start_fields (s : t) (c : Clock) :
  start s c
  = mk (bpm s) (beatDuration s) (Some (now s c)) true (isPaused s)
      (pausedAt s) (totalPausedTime s) 0 (audioCtx s) (perfectWindow s)
      (goodWindow s).
Proof. reflexivity. Qed.

(** [stop()] and the constructor are what leave the pause bookkeeping
    cleared. *)
Definition pause_state_cleared (s : t) : Prop :=
  isPaused s = false /\ pausedAt s = None /\ totalPausedTime s = 0%Q.

Lemma stop_clears (s : t) : pause_state_cleared (stop s).
Proof. repeat split. Qed.

Lemma constructor_cleared (b : Q) : pause_state_cleared (constructor b).
Proof. repeat split. Qed.

(** The transport of the examples below: 100 BPM on the input clock,
    started at 0 ms, paused at 1000 ms and resumed at 4000 ms. *)
Definition resumed_transport : t :=
  resume (pause (start (constructor 100) (mkClock 0 0)) (mkClock 0 1000))
    (mkClock 0 4000).

(** C6, as stated, fails: [start()] at 5000 ms on a transport that was
    paused for 3000 ms leaves the 3000 ms of accumulated pause in place. *)
Lemma start_keeps_accumulated_pause :
  isRunning resumed_transport = true
  /\ totalPausedTime resumed_transport = 3000%Q
  /\ totalPausedTime (start resumed_transport (mkClock 0 5000)) = 3000%Q
  /\ ~ (totalPausedTime (start resumed_transport (mkClock 0 5000)) == 0)%Q.
Proof.
  split; [reflexivity |]. split; [reflexivity |]. split; [reflexivity |].
  intros H. vm_compute in H. discriminate H.
Qed.

(** C6, amended.  [start()] sets the origin to the current reading of the
    time base in use, sets [isRunning] and resets [barCount]; it leaves
    [isPaused], [pausedAt] and [totalPausedTime] (and the tempo) as they
    were.  The pause bookkeeping is clear after [start()] when [start()]
    follows [stop()] or the constructor, which are what clear it. *)
Theorem start_sets_origin_only (s : t) (c : Clock) (b : Q) :
  startTime (start s c) = Some (now s c)
  /\ isRunning (start s c) = true
  /\ barCount (start s c) = 0
  /\ isPaused (start s c) = isPaused s
  /\ pausedAt (start s c) = pausedAt s
  /\ totalPausedTime (start s c) = totalPausedTime s
  /\ bpm (start s c) = bpm s
  /\ beatDuration (start s c) = beatDuration s
  /\ pause_state_cleared (start (stop s) c)
  /\ pause_state_cleared (start (constructor b) c).
Proof. repeat split. Qed.

(** C7, as stated, fails: [start()] on a transport that is running moves
    its origin (here from 0 ms to 5000 ms). *)
Lemma start_while_running_moves_origin :
  isRunning (start (constructor 100) (mkClock 0 0)) = true
  /\ startTime (start (constructor 100) (mkClock 0 0)) = Some 0%Q
  /\ startTime (start (start (constructor 100) (mkClock 0 0)) (mkClock 0 5000))
     = Some 5000%Q
  /\ start (start (constructor 100) (mkClock 0 0)) (mkClock 0 5000)
     <> start (constructor 100) (mkClock 0 0).
Proof. repeat split. discriminate. Qed.

(** C7, amended.  No transition raises.  [resume()] while not paused and
    [pause()] while not running or already paused leave the whole state
    unchanged.  [start()] while running is not a no-op: it moves the
    origin to the current reading and resets [barCount], leaving every
    other field, the pause bookkeeping included, unchanged; it leaves the
    state unchanged only if the origin already is the current reading and
    [barCount] is 0. *)
Theorem invalid_transitions (s : t) (c : Clock) :
  (isPaused s = false -> resume s c = s)
  /\ (isRunning s = false \/ isPaused s = true -> pause s c = s)
  /\ (isRunning s = true ->
      start s c
      = mk (bpm s) (beatDuration s) (Some (now s c)) (isRunning s) (isPaused s)
          (pausedAt s) (totalPausedTime s) 0 (audioCtx s) (perfectWindow s)
          (goodWindow s)
      /\ (start s c = s <-> startTime s = Some (now s c) /\ barCount s = 0)).
Proof.
  split; [| split].
  - intros P. unfold resume. rewrite P. reflexivity.
  - intros [R | P]; unfold pause.
    + rewrite R. reflexivity.
    + rewrite P. rewrite orb_true_r. reflexivity.
  - intros R. rewrite start_fields, R. split; [reflexivity |].
    destruct s as [b d st r p pa tp bc a pw gw]. unfold now. cbn in *. subst r.
    split.
    + intros E. injection E as E1 E2. split; congruence.
    + intros [E1 E2]. rewrite <- E1, E2. reflexivity.
Qed.

(** The three transitions on a transport that is running and not paused. *)
Lemma invalid_transitions_witness :
  resume resumed_transport (mkClock 0 6000) = resumed_transport
  /\ pause (constructor 100) (mkClock 0 6000) = constructor 100
  /\ startTime (start resumed_transport (mkClock 0 6000)) = Some 6000%Q.
Proof.
  destruct (invalid_transitions resumed_transport (mkClock 0 6000))
    as (Hr & _ & Hs).
  destruct (invalid_transitions (constructor 100) (mkClock 0 6000))
    as (_ & Hp & _).
  split; [exact (Hr eq_refl) |].
  split; [exact (Hp (or_introl eq_refl)) |].
  destruct (Hs eq_refl) as [E _]. rewrite E. reflexivity.
Defined.

End TransportClock.

(** ** The timing evaluator *)
Module TimingEvaluator.
Import BeatTracker.

(** Two results are the same up to the representation of the offset. *)
Definition same_timing (a b : Timing.t) : Prop :=
  Timing.accuracy a = Timing.accuracy b
  /\ Timing.nearestBeat a = Timing.nearestBeat b
  /\ (Timing.offset a == Timing.offset b)%Q
  /\ Timing.barNumber a = Timing.barNumber b.

(** C8.  When the transport is not running (or has no origin),
    [evaluateTiming] returns, for every hit timestamp and every clock
    reading, exactly accuracy Off, nearest beat 1, offset 0 and bar 0.
    [evaluateTiming] is a total function, so there is no other outcome. *)
Theorem evaluateTiming_not_running (s : t) (c : Clock) (hitTime : Q) :
  isRunning s = false \/ startTime s = None ->
  evaluateTiming s c hitTime = Timing.mk off 1 0%Q 0.
Proof.
  unfold evaluateTiming, fallback. intros [H | H]; rewrite H; [reflexivity |].
  destruct (isRunning s); reflexivity.
Qed.

(** A fresh tracker and a stopped one both give the fallback. *)
Lemma evaluateTiming_not_running_witness :
  evaluateTiming (constructor 100) (mkClock 0 700) 700 = Timing.mk off 1 0%Q 0
  /\ evaluateTiming (stop TransportClock.resumed_transport) (mkClock 0 700) 700
     = Timing.mk off 1 0%Q 0.
Proof.
  split.
  - apply (evaluateTiming_not_running (constructor 100) (mkClock 0 700) 700).
    left. reflexivity.
  - apply (evaluateTiming_not_running (stop TransportClock.resumed_transport)
             (mkClock 0 700) 700).
    left. reflexivity.
Defined.

(** The elapsed time [evaluateTiming] computes is the specification's. *)
Lemma evaluateTiming_running (s : t) (c : Clock) (hitTime st : Q) :
  isRunning s = true -> startTime s = Some st ->
  let elapsed :=
    Reference.elapsedMs (audioCtx s) st (totalPausedTime s) c hitTime in
  let beatPosition := (elapsed / beatDuration s)%Q in
  let index := JS.Math_round beatPosition in
  let offset := ((beatPosition - inject_Z index) * beatDuration s)%Q in
  evaluateTiming s c hitTime
  = Timing.mk
      (if JS.le (JS.Math_abs offset) (perfectWindow s) then perfect
       else if JS.le (JS.Math_abs offset) (goodWindow s) then good else off)
      (JS.rem index 4 + 1) offset (JS.Math_floor (inject_Z index / 4)%Q).
Proof.
  intros R S. unfold evaluateTiming, Reference.elapsedMs. rewrite R, S.
  reflexivity.
Qed.

(** Where [evaluateTiming] and the reference algorithm agree: a running
    transport with tempo [bpm > 0], the beat duration and the windows the
    constructor and [setBPM] establish, and a hit whose elapsed musical
    time is not negative.  They then agree on accuracy, nearest beat,
    offset and bar number, and the nearest beat lies in 1..4. *)
Lemma evaluateTiming_refines_reference (s : t) (c : Clock) (hitTime st : Q) :
  isRunning s = true -> startTime s = Some st ->
  (0 < bpm s)%Q -> (beatDuration s == 60000 / bpm s)%Q ->
  (perfectWindow s == 50)%Q -> (goodWindow s == 150)%Q ->
  (0 <= Reference.elapsedMs (audioCtx s) st (totalPausedTime s) c hitTime)%Q ->
  same_timing (evaluateTiming s c hitTime)
    (Reference.evaluate
       (Reference.elapsedMs (audioCtx s) st (totalPausedTime s) c hitTime)
       (60000 / bpm s))
  /\ 1 <= Timing.nearestBeat (evaluateTiming s c hitTime) <= 4.
Proof.
  intros R S Hb Hd Hp Hg He.
  rewrite (evaluateTiming_running s c hitTime st R S). cbv zeta.
  set (el := Reference.elapsedMs (audioCtx s) st (totalPausedTime s) c hitTime) in *.
  unfold Reference.evaluate, same_timing.
  cbn [Timing.accuracy Timing.nearestBeat Timing.offset Timing.barNumber].
  rewrite JSFacts.round_half_up_is_Math_round.
  assert (0 < 60000 / bpm s)%Q as Hpos.
  { apply Qlt_shift_div_l; [exact Hb | lra]. }
  assert (el / beatDuration s == el / (60000 / bpm s))%Q as Epos.
  { now rewrite Hd. }
  assert (JS.Math_round (el / beatDuration s)
          = JS.Math_round (el / (60000 / bpm s))) as Eidx.
  { unfold JS.Math_round. apply Qfloor_comp. now rewrite Epos. }
  rewrite Eidx. set (idx := JS.Math_round (el / (60000 / bpm s))).
  assert (0 <= idx) as Hidx.
  { apply JSFacts.Math_round_nonneg. apply Qle_shift_div_l; [exact Hpos | lra]. }
  assert ((el / beatDuration s - inject_Z idx) * beatDuration s
          == (el / (60000 / bpm s) - inject_Z idx) * (60000 / bpm s))%Q as Eoff.
  { now rewrite Epos, Hd. }
  assert (JS.rem idx 4 = idx mod 4) as Erem by now apply JSFacts.rem_is_mod.
  pose proof (Z.mod_pos_bound idx 4 ltac:(lia)) as Hm.
  split; [| lia].
  split; [| split; [lia | split; [exact Eoff | apply JSFacts.Math_floor_quarter]]].
  unfold Reference.classify, JS.le, JS.Math_abs.
  rewrite (JSFacts.Qle_bool_comp _ (perfectWindow s) _ 50 (Qabs_wd _ _ Eoff) Hp).
  rewrite (JSFacts.Qle_bool_comp _ (goodWindow s) _ 150 (Qabs_wd _ _ Eoff) Hg).
  reflexivity.
Qed.

(** The scenario of the specification: 100 BPM, started at 0 ms on the
    input clock.  A hit at 605 ms is 5 ms after beat 2: Perfect. *)
Lemma evaluateTiming_refines_reference_witness :
  same_timing
    (evaluateTiming (start (constructor 100) (mkClock 0 0)) (mkClock 0 605) 605)
    (Reference.evaluate 605 600)
  /\ (Timing.offset (Reference.evaluate 605 600) == 5)%Q
  /\ Timing.accuracy (Reference.evaluate 605 600) = perfect
  /\ Timing.nearestBeat (Reference.evaluate 605 600) = 2.
Proof.
  split; [| repeat split].
  destruct (evaluateTiming_refines_reference
              (start (constructor 100) (mkClock 0 0)) (mkClock 0 605) 605 0
              eq_refl eq_refl eq_refl eq_refl eq_refl eq_refl
              ltac:(vm_compute; discriminate)) as [H _].
  destruct H as (A & B & C & D). repeat split; assumption.
Defined.

(** The offset is the signed distance to the nearest beat centre: no
    beat centre [k * beatDuration] is nearer to the elapsed time than the
    one the offset is measured from. *)
Lemma offset_is_nearest (el bd : Q) (k : Z) :
  (0 < bd)%Q ->
  (Qabs ((el / bd - inject_Z (JS.Math_round (el / bd))) * bd)
   <= Qabs (el - inject_Z k * bd))%Q.
Proof.
  intros Hb.
  destruct (JSFacts.Math_round_near (el / bd)) as [Hlo Hhi].
  set (pos := (el / bd)%Q) in *. set (idx := JS.Math_round pos) in *.
  assert (el - inject_Z k * bd == (pos - inject_Z k) * bd)%Q as Ek.
  { unfold pos. field. lra. }
  rewrite Ek.
  assert (- (1 # 2) * bd <= (pos - inject_Z idx) * bd)%Q as H1.
  { apply Qmult_le_compat_r; lra. }
  assert ((pos - inject_Z idx) * bd <= (1 # 2) * bd)%Q as H2.
  { apply Qmult_le_compat_r; lra. }
  assert (Qabs ((pos - inject_Z idx) * bd) <= (1 # 2) * bd)%Q as Ha.
  { apply Qabs_Qle_condition. split; lra. }
  destruct (Z.lt_trichotomy k idx) as [L | [E | L]].
  - assert (inject_Z k + 1 <= inject_Z idx)%Q as Hk.
    { change 1%Q with (inject_Z 1). rewrite <- inject_Z_plus, <- Zle_Qle. lia. }
    assert ((1 # 2) * bd <= (pos - inject_Z k) * bd)%Q as H3.
    { apply Qmult_le_compat_r; lra. }
    pose proof (Qle_Qabs ((pos - inject_Z k) * bd)) as H4. lra.
  - subst k. apply Qle_refl.
  - assert (inject_Z idx + 1 <= inject_Z k)%Q as Hk.
    { change 1%Q with (inject_Z 1). rewrite <- inject_Z_plus, <- Zle_Qle. lia. }
    assert ((1 # 2) * bd <= (inject_Z k - pos) * bd)%Q as H3.
    { apply Qmult_le_compat_r; lra. }
    pose proof (Qle_Qabs (- ((pos - inject_Z k) * bd))) as H4.
    rewrite Qabs_opp in H4.
    assert (- ((pos - inject_Z k) * bd) == (inject_Z k - pos) * bd)%Q as E
      by ring.
    lra.
Qed.

(** The accuracy of a hit, by its distance to the beat centres.  On a
    running transport with a positive beat duration, no beat centre
    [k * beatDuration] (for any integer [k], negative ones included) is
    nearer to the elapsed time than the absolute offset says.  So a hit is
    Perfect exactly when some beat centre is within [perfectWindow] of it;
    Good exactly when none is that near and some beat centre is within
    [goodWindow]; Off exactly when every beat centre is farther than both
    windows. *)
Theorem accuracy_by_distance (s : t) (c : Clock) (hitTime st : Q) :
  isRunning s = true -> startTime s = Some st -> (0 < beatDuration s)%Q ->
  let el := Reference.elapsedMs (audioCtx s) st (totalPausedTime s) c hitTime in
  let dist (k : Z) := Qabs (el - inject_Z k * beatDuration s) in
  let r := evaluateTiming s c hitTime in
  (forall k, (Qabs (Timing.offset r) <= dist k)%Q)
  /\ (exists k, (Qabs (Timing.offset r) == dist k)%Q)
  /\ (Timing.accuracy r = perfect
      <-> exists k, (dist k <= perfectWindow s)%Q)
  /\ (Timing.accuracy r = good
      <-> (forall k, (perfectWindow s < dist k)%Q)
          /\ exists k, (dist k <= goodWindow s)%Q)
  /\ (Timing.accuracy r = off
      <-> (forall k, (perfectWindow s < dist k)%Q)
          /\ forall k, (goodWindow s < dist k)%Q).
Proof.
  intros R S Hb. cbv zeta.
  rewrite (evaluateTiming_running s c hitTime st R S). cbv zeta.
  cbn [Timing.accuracy Timing.offset]. unfold JS.le, JS.Math_abs.
  set (el := Reference.elapsedMs (audioCtx s) st (totalPausedTime s) c hitTime).
  set (bd := beatDuration s) in *.
  set (idx := JS.Math_round (el / bd)).
  set (a := Qabs ((el / bd - inject_Z idx) * bd)).
  assert (forall k, (a <= Qabs (el - inject_Z k * bd))%Q) as Near.
  { intros k. exact (offset_is_nearest el bd k Hb). }
  assert (a == Qabs (el - inject_Z idx * bd))%Q as Eidx.
  { unfold a. apply Qabs_wd. field. lra. }
  split; [exact Near |]. split; [now exists idx |].
  destruct (Qle_bool a (perfectWindow s)) eqn:P;
    [| destruct (Qle_bool a (goodWindow s)) eqn:G].
  - apply Qle_bool_iff in P.
    split; [| split].
    + split; [| reflexivity]. intros _. exists idx. now rewrite <- Eidx.
    + split; [discriminate |]. intros [H _]. specialize (H idx).
      rewrite <- Eidx in H. lra.
    + split; [discriminate |]. intros [H _]. specialize (H idx).
      rewrite <- Eidx in H. lra.
  - apply Qle_bool_iff in G.
    assert (perfectWindow s < a)%Q as P'.
    { apply Qnot_le_lt. intros H. apply Qle_bool_iff in H. congruence. }
    split; [| split].
    + split; [discriminate |]. intros [k H]. specialize (Near k). lra.
    + split; [| reflexivity]. intros _. split.
      * intros k. specialize (Near k). lra.
      * exists idx. now rewrite <- Eidx.
    + split; [discriminate |]. intros [_ H]. specialize (H idx).
      rewrite <- Eidx in H. lra.
  - assert (perfectWindow s < a)%Q as P'.
    { apply Qnot_le_lt. intros H. apply Qle_bool_iff in H. congruence. }
    assert (goodWindow s < a)%Q as G'.
    { apply Qnot_le_lt. intros H. apply Qle_bool_iff in H. congruence. }
    split; [| split].
    + split; [discriminate |]. intros [k H]. specialize (Near k). lra.
    + split; [discriminate |]. intros [_ [k H]]. specialize (Near k). lra.
    + split; [| reflexivity]. intros _.
      split; intros k; specialize (Near k); lra.
Qed.

(** At 100 BPM a hit at 700 ms is Good: a beat centre (600 ms) is within
    150 ms of it. *)
Lemma accuracy_by_distance_witness :
  Timing.accuracy
    (evaluateTiming (start (constructor 100) (mkClock 0 0)) (mkClock 0 700) 700)
  = good
  /\ exists k : Z,
       (Qabs (Reference.elapsedMs false 0 0 (mkClock 0 700) 700
              - inject_Z k * beatDuration (start (constructor 100) (mkClock 0 0)))
        <= 150)%Q.
Proof.
  destruct (accuracy_by_distance (start (constructor 100) (mkClock 0 0))
              (mkClock 0 700) 700 0 eq_refl eq_refl eq_refl)
    as (_ & _ & _ & G & _).
  cbv zeta in G. split; [reflexivity |].
  destruct G as [G _]. destruct (G eq_refl) as [_ [k H]]. exists k. exact H.
Defined.

(** A hit exactly [k] beat durations after the origin (pauses deducted)
    has offset 0 and is Perfect, and its rounded index is [k]. *)
Lemma on_beat_is_perfect (s : t) (c : Clock) (hitTime st : Q) (k : Z) :
  isRunning s = true -> startTime s = Some st ->
  (0 < beatDuration s)%Q -> (0 <= perfectWindow s)%Q ->
  (Reference.elapsedMs (audioCtx s) st (totalPausedTime s) c hitTime
   == inject_Z k * beatDuration s)%Q ->
  (Timing.offset (evaluateTiming s c hitTime) == 0)%Q
  /\ Timing.accuracy (evaluateTiming s c hitTime) = perfect
  /\ Timing.nearestBeat (evaluateTiming s c hitTime) = JS.rem k 4 + 1
  /\ Timing.barNumber (evaluateTiming s c hitTime) = k / 4.
Proof.
  intros R S Hb Hp He.
  rewrite (evaluateTiming_running s c hitTime st R S). cbv zeta.
  cbn [Timing.accuracy Timing.nearestBeat Timing.offset Timing.barNumber].
  set (el := Reference.elapsedMs (audioCtx s) st (totalPausedTime s) c hitTime) in *.
  assert (el / beatDuration s == inject_Z k)%Q as Epos.
  { rewrite He. field. lra. }
  assert (JS.Math_round (el / beatDuration s) = k) as Eidx.
  { apply JSFacts.Math_round_unique; rewrite Epos; lra. }
  rewrite Eidx.
  assert ((el / beatDuration s - inject_Z k) * beatDuration s == 0)%Q as Eoff.
  { rewrite Epos. ring. }
  split; [exact Eoff |]. split; [| split; [reflexivity | apply JSFacts.Math_floor_quarter]].
  unfold JS.le, JS.Math_abs.
  rewrite (JSFacts.Qle_bool_comp _ (perfectWindow s) 0 (perfectWindow s)
             (Qabs_wd _ _ Eoff) (Qeq_refl _)).
  assert (Qle_bool 0 (perfectWindow s) = true) as -> by now apply Qle_bool_iff.
  reflexivity.
Qed.

(** The third beat of the second bar, at 100 BPM: 4200 ms after the
    origin. *)
Lemma on_beat_is_perfect_witness :
  Timing.accuracy
    (evaluateTiming (start (constructor 100) (mkClock 0 0)) (mkClock 0 4200) 4200)
  = perfect.
Proof.
  destruct (on_beat_is_perfect (start (constructor 100) (mkClock 0 0))
              (mkClock 0 4200) 4200 0 7 eq_refl eq_refl eq_refl
              ltac:(vm_compute; discriminate) eq_refl) as (_ & H & _).
  exact H.
Defined.

(** A hit stamped [x] ms on a 100 BPM transport started at 0 ms on the
    input clock. *)
Definition hit (x : Q) : Timing.t :=
  evaluateTiming (start (constructor 100) (mkClock 0 0)) (mkClock 0 x) x.

(** The classification at the edges of the windows: exactly on a beat
    the offset is 0 and the hit Perfect; 50 ms late is Perfect and
    50.0001 ms late is Good; 150 ms late is Good and 150.0001 ms late is
    Off; half a beat late goes to the later beat; and 780 ms is 180 ms
    after beat 2: Off. *)
Lemma evaluateTiming_edges :
  (Timing.offset (hit 600) == 0)%Q /\ Timing.accuracy (hit 600) = perfect
  /\ Timing.accuracy (hit 650) = perfect
  /\ Timing.accuracy (hit (6500001 # 10000)) = good
  /\ Timing.accuracy (hit 750) = good
  /\ Timing.accuracy (hit (7500001 # 10000)) = off
  /\ Timing.nearestBeat (hit 900) = 3
  /\ (Timing.offset (hit 900) == -300)%Q
  /\ Timing.nearestBeat (hit 780) = 2 /\ (Timing.offset (hit 780) == 180)%Q
  /\ Timing.accuracy (hit 780) = off.
Proof. repeat split. Qed.

(** The transport of the failing input: [TransportClock.resumed_transport]
    (3000 ms of accumulated pause) started again at 5000 ms without a
    [stop()] in between. *)
Definition restarted_transport : t :=
  start TransportClock.resumed_transport (mkClock 0 5000).

(** C1 at the failing input.  A hit at 5100 ms on [restarted_transport]
    has elapsed time 5100 - 5000 - 3000 = -2900 ms, beat position -29/6
    and rounded index -5.  [evaluateTiming] answers nearest beat
    [-5 % 4 + 1 = 0], outside 1..4, where the reference algorithm answers
    [(-5 mod 4) + 1 = 4]; offset, accuracy and bar number agree.  The same
    happens for a hit stamped before the origin. *)
Theorem evaluateTiming_negative_index :
  isRunning restarted_transport = true
  /\ bpm restarted_transport = 100%Q
  /\ Reference.elapsedMs (audioCtx restarted_transport) 5000
       (totalPausedTime restarted_transport) (mkClock 0 5100) 5100 = (-2900)%Q
  /\ Timing.nearestBeat (evaluateTiming restarted_transport (mkClock 0 5100) 5100) = 0
  /\ Timing.nearestBeat (Reference.evaluate (-2900) 600) = 4
  /\ Timing.accuracy (evaluateTiming restarted_transport (mkClock 0 5100) 5100) = good
  /\ (Timing.offset (evaluateTiming restarted_transport (mkClock 0 5100) 5100) == 100)%Q
  /\ Timing.barNumber (evaluateTiming restarted_transport (mkClock 0 5100) 5100) = -2
  /\ Timing.nearestBeat
       (evaluateTiming (start (constructor 100) (mkClock 0 1000)) (mkClock 0 1000) 100)
     = 0.
Proof. repeat split. Qed.

End TimingEvaluator.

(** ** Input debouncing *)
Module Debounce.
Import InputHandler.

(** An input is suppressed when a note is already held, or when it comes
    less than [debounceMs] after the last accepted trigger. *)
Definition suppressed (s : t) (c : Clock) : Prop :=
  isHolding s = true
  \/ (performance_now c - lastTriggerTime s < debounceMs s)%Q.

(** Each timestamp is at least [d] after the one before it, the first one
    at least [d] after [last]. *)
Fixpoint spaced (d last : Q) (ts : list Q) : Prop :=
  match ts with
  | [] => True
  | x :: rest => (last + d <= x)%Q /\ spaced d x rest
  end.

Lemma triggerNoteStart_suppressed (s : t) (c : Clock) :
  suppressed s c -> triggerNoteStart s c = (s, []).
Proof.
  unfold triggerNoteStart. intros [H | H].
  - rewrite H. destruct (JS.lt _ _); reflexivity.
  - apply JSFacts.lt_true in H. rewrite H. reflexivity.
Qed.

Lemma triggerNoteStart_accepted (s : t) (c : Clock) :
  ~ suppressed s c ->
  triggerNoteStart s c
  = (mk (onNoteStart s) (onNoteEnd s) true (Some (performance_now c))
       (performance_now c) (debounceMs s) (listening s),
     if onNoteStart s then [NoteStart (performance_now c)] else [])
  /\ (lastTriggerTime s + debounceMs s <= performance_now c)%Q.
Proof.
  unfold suppressed, triggerNoteStart. intros N.
  destruct (JS.lt _ _) eqn:L.
  { exfalso. apply N. right. now apply JSFacts.lt_true. }
  destruct (isHolding s) eqn:Hd.
  { exfalso. apply N. now left. }
  apply JSFacts.lt_false in L. split; [reflexivity | lra].
Qed.

Lemma suppressed_dec (s : t) (c : Clock) : suppressed s c \/ ~ suppressed s c.
Proof.
  unfold suppressed. destruct (isHolding s); [left; now left |].
  destruct (JS.lt (performance_now c - lastTriggerTime s) (debounceMs s)) eqn:L.
  - left. right. now apply JSFacts.lt_true.
  - right. intros [H | H]; [discriminate |].
    apply JSFacts.lt_true in H. congruence.
Qed.

(** What one step can do to the bookkeeping of the debounce: nothing, with
    no [onNoteStart] call; or one accepted trigger, stamped at least
    [debounceMs] after the last one, with one call when a callback is
    registered. *)
Lemma step_debounce (st : Step) (s : t) :
  onNoteStart (fst (step st s)) = onNoteStart s
  /\ debounceMs (fst (step st s)) = debounceMs s
  /\ ((noteStarts (snd (step st s)) = []
       /\ lastTriggerTime (fst (step st s)) = lastTriggerTime s)
      \/ exists now : Q,
           noteStarts (snd (step st s))
           = (if onNoteStart s then [now] else [])
           /\ lastTriggerTime (fst (step st s)) = now
           /\ (lastTriggerTime s + debounceMs s <= now)%Q).
Proof.
  assert (forall c,
             onNoteStart (fst (triggerNoteStart s c)) = onNoteStart s
             /\ debounceMs (fst (triggerNoteStart s c)) = debounceMs s
             /\ ((noteStarts (snd (triggerNoteStart s c)) = []
                  /\ lastTriggerTime (fst (triggerNoteStart s c)) = lastTriggerTime s)
                 \/ exists now : Q,
                      noteStarts (snd (triggerNoteStart s c))
                      = (if onNoteStart s then [now] else [])
                      /\ lastTriggerTime (fst (triggerNoteStart s c)) = now
                      /\ (lastTriggerTime s + debounceMs s <= now)%Q)) as Hstart.
  { intros c. destruct (suppressed_dec s c) as [Hs | Hs].
    - rewrite (triggerNoteStart_suppressed s c Hs). simpl. auto.
    - destruct (triggerNoteStart_accepted s c Hs) as [E L]. rewrite E. simpl.
      split; [reflexivity |]. split; [reflexivity |]. right.
      exists (performance_now c). destruct (onNoteStart s); auto. }
  assert (forall c,
             onNoteStart (fst (triggerNoteEnd s c)) = onNoteStart s
             /\ debounceMs (fst (triggerNoteEnd s c)) = debounceMs s
             /\ noteStarts (snd (triggerNoteEnd s c)) = []
             /\ lastTriggerTime (fst (triggerNoteEnd s c)) = lastTriggerTime s)
    as Hend.
  { intros c. unfold triggerNoteEnd.
    destruct (isHolding s); simpl; [| auto].
    destruct (onNoteEnd s); simpl; auto. }
  destruct st as [ev c | |]; simpl; [| auto | auto].
  unfold dispatch. destruct (listening s); simpl; [| auto].
  destruct ev as [sp rp | sp | |].
  - destruct sp; simpl; [| auto]. destruct rp; simpl; [auto | apply Hstart].
  - destruct sp; simpl; [| auto].
    destruct (Hend c) as (A & B & C & D). auto.
  - apply Hstart.
  - destruct (Hend c) as (A & B & C & D). auto.
Qed.

Lemma run_cons (st : Step) (rest : list Step) (s : t) :
  run (st :: rest) s
  = (fst (run rest (fst (step st s))),
     snd (step st s) ++ snd (run rest (fst (step st s)))).
Proof.
  simpl. destruct (step st s) as [s1 out1]. simpl.
  destruct (run rest s1) as [s2 out2]. reflexivity.
Qed.

Lemma noteStarts_app (a b : list Callback) :
  noteStarts (a ++ b) = noteStarts a ++ noteStarts b.
Proof.
  induction a as [| [ts | st en] a IH]; simpl; [reflexivity | | exact IH].
  now rewrite IH.
Qed.

Lemma run_unregistered (steps : list Step) (s : t) :
  onNoteStart s = false -> noteStarts (snd (run steps s)) = [].
Proof.
  revert s. induction steps as [| st rest IH]; intros s H; [reflexivity |].
  rewrite run_cons. simpl. rewrite noteStarts_app.
  destruct (step_debounce st s) as (Ho & _ & [[E _] | (now & E & _)]).
  - rewrite E. simpl. apply IH. congruence.
  - rewrite E, H. simpl. apply IH. congruence.
Qed.

Lemma run_spaced (steps : list Step) (s : t) :
  spaced (debounceMs s) (lastTriggerTime s) (noteStarts (snd (run steps s))).
Proof.
  destruct (onNoteStart s) eqn:Reg;
    [| now rewrite (run_unregistered steps s Reg)].
  revert s Reg. induction steps as [| st rest IH]; intros s Reg; [exact I |].
  rewrite run_cons. simpl. rewrite noteStarts_app.
  destruct (step_debounce st s) as (Ho & Hd & [[E L] | (now & E & L & Hle)]).
  - rewrite E. simpl. rewrite <- Hd, <- L. apply IH. congruence.
  - rewrite E, Reg. simpl. split; [exact Hle |].
    rewrite <- Hd, <- L. apply IH. congruence.
Qed.

(** With a non-negative interval, any two calls are that far apart. *)
Lemma spaced_pairwise (d last : Q) (ts : list Q) :
  (0 <= d)%Q -> spaced d last ts ->
  Forall (fun x => (last + d <= x)%Q) ts
  /\ ForallOrdPairs (fun a b => (a + d <= b)%Q) ts.
Proof.
  intros Hd. revert last. induction ts as [| x rest IH]; intros last H.
  - split; constructor.
  - destruct H as [H1 H2]. destruct (IH x H2) as [F P]. split.
    + constructor; [exact H1 |].
      eapply Forall_impl; [exact F |]. intros y Hy. simpl in Hy. lra.
    + constructor; assumption.
Qed.

(** C9.  An input that arrives while a note is held, or less than
    [debounceMs] (100 ms in a handler as constructed) after the last
    accepted trigger, is suppressed: no callback is invoked and the whole
    state, [isHolding], [holdStartTime] and [lastTriggerTime] included,
    is unchanged.  An input that is not suppressed invokes [onNoteStart]
    exactly once (when a callback is registered), with the current
    reading, and records it as [lastTriggerTime].  Hence along any
    sequence of DOM events and [start()]/[stop()] calls, every
    [onNoteStart] call is stamped at least [debounceMs] after the one
    before it, and no step changes [debounceMs]. *)
Theorem debounce_suppresses (s : t) (c : Clock) :
  (suppressed s c -> triggerNoteStart s c = (s, []))
  /\ (~ suppressed s c ->
      snd (triggerNoteStart s c)
      = (if onNoteStart s then [NoteStart (performance_now c)] else [])
      /\ isHolding (fst (triggerNoteStart s c)) = true
      /\ holdStartTime (fst (triggerNoteStart s c)) = Some (performance_now c)
      /\ lastTriggerTime (fst (triggerNoteStart s c)) = performance_now c)
  /\ (forall steps : list Step,
       spaced (debounceMs s) (lastTriggerTime s) (noteStarts (snd (run steps s)))
       /\ debounceMs (fst (run steps s)) = debounceMs s
       /\ ((0 <= debounceMs s)%Q ->
           ForallOrdPairs (fun a b => (a + debounceMs s <= b)%Q)
             (noteStarts (snd (run steps s)))))
  /\ debounceMs constructor = 100%Q.
Proof.
  split; [apply triggerNoteStart_suppressed |].
  split.
  { intros N. destruct (triggerNoteStart_accepted s c N) as [E _].
    rewrite E. simpl. auto. }
  split; [| reflexivity].
  intros steps. split; [apply run_spaced |]. split.
  - revert s. induction steps as [| st rest IH]; intros s; [reflexivity |].
    rewrite run_cons. simpl. rewrite IH.
    now destruct (step_debounce st s) as (_ & Hd & _).
  - intros Hd.
    now destruct (spaced_pairwise _ _ _ Hd (run_spaced steps s)).
Qed.

(** A handler with its callback registered and its listeners attached. *)
Definition listening_handler : t :=
  mk true true false None 0%Q 100%Q true.

(** Key down at 500 ms is accepted; key down at 550 ms, while the key is
    held, and, after key up at 560 ms, a touch at 580 ms (80 ms after the
    accepted trigger) are suppressed; a touch at 600 ms is accepted. *)
Lemma debounce_suppresses_witness :
  noteStarts
    (snd (run [Dom (keydown true false) (mkClock 0 500);
               Dom (keydown true false) (mkClock 0 550);
               Dom (keyup true) (mkClock 0 560);
               Dom touchstart (mkClock 0 580);
               Dom touchstart (mkClock 0 600)] listening_handler))
  = [500%Q; 600%Q]
  /\ triggerNoteStart
       (fst (triggerNoteStart listening_handler (mkClock 0 500))) (mkClock 0 550)
     = (fst (triggerNoteStart listening_handler (mkClock 0 500)), []).
Proof.
  split; [reflexivity |].
  apply (debounce_suppresses
           (fst (triggerNoteStart listening_handler (mkClock 0 500)))
           (mkClock 0 550)).
  left. reflexivity.
Defined.

End Debounce.

(** ** Instrument lookup *)
Module InstrumentLookup.
Import Instruments.

Lemma find_by_beat_sound (v : Value) (i : Instrument) :
  find_by_beat v = Some i -> In i INSTRUMENTS /\ strict_eq (beat i) v = true.
Proof. unfold find_by_beat. apply List.find_some. Qed.

Lemma find_by_beat_none (v : Value) :
  find_by_beat v = None ->
  forall i, In i INSTRUMENTS -> strict_eq (beat i) v = false.
Proof. unfold find_by_beat. apply List.find_none. Qed.

(** Every bar number that is not negative has a chord in every genre. *)
Lemma chord_at_defined (g : AudioEngine.GenreId) (barNumber : Z) :
  0 <= barNumber ->
  is_Some (AudioEngine.chord_at g
             (JS.rem barNumber (Z.of_nat (length (AudioEngine.genre_chords g))))).
Proof.
  intros H. assert (length (AudioEngine.genre_chords g) = 8%nat) as ->
    by (destruct g; reflexivity).
  unfold AudioEngine.chord_at, JS.rem. change (Z.of_nat 8) with 8.
  pose proof (Z.rem_bound_pos barNumber 8 H ltac:(lia)) as B.
  destruct (Z.ltb_spec (Z.rem barNumber 8) 0) as [L | L]; [lia |].
  apply lookup_lt_is_Some.
  assert (length (AudioEngine.genre_chords g) = 8%nat) as ->
    by (destruct g; reflexivity).
  lia.
Qed.

(** C10.  [getInstrumentByBeat] returns an instrument for every argument:
    the first instrument of the table whose beat number is strictly equal
    to the argument, and the bass when there is none, which is the case
    for every number other than 1, 2, 3 and 4 and for every value that is
    not a number.  In [playNote] the instrument is therefore always
    defined: whether [playNote] throws does not depend on the beat (it
    throws exactly when the engine is initialized and the bar number has
    no chord), and it does not throw for any beat when the bar number is
    not negative. *)
Theorem getInstrumentByBeat_total (v : Value) :
  ((exists i, In i INSTRUMENTS /\ strict_eq (beat i) v = true
              /\ getInstrumentByBeat v = i)
   \/ ((forall i, In i INSTRUMENTS -> strict_eq (beat i) v = false)
       /\ getInstrumentByBeat v = bass))
  /\ (forall q : Q,
        v = Num q -> ~ (q == 1)%Q -> ~ (q == 2)%Q -> ~ (q == 3)%Q ->
        ~ (q == 4)%Q -> getInstrumentByBeat v = bass)
  /\ (v = NotANumber -> getInstrumentByBeat v = bass)
  /\ (forall (render : AudioEngine.Channel -> nat -> nat) (beat barNumber : Z)
        (accuracy : BeatTracker.Accuracy) (e : AudioEngine.t) (c : Clock),
        (AudioEngine.playNote render beat barNumber accuracy e c = None
         <-> AudioEngine.isInitialized e = true
             /\ AudioEngine.chord_at (AudioEngine.genre e)
                  (JS.rem barNumber
                     (Z.of_nat (length (AudioEngine.genre_chords (AudioEngine.genre e)))))
                = None)
        /\ (0 <= barNumber ->
            AudioEngine.playNote render beat barNumber accuracy e c <> None)).
Proof.
  split; [| split; [| split]].
  - unfold getInstrumentByBeat. destruct (find_by_beat v) as [i |] eqn:F.
    + left. exists i. destruct (find_by_beat_sound v i F). auto.
    + right. split; [now apply find_by_beat_none | reflexivity].
  - intros q -> N1 N2 N3 N4.
    unfold getInstrumentByBeat, find_by_beat, INSTRUMENTS. simpl.
    assert (forall z : Z, ~ (q == inject_Z z)%Q -> Qeq_bool (inject_Z z) q = false)
      as ne.
    { intros z N. destruct (Qeq_bool (inject_Z z) q) eqn:E; [| reflexivity].
      apply Qeq_bool_iff in E. exfalso. apply N. now symmetry. }
    rewrite (ne 1 N1), (ne 2 N2), (ne 3 N3), (ne 4 N4). reflexivity.
  - intros ->. reflexivity.
  - intros render b barNumber accuracy e c. unfold AudioEngine.playNote.
    split.
    + destruct (AudioEngine.isInitialized e); simpl.
      * destruct (AudioEngine.chord_at _ _); split; try discriminate; auto.
        intros [_ E]. discriminate E.
      * split; [discriminate | intros [E _]; discriminate E].
    + intros H.
      destruct (negb (AudioEngine.isInitialized e)); [discriminate |].
      destruct (chord_at_defined (AudioEngine.genre e) barNumber H) as [r ->].
      discriminate.
Qed.

(** Beats 0, 5 and 2.5 and a value that is not a number give the bass;
    beats 1 to 4 give melody, pad, bass and percussion. *)
Lemma getInstrumentByBeat_examples :
  getInstrumentByBeat (Num 0) = bass /\ getInstrumentByBeat (Num 5) = bass
  /\ getInstrumentByBeat (Num (5 # 2)) = bass
  /\ getInstrumentByBeat NotANumber = bass
  /\ getInstrumentByBeat (Num 1) = melody /\ getInstrumentByBeat (Num 2) = pad
  /\ getInstrumentByBeat (Num 3) = bass
  /\ getInstrumentByBeat (Num 4) = percussion.
Proof. repeat split. Qed.

(** The fallback at beat 5, through the theorem. *)
Lemma getInstrumentByBeat_total_witness : getInstrumentByBeat (Num 5) = bass.
Proof.
  destruct (getInstrumentByBeat_total (Num 5)) as (_ & H & _).
  apply (H 5%Q eq_refl); intros E; vm_compute in E; discriminate E.
Defined.

End InstrumentLookup.

(** ** The lookahead scheduler *)
Module Scheduler.
Import AudioEngine.

Section Pass.

Variable render : Channel -> nat -> nat.

(** The clock reading of the pass.  It is read once: the reading does not
    change while the pass runs. *)
Variable c : Clock.

(** One iteration of the [while] loop. *)
Definition body (e : t) : t :=
  let e1 := scheduleLoop render (nextLoopTime e) e c in
  set_nextLoopTime (nextLoopTime e1 + beatDuration e1 * 4)%Q e1.

Fixpoint iterate (k : nat) (e : t) : t :=
  match k with
  | O => e
  | S k' => iterate k' (body e)
  end.

(** One measure: four beats at the current tempo. *)
Definition measure (e : t) : Q := (beatDuration e * 4)%Q.

(** The end of the lookahead window. *)
Definition horizon (e : t) : Q := (currentTime c + scheduleAheadTime e)%Q.

(** The start of the [i]-th measure counted from [nextLoopTime]. *)
Definition due_time (e : t) (i : nat) : Q :=
  (nextLoopTime e + inject_Z (Z.of_nat i) * measure e)%Q.

(** That measure is due: it starts inside the window. *)
Definition due (e : t) (i : nat) : Prop := (due_time e i < horizon e)%Q.

(** The group a pass schedules for the measure starting at [time]. *)
Definition drum_group (e : t) : Group :=
  mkGroup Drums (nextLoopTime e) (seq (created e) (render Drums (created e)))
    None false.

Lemma body_playing (e : t) :
  isDrumsPlaying e = true ->
  body e
  = mk (isInitialized e)
      (<[Drums := seq (created e) (render Drums (created e))]> (activeLoops e))
      (bpm e) (beatDuration e) (schedulerTimerId e)
      (nextLoopTime e + beatDuration e * 4)%Q (scheduleAheadTime e)
      (lookahead e) true (genre e)
      (created e + length (seq (created e) (render Drums (created e))))%nat
      (rendered e ++ [drum_group e]) (stopped e) (timers e).
Proof.
  intros P. unfold body, scheduleLoop. rewrite P.
  unfold playDrumLoop, install, set_nextLoopTime. simpl. rewrite P.
  reflexivity.
Qed.

Lemma body_frame (e : t) :
  isDrumsPlaying e = true ->
  rendered (body e) = rendered e ++ [drum_group e]
  /\ beatDuration (body e) = beatDuration e
  /\ scheduleAheadTime (body e) = scheduleAheadTime e
  /\ stopped (body e) = stopped e.
Proof. intros P. rewrite (body_playing e P). repeat split. Qed.

Lemma inject_succ (i : nat) :
  (inject_Z (Z.of_nat (S i)) == inject_Z (Z.of_nat i) + 1)%Q.
Proof.
  rewrite Nat2Z.inj_succ. unfold Z.succ. rewrite inject_Z_plus. reflexivity.
Qed.

Lemma due_time_body (e : t) (i : nat) :
  isDrumsPlaying e = true -> (due_time (body e) i == due_time e (S i))%Q.
Proof.
  intros P. rewrite (body_playing e P). unfold due_time, measure. simpl.
  rewrite inject_succ. ring.
Qed.

Lemma due_body (e : t) (i : nat) :
  isDrumsPlaying e = true -> due (body e) i <-> due e (S i).
Proof.
  intros P. unfold due. rewrite (due_time_body e i P).
  rewrite (body_playing e P). unfold horizon. simpl. reflexivity.
Qed.

Lemma due_first (e : t) :
  due e 0 <-> (nextLoopTime e < currentTime c + scheduleAheadTime e)%Q.
Proof.
  unfold due, due_time, horizon. simpl.
  assert (nextLoopTime e + inject_Z 0 * measure e == nextLoopTime e)%Q as ->
    by (change (inject_Z 0) with 0%Q; ring).
  reflexivity.
Qed.

(** The loop runs exactly as many iterations as there are due measures,
    whenever the fuel allows that many. *)
Lemma loop_runs (k : nat) :
  forall (e : t) (fuel : nat),
    isDrumsPlaying e = true ->
    (forall i, (i < k)%nat -> due e i) -> ~ due e k -> (k <= fuel)%nat ->
    scheduler_loop render fuel e c = Some (iterate k e).
Proof.
  induction k as [| k IH]; intros e fuel P Hdue Hstop Hfuel.
  - rewrite due_first in Hstop.
    assert (JS.lt (nextLoopTime e) (currentTime c + scheduleAheadTime e) = false)
      as L.
    { apply JSFacts.lt_false. lra. }
    destruct fuel; simpl; rewrite L; reflexivity.
  - assert (JS.lt (nextLoopTime e) (currentTime c + scheduleAheadTime e) = true)
      as L.
    { apply JSFacts.lt_true. apply due_first. apply Hdue. lia. }
    destruct fuel as [| fuel]; [lia |].
    simpl. rewrite L. fold (body e). apply IH.
    + rewrite (body_playing e P). reflexivity.
    + intros i Hi. apply (due_body e i P). apply Hdue. lia.
    + intros H. apply Hstop. now apply (due_body e k P).
    + lia.
Qed.

(** What [k] iterations leave behind. *)
Lemma iterate_effect (k : nat) :
  forall e : t,
    isDrumsPlaying e = true ->
    exists new : list Group,
      rendered (iterate k e) = rendered e ++ new
      /\ length new = k
      /\ Forall (fun g => channel g = Drums) new
      /\ (forall i g, new !! i = Some g -> (startAt g == due_time e i)%Q)
      /\ (nextLoopTime (iterate k e) == due_time e k)%Q
      /\ beatDuration (iterate k e) = beatDuration e
      /\ scheduleAheadTime (iterate k e) = scheduleAheadTime e
      /\ isDrumsPlaying (iterate k e) = true
      /\ stopped (iterate k e) = stopped e.
Proof.
  induction k as [| k IH]; intros e P.
  - exists []. simpl. rewrite app_nil_r.
    repeat split; auto.
    + intros i g H. discriminate H.
    + unfold due_time. change (inject_Z (Z.of_nat 0)) with 0%Q. ring.
  - assert (isDrumsPlaying (body e) = true) as P'
      by (rewrite (body_playing e P); reflexivity).
    destruct (IH (body e) P') as (new & Hr & Hl & Hc & Ht & Hn & Hb & Hs & Hp & Hst).
    destruct (body_frame e P) as (Br & Bb & Bs & Bst).
    exists (drum_group e :: new).
    change (iterate (S k) e) with (iterate k (body e)).
    rewrite Hr, Hb, Hs, Hp, Hst, Br, Bb, Bs, Bst, <- app_assoc. simpl.
    repeat split; auto.
    + intros [| i] g H; simpl in H.
      * injection H as <-. simpl. unfold due_time.
        change (inject_Z (Z.of_nat 0)) with 0%Q. ring.
      * rewrite (Ht i g H). apply (due_time_body e i P).
    + rewrite Hn. apply (due_time_body e k P).
Qed.



(** A pass while the drums are not playing does nothing. *)
Lemma scheduler_idle (e : t) (fuel : nat) :
  isDrumsPlaying e = false -> scheduler render fuel e c = Some e.
Proof. intros P. unfold scheduler. now rewrite P. Qed.

(** With a beat duration that is not positive the loop never leaves a
    window it has entered: no amount of fuel is enough. *)
Lemma scheduler_never_returns (fuel : nat) :
  forall e : t,
    isDrumsPlaying e = true -> (beatDuration e <= 0)%Q -> due e 0 ->
    scheduler render fuel e c = None.
Proof.
  assert (forall f e, isDrumsPlaying e = true -> (beatDuration e <= 0)%Q ->
                      due e 0 -> scheduler_loop render f e c = None) as Hloop.
  { induction f as [| f IH]; intros e P Hb Hd;
      pose proof (proj1 (due_first e) Hd) as Hlt;
      apply JSFacts.lt_true in Hlt; simpl; rewrite Hlt; [reflexivity |].
    fold (body e). destruct (body_frame e P) as (_ & Bb & Bs & _).
    apply IH.
    - rewrite (body_playing e P). reflexivity.
    - now rewrite Bb.
    - apply due_first. rewrite Bs. rewrite (body_playing e P). simpl.
      apply due_first in Hd. lra. }
  intros e P Hb Hd. unfold scheduler. rewrite P. simpl.
  now rewrite (Hloop fuel e P Hb Hd).
Qed.

End Pass.

(** An engine whose drums play at 100 BPM, next measure due at 0 s. *)
Definition playing_engine : t :=
  set_nextLoopTime 0 (set_isDrumsPlaying true (initialize constructor)).

(** A pass that comes 5 s late (more than two measures of 2.4 s) schedules
    the measures at 0 s, 2.4 s and 4.8 s, and leaves 7.2 s as the next. *)
Lemma late_pass_example :
  exists e',
    scheduler (fun _ _ => 1%nat) 3 playing_engine (mkClock 5 0) = Some e'
    /\ map (fun g => Qred (startAt g)) (rendered e') = [0; 12 # 5; 24 # 5]%Q
    /\ Qred (nextLoopTime e') = (36 # 5)%Q.
Proof. eexists. split; [reflexivity |]. split; reflexivity. Qed.

(** [setBPM(-100)] makes the beat duration -0.6 s: a pass at 0 s finds
    the measure at 0 s due and does not return with 50 iterations. *)
Lemma scheduler_never_returns_witness :
  scheduler (fun _ _ => 1%nat) 50
    (set_nextLoopTime 0 (set_isDrumsPlaying true (setBPM (-100) (initialize constructor))))
    (mkClock 0 0)
  = None.
Proof.
  apply (scheduler_never_returns (fun _ _ => 1%nat) (mkClock 0 0) 50
           (set_nextLoopTime 0
              (set_isDrumsPlaying true (setBPM (-100) (initialize constructor))))).
  - reflexivity.
  - vm_compute. discriminate.
  - vm_compute. reflexivity.
Defined.


End Scheduler.

(** ** The loop lifecycle: one live group per beat channel *)
Module LoopLifecycle.
Import AudioEngine.

(** A group is live while one of its sources has not been stopped. *)
Definition live (e : t) (g : Group) : Prop :=
  exists id, id ∈ members g /\ id ∉ stopped e.

(** A loop is cancelled once every one of its sources has been stopped. *)
Definition cancelled (e : t) (loop : list nat) : Prop :=
  forall id, id ∈ loop -> id ∈ stopped e.

(** What holds of the engine between two calls: sources are numbered in
    the order of creation, and a live group of a beat channel is the one
    the map holds for that channel. *)
Record Inv (e : t) : Prop := mkInv {
  inv_fresh :
    forall g id, g ∈ rendered e -> id ∈ members g -> (id < created e)%nat;
  inv_order :
    forall i j gi gj a b,
      (i < j)%nat -> rendered e !! i = Some gi -> rendered e !! j = Some gj ->
      a ∈ members gi -> b ∈ members gj -> (a < b)%nat;
  inv_live :
    forall g b,
      g ∈ rendered e -> channel g = Beat b -> live e g ->
      activeLoops e !! Beat b = Some (members g)
}.

Lemma Inv_constructor : Inv constructor.
Proof.
  split; simpl.
  - intros g id H. inversion H.
  - intros i j gi gj a b _ H. rewrite lookup_nil in H. discriminate H.
  - intros g b H. inversion H.
Qed.

(** The invariant reads four fields only. *)
Lemma Inv_frame (e e' : t) :
  activeLoops e' = activeLoops e -> rendered e' = rendered e ->
  stopped e' = stopped e -> created e' = created e -> Inv e -> Inv e'.
Proof.
  intros Ha Hr Hs Hc [F O L]. split.
  - rewrite Hr, Hc. exact F.
  - rewrite Hr. exact O.
  - intros g b. unfold live. rewrite Hr, Hs, Ha. apply L.
Qed.

(** Stopping more sources and dropping map entries whose sources are all
    stopped keeps the invariant. *)
Lemma Inv_shrink (e e' : t) :
  rendered e' = rendered e -> created e' = created e ->
  stopped e ⊆ stopped e' ->
  (forall ch loop,
      activeLoops e !! ch = Some loop ->
      activeLoops e' !! ch = Some loop \/ cancelled e' loop) ->
  Inv e -> Inv e'.
Proof.
  intros Hr Hc Hs Hm [F O L]. split.
  - rewrite Hr, Hc. exact F.
  - rewrite Hr. exact O.
  - intros g b Hg Hch [id [Hin Hlive]]. rewrite Hr in Hg.
    assert (live e g) as Hl by (exists id; split; [exact Hin | set_solver]).
    destruct (Hm _ _ (L g b Hg Hch Hl)) as [H | H]; [exact H |].
    exfalso. apply Hlive. apply H. exact Hin.
Qed.

Lemma Inv_stopLoop (ch : Channel) (e : t) : Inv e -> Inv (stopLoop ch e).
Proof.
  intros I. unfold stopLoop. destruct (activeLoops e !! ch) as [loop |] eqn:E;
    [| exact I].
  apply (Inv_shrink e); simpl;
    [reflexivity | reflexivity | set_solver | | exact I].
  intros ch' loop' H. destruct (decide (ch = ch')) as [<- | N].
  - right. intros id Hid. simpl. rewrite E in H. injection H as <-.
    apply elem_of_union_r. now apply elem_of_list_to_set.
  - left. now rewrite lookup_delete_ne.
Qed.

Lemma stopLoop_cancels (ch : Channel) (e : t) (prior : list nat) :
  activeLoops e !! ch = Some prior ->
  cancelled (stopLoop ch e) prior /\ activeLoops (stopLoop ch e) !! ch = None.
Proof.
  intros E. unfold stopLoop. rewrite E. simpl. split.
  - intros id Hid. simpl. apply elem_of_union_r. now apply elem_of_list_to_set.
  - apply lookup_delete_eq.
Qed.

Lemma stopLoop_map (ch : Channel) (e : t) :
  activeLoops (stopLoop ch e) = delete ch (activeLoops e)
  /\ stopped e ⊆ stopped (stopLoop ch e)
  /\ created (stopLoop ch e) = created e
  /\ rendered (stopLoop ch e) = rendered e.
Proof.
  unfold stopLoop. destruct (activeLoops e !! ch) as [loop |] eqn:E; simpl.
  - repeat split; set_solver.
  - repeat split; [| set_solver]. symmetry. now apply delete_id.
Qed.

Lemma all_sources_spec (m : gmap Channel (list nat)) (id : nat) :
  id ∈ all_sources m <-> exists ch loop, m !! ch = Some loop /\ id ∈ loop.
Proof.
  unfold all_sources. rewrite list_elem_of_In, in_concat. split.
  - intros (loop & Hl & Hid). apply in_map_iff in Hl.
    destruct Hl as ([ch loop'] & <- & Hkv). exists ch, loop'. split.
    + apply elem_of_map_to_list. now apply list_elem_of_In.
    + now apply list_elem_of_In.
  - intros (ch & loop & Hm & Hid). exists loop. split.
    + apply in_map_iff. exists (ch, loop). split; [reflexivity |].
      apply list_elem_of_In. now apply elem_of_map_to_list.
    + now apply list_elem_of_In.
Qed.

Section Reach.

Variable render : Channel -> nat -> nat.

Lemma Inv_install (key : Channel) (time : Q) (p : option (Q * Z))
    (d : bool) (e : t) :
  key = Drums \/ activeLoops e !! key = None ->
  Inv e -> Inv (install render key time p d e).
Proof.
  intros Hkey [F O L]. unfold install. split; simpl.
  - intros g id Hg Hid. rewrite length_seq.
    apply elem_of_app in Hg. destruct Hg as [Hg | Hg].
    + pose proof (F g id Hg Hid). lia.
    + apply list_elem_of_singleton in Hg. subst g. simpl in Hid.
      apply elem_of_seq in Hid. lia.
  - intros i j gi gj a b Hij Hi Hj Ha Hb.
    assert (i < length (rendered e))%nat as Li.
    { apply lookup_lt_Some in Hj. rewrite length_app in Hj. simpl in Hj. lia. }
    rewrite lookup_app_l in Hi by exact Li.
    destruct (decide (j < length (rendered e))%nat) as [Lj | Lj].
    + rewrite lookup_app_l in Hj by exact Lj. exact (O i j gi gj a b Hij Hi Hj Ha Hb).
    + rewrite lookup_app_r in Hj by lia.
      destruct (j - length (rendered e))%nat; simpl in Hj; [| discriminate Hj].
      injection Hj as <-. simpl in Hb. apply elem_of_seq in Hb.
      assert (a < created e)%nat; [| lia].
      apply (F gi a); [| exact Ha]. apply list_elem_of_lookup. eauto.
  - intros g b Hg Hch [id [Hid Hlive]].
    apply elem_of_app in Hg. destruct Hg as [Hg | Hg].
    + assert (activeLoops e !! Beat b = Some (members g)) as Hm.
      { apply L; [exact Hg | exact Hch |]. exists id. auto. }
      destruct (decide (key = Beat b)) as [-> | N].
      * destruct Hkey as [Hk | Hk]; [discriminate Hk | congruence].
      * now rewrite lookup_insert_ne.
    + apply list_elem_of_singleton in Hg. subst g. simpl in *. subst key.
      apply lookup_insert_eq.
Qed.

Lemma Inv_scheduleLoop (time : Q) (e : t) (c : Clock) :
  Inv e -> Inv (scheduleLoop render time e c).
Proof.
  intros I. unfold scheduleLoop, playDrumLoop.
  destruct (isDrumsPlaying e); [| exact I]. apply Inv_install; auto.
Qed.

Lemma Inv_scheduler_loop (c : Clock) (fuel : nat) :
  forall e e', scheduler_loop render fuel e c = Some e' -> Inv e -> Inv e'.
Proof.
  induction fuel as [| fuel IH]; intros e e' H I; simpl in H;
    destruct (JS.lt _ _); try discriminate H; try (injection H as <-; exact I).
  apply (IH _ _ H).
  apply (Inv_frame (scheduleLoop render (nextLoopTime e) e c)); try reflexivity.
  now apply Inv_scheduleLoop.
Qed.

Lemma Inv_scheduler (c : Clock) (fuel : nat) (e e' : t) :
  scheduler render fuel e c = Some e' -> Inv e -> Inv e'.
Proof.
  unfold scheduler. intros H I. destruct (negb (isDrumsPlaying e)).
  - injection H as <-. exact I.
  - destruct (scheduler_loop render fuel e c) as [e1 |] eqn:E; [| discriminate H].
    injection H as <-.
    apply (Inv_frame e1); try reflexivity. exact (Inv_scheduler_loop c fuel e e1 E I).
Qed.

Lemma Inv_startContinuousDrums (c : Clock) (fuel : nat) (e e' : t) :
  startContinuousDrums render fuel e c = Some e' -> Inv e -> Inv e'.
Proof.
  unfold startContinuousDrums. intros H I. destruct (isDrumsPlaying e).
  - injection H as <-. exact I.
  - apply (Inv_scheduler c fuel _ e' H).
    apply (Inv_frame e); try reflexivity. exact I.
Qed.

Lemma Inv_stopContinuousDrums (e : t) : Inv e -> Inv (stopContinuousDrums e).
Proof.
  intros I. unfold stopContinuousDrums. apply Inv_stopLoop.
  apply (Inv_frame e); try reflexivity. exact I.
Qed.

Lemma Inv_stopAll (e : t) : Inv e -> Inv (stopAll e).
Proof.
  intros I. unfold stopAll.
  apply (Inv_shrink (stopContinuousDrums e)); simpl;
    [reflexivity | reflexivity | set_solver | | now apply Inv_stopContinuousDrums].
  intros ch loop H. right. intros id Hid. simpl.
  apply elem_of_union_r, elem_of_list_to_set, all_sources_spec. eauto.
Qed.

Lemma Inv_stopInstruments (e : t) : Inv e -> Inv (stopInstruments e).
Proof.
  intros I. unfold stopInstruments.
  apply (Inv_shrink e); simpl; [reflexivity | reflexivity | set_solver | | exact I].
  intros ch loop H. destruct (decide (ch = Drums)) as [-> | N].
  - left. apply map_lookup_filter_Some. auto.
  - right. intros id Hid. simpl.
    apply elem_of_union_r, elem_of_list_to_set, all_sources_spec.
    exists ch, loop. split; [| exact Hid].
    apply map_lookup_filter_Some. auto.
Qed.

Lemma Inv_setGenre (c : Clock) (fuel : nat) (g : GenreId) (e e' : t) :
  setGenre render fuel g e c = Some e' -> Inv e -> Inv e'.
Proof.
  unfold setGenre. intros H I.
  assert (Inv (set_tempo g (genre_bpm g) e)) as I1
    by (apply (Inv_frame e); try reflexivity; exact I).
  destruct (isDrumsPlaying (set_tempo g (genre_bpm g) e)).
  - apply (Inv_startContinuousDrums c fuel _ e' H).
    now apply Inv_stopContinuousDrums.
  - injection H as <-. exact I1.
Qed.

(** [playNote] installs under the key it has just stopped. *)
Lemma playNote_shape (beat barNumber : Z) (accuracy : BeatTracker.Accuracy)
    (e : t) (c : Clock) (r : option (Z * Z)) (e' : t) :
  playNote render beat barNumber accuracy e c = Some (r, e') ->
  (isInitialized e = false /\ e' = e)
  \/ (isInitialized e = true /\ ~ 1 <= beat <= 4
      /\ e' = stopLoop (Beat beat) e)
  \/ (isInitialized e = true /\ 1 <= beat <= 4
      /\ exists p d,
           e' = install render (Beat beat) (currentTime c) p d
                  (stopLoop (Beat beat) e)).
Proof.
  unfold playNote. destruct (isInitialized e); simpl.
  2: { intros H. injection H as _ <-. now left. }
  destruct (chord_at _ _) as [root |]; [| discriminate].
  intros H. injection H as _ <-. right.
  unfold playMelodyLoop, playPadLoop, playBassLoop, playPercussionLoop.
  destruct beat as [| p | p];
    [left; repeat split; lia | | left; repeat split; lia].
  destruct p as [q | q |];
    [destruct q | destruct q as [q' | q' |]; [| destruct q' |] |];
    first [ left; repeat split; lia
          | right; split; [reflexivity |]; split; [lia | eexists _, _; reflexivity] ].
Qed.

Lemma Inv_playNote (beat barNumber : Z) (accuracy : BeatTracker.Accuracy)
    (e : t) (c : Clock) (r : option (Z * Z)) (e' : t) :
  playNote render beat barNumber accuracy e c = Some (r, e') -> Inv e -> Inv e'.
Proof.
  intros H I.
  destruct (playNote_shape _ _ _ _ _ _ _ H)
    as [[_ ->] | [(_ & _ & ->) | (_ & _ & p & d & ->)]].
  - exact I.
  - now apply Inv_stopLoop.
  - apply Inv_install; [| now apply Inv_stopLoop].
    right. destruct (stopLoop_map (Beat beat) e) as (-> & _).
    apply lookup_delete_eq.
Qed.

(** The calls the game and the scheduler's own timer make on an engine. *)
Inductive step : t -> t -> Prop :=
| step_initialize e : step e (initialize e)
| step_setBPM b e : step e (setBPM b e)
| step_setGenre fuel g e c e' :
    setGenre render fuel g e c = Some e' -> step e e'
| step_playNote beat barNumber accuracy e c r e' :
    playNote render beat barNumber accuracy e c = Some (r, e') -> step e e'
| step_stopLoop ch e : step e (stopLoop ch e)
| step_startContinuousDrums fuel e c e' :
    startContinuousDrums render fuel e c = Some e' -> step e e'
| step_scheduler fuel e c e' :
    scheduler render fuel e c = Some e' -> step e e'
| step_stopContinuousDrums e : step e (stopContinuousDrums e)
| step_stopAll e : step e (stopAll e)
| step_stopInstruments e : step e (stopInstruments e).

Inductive reachable : t -> Prop :=
| reachable_new : reachable constructor
| reachable_step e e' : reachable e -> step e e' -> reachable e'.

Lemma Inv_step (e e' : t) : step e e' -> Inv e -> Inv e'.
Proof.
  intros S I. destruct S.
  - unfold initialize. destruct (isInitialized e); [exact I |].
    apply (Inv_frame e); try reflexivity. exact I.
  - apply (Inv_frame e); try reflexivity. exact I.
  - eapply Inv_setGenre; eauto.
  - eapply Inv_playNote; eauto.
  - now apply Inv_stopLoop.
  - eapply Inv_startContinuousDrums; eauto.
  - eapply Inv_scheduler; eauto.
  - now apply Inv_stopContinuousDrums.
  - now apply Inv_stopAll.
  - now apply Inv_stopInstruments.
Qed.

Lemma reachable_Inv (e : t) : reachable e -> Inv e.
Proof.
  induction 1 as [| e e' _ IH S]; [exact Inv_constructor |].
  exact (Inv_step e e' S IH).
Qed.

(** C5, amended.  In every state the engine reaches, each beat channel
    has at most one live group, and a live group of a beat channel is the
    one [activeLoops] holds for it.  [playNote] on an initialized engine
    first stops every source of the group the map holds for that beat,
    then (for beats 1 to 4) installs the new group under the same key, so
    the map holds exactly that one group for the channel, and leaves the
    other channels alone.  The drums channel is different: a scheduled
    drum loop replaces the map entry for ['drums'] (so the map still holds
    one entry for it) without stopping any source of the group it
    replaces. *)
Theorem one_live_group_per_beat (e : t) :
  reachable e ->
  (forall i j gi gj b,
      rendered e !! i = Some gi -> rendered e !! j = Some gj ->
      channel gi = Beat b -> channel gj = Beat b ->
      live e gi -> live e gj -> i = j)
  /\ (forall g b,
        g ∈ rendered e -> channel g = Beat b -> live e g ->
        activeLoops e !! Beat b = Some (members g))
  /\ (forall beat barNumber accuracy c r e',
        playNote render beat barNumber accuracy e c = Some (r, e') ->
        isInitialized e = true ->
        reachable e'
        /\ (forall prior,
              activeLoops e !! Beat beat = Some prior -> cancelled e' prior)
        /\ (1 <= beat <= 4 ->
            activeLoops e' !! Beat beat
            = Some (seq (created e) (render (Beat beat) (created e))))
        /\ (forall ch, ch <> Beat beat ->
              activeLoops e' !! ch = activeLoops e !! ch))
  /\ (forall time c,
        isDrumsPlaying e = true ->
        activeLoops (scheduleLoop render time e c) !! Drums
        = Some (seq (created e) (render Drums (created e)))
        /\ stopped (scheduleLoop render time e c) = stopped e
        /\ (forall ch, ch <> Drums ->
              activeLoops (scheduleLoop render time e c) !! ch
              = activeLoops e !! ch)).
Proof.
  intros R. pose proof (reachable_Inv e R) as [F O L].
  split; [| split; [exact L | split]].
  - intros i j gi gj b Hi Hj Ci Cj Li Lj.
    assert (gi ∈ rendered e) as Gi by (apply list_elem_of_lookup; eauto).
    assert (gj ∈ rendered e) as Gj by (apply list_elem_of_lookup; eauto).
    pose proof (L gi b Gi Ci Li) as Mi. pose proof (L gj b Gj Cj Lj) as Mj.
    assert (members gi = members gj) as E by congruence.
    destruct Li as (a & Ha & _).
    destruct (Nat.lt_trichotomy i j) as [Lt | [Eq | Gt]]; [| exact Eq |].
    + assert (a < a)%nat; [| lia].
      apply (O i j gi gj a a Lt Hi Hj Ha). now rewrite <- E.
    + assert (a < a)%nat; [| lia].
      apply (O j i gj gi a a Gt Hj Hi); [now rewrite <- E | exact Ha].
  - intros beat barNumber accuracy c r e' H Init.
    split; [exact (reachable_step e e' R (step_playNote _ _ _ _ _ _ _ H)) |].
    destruct (stopLoop_map (Beat beat) e) as (Hm & Hs & Hc & _).
    assert (forall prior,
               activeLoops e !! Beat beat = Some prior ->
               cancelled (stopLoop (Beat beat) e) prior) as Hcancel.
    { intros prior Hp. now destruct (stopLoop_cancels (Beat beat) e prior Hp). }
    destruct (playNote_shape _ _ _ _ _ _ _ H)
      as [[N _] | [(_ & N & ->) | (_ & _ & p & d & ->)]].
    + congruence.
    + split; [exact Hcancel |]. split; [intros B; contradiction |].
      intros ch Hch. rewrite Hm. now apply lookup_delete_ne.
    + split; [| split].
      * intros prior Hp id Hid. unfold install. simpl.
        exact (Hcancel prior Hp id Hid).
      * intros _. unfold install. simpl. rewrite Hc. apply lookup_insert_eq.
      * intros ch Hch. unfold install. simpl.
        rewrite lookup_insert_ne by congruence.
        rewrite Hm. now apply lookup_delete_ne.
  - intros time c P. unfold scheduleLoop, playDrumLoop, install. rewrite P.
    simpl. split; [apply lookup_insert_eq |]. split; [reflexivity |].
    intros ch Hch. now apply lookup_insert_ne.
Qed.

End Reach.

(** Two sources for every loop. *)
Definition two (ch : Channel) (n : nat) : nat := 2%nat.

(** The state a call of [playNote] leaves, [e] if it throws. *)
Definition after (o : option (option (Z * Z) * t)) (e : t) : t :=
  match o with
  | Some (_, e') => e'
  | None => e
  end.

(** An initialized engine after a first hit on beat 1, and after a second
    one half a second later. *)
Definition first_hit : t :=
  after (playNote two 1 0 BeatTracker.perfect (initialize constructor)
           (mkClock 1 0))
    (initialize constructor).

Definition second_hit : t :=
  after (playNote two 1 0 BeatTracker.good first_hit (mkClock (3 # 2) 0))
    first_hit.

(** The drums of [Scheduler.playing_engine] scheduled for the measures at
    0 s and at 2.4 s. *)
Definition first_measure : t :=
  scheduleLoop two 0 Scheduler.playing_engine (mkClock 0 0).

Definition second_measure : t :=
  scheduleLoop two (12 # 5) first_measure (mkClock (235 # 100) 0).

(** C5, as stated, fails on the drums channel: when the second measure is
    scheduled, the group of the first (sources 0 and 1) is the one the map
    holds for ['drums'], and afterwards none of its sources is stopped
    while the map holds the second group (sources 2 and 3): both groups
    are live. *)
Lemma second_drum_loop_keeps_first :
  activeLoops first_measure !! Drums = Some [0; 1]%nat
  /\ activeLoops second_measure !! Drums = Some [2; 3]%nat
  /\ map channel (rendered second_measure) = [Drums; Drums]
  /\ map members (rendered second_measure) = [[0; 1]; [2; 3]]%nat
  /\ stopped second_measure = ∅
  /\ ~ cancelled second_measure [0; 1]%nat.
Proof.
  repeat split.
  intros H. specialize (H 0%nat ltac:(apply elem_of_cons; now left)).
  change (stopped second_measure) with (∅ : gset nat) in H.
  now apply not_elem_of_empty in H.
Qed.

Lemma reachable_first_hit : reachable two first_hit.
Proof.
  eapply reachable_step; [eapply reachable_step; [apply reachable_new |] |].
  - apply step_initialize.
  - eapply (step_playNote two 1 0 BeatTracker.perfect _ (mkClock 1 0)).
    reflexivity.
Qed.

(** The second hit on beat 1 stops both sources of the first group and
    leaves the second group as the only one the map holds for beat 1. *)
Lemma one_live_group_per_beat_witness :
  cancelled second_hit [0; 1]%nat
  /\ activeLoops second_hit !! Beat 1 = Some [2; 3]%nat.
Proof.
  destruct (one_live_group_per_beat two first_hit reachable_first_hit)
    as (_ & _ & H & _).
  destruct (H 1 0 BeatTracker.good (mkClock (3 # 2) 0) (Some (1, 0)) second_hit
              eq_refl eq_refl) as (_ & Hc & Hm & _).
  split; [apply Hc; reflexivity | apply Hm; lia].
Defined.

End LoopLifecycle.

(** * Further properties of the transport clock *)
Module TransportFacts.
Import BeatTracker.

(** A call of one of the tracker's methods, with the clock readings it
    takes. *)
Inductive Call :=
| CallStart (c : Clock)
| CallStop
| CallPause (c : Clock)
| CallResume (c : Clock)
| CallSetBPM (b : Q)
| CallSetAudioContext (attached : bool).

Definition call (k : Call) (s : t) : t :=
  match k with
  | CallStart c => start s c
  | CallStop => stop s
  | CallPause c => pause s c
  | CallResume c => resume s c
  | CallSetBPM b => setBPM b s
  | CallSetAudioContext a => setAudioContext a s
  end.

Fixpoint calls (ks : list Call) (s : t) : t :=
  match ks with
  | [] => s
  | k :: rest => calls rest (call k s)
  end.

(** What every sequence of calls keeps true of a tracker. *)
Record consistent (s : t) : Prop := mkConsistent {
  beat_duration_of_bpm : beatDuration s = (60000 / bpm s)%Q;
  windows_fixed : perfectWindow s = 50%Q /\ goodWindow s = 150%Q;
  running_has_origin :
    match startTime s with
    | Some _ => isRunning s = true
    | None => isRunning s = false
    end;
  paused_has_reading :
    match pausedAt s with
    | Some _ => isPaused s = true
    | None => isPaused s = false
    end;
  paused_is_running : isPaused s = true -> isRunning s = true
}.

Lemma consistent_call (k : Call) (s : t) : consistent s -> consistent (call k s).
Proof.
  intros C. pose proof C as [D [W1 W2] R P Q].
  destruct k as [c | | c | c | b | a]; simpl.
  - split; simpl; auto.
  - split; simpl; auto.
  - unfold pause. destruct (isRunning s) eqn:Er; simpl; [| exact C].
    destruct (isPaused s) eqn:Ep; simpl; [exact C |].
    split; simpl; auto.
  - unfold resume. destruct (isPaused s) eqn:Ep; simpl; [| exact C].
    split; simpl; auto.
  - split; simpl; auto.
  - split; simpl; auto.
Qed.

(** Whatever methods are called on a tracker after its construction, in
    whatever order: the beat duration is 60000 / bpm, the windows are 50 ms
    and 150 ms, the tracker is running exactly when it has an origin,
    paused exactly when it has a pause reading, and paused only while
    running.  The test [startTime === null] in the queries is therefore
    implied by [!isRunning]. *)
Theorem tracker_consistent (bpm0 : Q) (ks : list Call) :
  consistent (calls ks (constructor bpm0)).
Proof.
  assert (forall s, consistent s -> consistent (calls ks s)) as H.
  { induction ks as [| k rest IH]; intros s C; [exact C |].
    simpl. apply IH. now apply consistent_call. }
  apply H. split; simpl; auto.
Qed.

(** The elapsed time [getTimeToNextBeat] works with. *)
Definition live_elapsed (s : t) (st : Q) (c : Clock) : Q :=
  if audioCtx s then ((currentTime c - st - totalPausedTime s) * 1000)%Q
  else (performance_now c - st - totalPausedTime s)%Q.

(** On a running tracker with a positive beat duration the time to the
    next beat is positive and at most one beat, and the elapsed time plus
    it is a whole number of beats: the next beat boundary.  On a tracker
    that is not running it is one beat duration. *)
Theorem time_to_next_beat (s : t) (c : Clock) (st : Q) :
  isRunning s = true -> startTime s = Some st -> (0 < beatDuration s)%Q ->
  (0 < getTimeToNextBeat s c)%Q
  /\ (getTimeToNextBeat s c <= beatDuration s)%Q
  /\ (live_elapsed s st c + getTimeToNextBeat s c
      == inject_Z (Qfloor (live_elapsed s st c / beatDuration s) + 1)
         * beatDuration s)%Q
  /\ getTimeToNextBeat (stop s) c = beatDuration s.
Proof.
  intros R S Hb.
  assert (getTimeToNextBeat s c
          = (inject_Z (Qfloor (live_elapsed s st c / beatDuration s) + 1)
             * beatDuration s - live_elapsed s st c)%Q) as E.
  { unfold getTimeToNextBeat, live_elapsed, JS.Math_floor. rewrite R, S.
    destruct (audioCtx s); reflexivity. }
  rewrite E. set (el := live_elapsed s st c). set (bd := beatDuration s) in *.
  pose proof (Qfloor_le (el / bd)) as Hlo.
  pose proof (Qlt_floor (el / bd)) as Hhi.
  set (n := Qfloor (el / bd)) in *.
  rewrite inject_Z_plus in *. change (inject_Z 1) with 1%Q in *.
  assert (el == (el / bd) * bd)%Q as Eel by (field; lra).
  pose proof (Qmult_le_compat_r _ _ bd Hlo (Qlt_le_weak _ _ Hb)) as H1.
  pose proof (Qmult_lt_compat_r _ _ bd Hb Hhi) as H2.
  split; [lra |]. split; [lra |]. split; [ring |]. reflexivity.
Qed.

Lemma time_to_next_beat_witness :
  (getTimeToNextBeat (start (constructor 100) (mkClock 0 0)) (mkClock 0 1450)
   <= 600)%Q.
Proof.
  destruct (time_to_next_beat (start (constructor 100) (mkClock 0 0))
              (mkClock 0 1450) 0 eq_refl eq_refl eq_refl) as (_ & H & _).
  exact H.
Defined.

(** On a running tracker with a positive beat duration the offset of a hit
    is at least minus half a beat and less than half a beat.  So when half
    a beat is no longer than the Good window, no hit is Off. *)
Theorem offset_within_half_beat (s : t) (c : Clock) (hitTime st : Q) :
  isRunning s = true -> startTime s = Some st -> (0 < beatDuration s)%Q ->
  (- (beatDuration s / 2) <= Timing.offset (evaluateTiming s c hitTime))%Q
  /\ (Timing.offset (evaluateTiming s c hitTime) < beatDuration s / 2)%Q
  /\ ((beatDuration s / 2 <= goodWindow s)%Q ->
      Timing.accuracy (evaluateTiming s c hitTime) <> off).
Proof.
  intros R S Hb.
  rewrite (TimingEvaluator.evaluateTiming_running s c hitTime st R S).
  cbv zeta. cbn [Timing.offset Timing.accuracy].
  set (pos := (_ / beatDuration s)%Q).
  destruct (JSFacts.Math_round_near pos) as [Hlo Hhi].
  set (idx := JS.Math_round pos) in *. set (bd := beatDuration s) in *.
  assert (- (1 # 2) * bd <= (pos - inject_Z idx) * bd)%Q as H1.
  { apply Qmult_le_compat_r; lra. }
  assert ((pos - inject_Z idx) * bd < (1 # 2) * bd)%Q as H2.
  { apply Qmult_lt_compat_r; lra. }
  assert (bd / 2 == (1 # 2) * bd)%Q as Eh by field.
  split; [lra |]. split; [lra |].
  intros Hg. unfold JS.le, JS.Math_abs.
  destruct (Qle_bool _ (perfectWindow s)); [discriminate |].
  assert (Qabs ((pos - inject_Z idx) * bd) <= goodWindow s)%Q as Ha.
  { apply Qabs_Qle_condition. split; lra. }
  apply Qle_bool_iff in Ha. rewrite Ha. discriminate.
Qed.

(** At 100 BPM half a beat is 300 ms. *)
Lemma offset_within_half_beat_witness :
  (Timing.offset
     (evaluateTiming (start (constructor 100) (mkClock 0 0)) (mkClock 0 1450) 1450)
   < 600 / 2)%Q.
Proof.
  destruct (offset_within_half_beat (start (constructor 100) (mkClock 0 0))
              (mkClock 0 1450) 1450 0 eq_refl eq_refl eq_refl) as (_ & H & _).
  exact H.
Defined.

End TransportFacts.

(** * A transport used as the game uses it: started clean, then paused
      and resumed *)
Module TransportHistory.
Import BeatTracker.

Inductive Toggle :=
| DoPause (c : Clock)
| DoResume (c : Clock).

Definition toggle (k : Toggle) (s : t) : t :=
  match k with
  | DoPause c => pause s c
  | DoResume c => resume s c
  end.

Fixpoint toggles (ks : list Toggle) (s : t) : t :=
  match ks with
  | [] => s
  | k :: rest => toggles rest (toggle k s)
  end.

(** The reading a call takes, in the time base of [s]. *)
Definition reading (s : t) (k : Toggle) : Q :=
  match k with
  | DoPause c => now s c
  | DoResume c => now s c
  end.

(** The readings never go back: each is at least the one before it, the
    first at least [from]. *)
Fixpoint ordered (s : t) (from : Q) (ks : list Toggle) : Prop :=
  match ks with
  | [] => True
  | k :: rest => (from <= reading s k)%Q /\ ordered s (reading s k) rest
  end.

Fixpoint last_reading (s : t) (from : Q) (ks : list Toggle) : Q :=
  match ks with
  | [] => from
  | k :: rest => last_reading s (reading s k) rest
  end.

(** The origin plus the pauses lies in the past: before the reading of the
    pause in progress, or before the last reading. *)
Definition behind (s : t) (st last : Q) : Prop :=
  isRunning s = true /\ startTime s = Some st
  /\ if isPaused s then
       exists p, pausedAt s = Some p
                 /\ (st + totalPausedTime s <= p)%Q /\ (p <= last)%Q
     else (st + totalPausedTime s <= last)%Q.

Lemma toggle_frame (k : Toggle) (s : t) :
  audioCtx (toggle k s) = audioCtx s /\ bpm (toggle k s) = bpm s
  /\ beatDuration (toggle k s) = beatDuration s.
Proof.
  destruct k as [c | c]; simpl; [unfold pause | unfold resume];
    destruct (isRunning s), (isPaused s); simpl; auto.
Qed.

Lemma behind_toggle (k : Toggle) (s : t) (st last : Q) :
  behind s st last -> (last <= reading s k)%Q ->
  behind (toggle k s) st (reading s k).
Proof.
  intros (R & S & H) Hle. unfold behind.
  destruct k as [c | c]; simpl in *.
  - unfold pause. rewrite R. destruct (isPaused s) eqn:P; simpl.
    + rewrite R, S, P. split; [reflexivity |]. split; [reflexivity |].
      destruct H as (p & Hp & H1 & H2). exists p. repeat split; auto. lra.
    + split; [first [exact R | reflexivity] |]. split; [exact S |].
      exists (now s c). repeat split; lra.
  - unfold resume. destruct (isPaused s) eqn:P; simpl.
    + split; [first [exact R | reflexivity] |]. split; [exact S |].
      destruct H as (p & Hp & H1 & H2). rewrite Hp. simpl. lra.
    + rewrite R, S, P. split; [reflexivity |]. split; [reflexivity |]. lra.
Qed.

Lemma behind_toggles (ks : list Toggle) :
  forall (s : t) (st last : Q),
    behind s st last -> ordered s last ks ->
    behind (toggles ks s) st (last_reading s last ks)
    /\ audioCtx (toggles ks s) = audioCtx s
    /\ bpm (toggles ks s) = bpm s
    /\ beatDuration (toggles ks s) = beatDuration s.
Proof.
  induction ks as [| k rest IH]; intros s st last B O; simpl; [auto |].
  destruct O as [O1 O2].
  destruct (toggle_frame k s) as (Fa & Fb & Fd).
  assert (forall j, reading (toggle k s) j = reading s j) as Er.
  { intros [c | c]; unfold reading, now; now rewrite Fa. }
  assert (forall from js, ordered (toggle k s) from js <-> ordered s from js) as Eo.
  { intros from js. revert from. induction js as [| j js IHj]; intros from;
      simpl; [tauto |]. rewrite (Er j), IHj. tauto. }
  assert (forall from js, last_reading (toggle k s) from js = last_reading s from js)
    as El.
  { intros from js. revert from. induction js as [| j js IHj]; intros from;
      simpl; [reflexivity |]. now rewrite (Er j), IHj. }
  destruct (IH (toggle k s) st (reading s k) (behind_toggle k s st last B O1)
              (proj2 (Eo _ _) O2)) as (B' & A' & P' & D').
  rewrite El in B'. rewrite A', P', D'. auto.
Qed.

(** Take a tracker whose pause bookkeeping is clear (fresh, or stopped),
    start it, then pause and resume it any number of times with clock
    readings that never go back.  At any reading no earlier than the last
    one, the elapsed beat count of the position query is not negative;
    and a hit evaluated then (stamped no earlier than the last reading,
    when the tracker runs on the input clock) gets a nearest beat in 1..4
    and a bar number that is not negative. *)
Theorem clean_start_never_negative (s0 : t) (c0 : Clock) (ks : list Toggle)
    (c : Clock) (hitTime : Q) :
  TransportClock.pause_state_cleared s0 ->
  ordered (start s0 c0) (now s0 c0) ks ->
  (last_reading (start s0 c0) (now s0 c0) ks <= now s0 c)%Q ->
  (audioCtx s0 = false ->
   (last_reading (start s0 c0) (now s0 c0) ks <= hitTime)%Q) ->
  ((0 < bpm s0)%Q ->
   (0 <= BeatInfo.totalBeats
           (getCurrentBeatInfo (toggles ks (start s0 c0)) c))%Q)
  /\ ((0 < beatDuration s0)%Q ->
      1 <= Timing.nearestBeat
             (evaluateTiming (toggles ks (start s0 c0)) c hitTime) <= 4
      /\ 0 <= Timing.barNumber
                (evaluateTiming (toggles ks (start s0 c0)) c hitTime)).
Proof.
  intros (C1 & C2 & C3) O Hc Hh.
  assert (behind (start s0 c0) (now s0 c0) (now s0 c0)) as B0.
  { unfold behind. simpl. rewrite C1, C3. repeat split. lra. }
  destruct (behind_toggles ks _ _ _ B0 O) as ((R & S & B) & Ea & Eb & Ed).
  simpl in Ea, Eb, Ed.
  set (s := toggles ks (start s0 c0)) in *.
  set (last := last_reading (start s0 c0) (now s0 c0) ks) in *.
  set (st := now s0 c0) in *.
  split.
  - intros Hb. unfold getCurrentBeatInfo. rewrite R, S. simpl. rewrite Eb.
    assert (0 < 60000 / bpm s0)%Q as Hd
      by (apply Qlt_shift_div_l; [exact Hb | lra]).
    apply Qle_shift_div_l; [exact Hd |].
    unfold now in Hc. rewrite Ea.
    destruct (isPaused s).
    + destruct B as (p & -> & H1 & H2). simpl. destruct (audioCtx s0); lra.
    + destruct (audioCtx s0); lra.
  - intros Hd.
    rewrite (TimingEvaluator.evaluateTiming_running s c hitTime st R S).
    cbv zeta. cbn [Timing.nearestBeat Timing.barNumber].
    rewrite Ea, Ed.
    set (el := Reference.elapsedMs (audioCtx s0) st (totalPausedTime s) c hitTime).
    assert (0 <= el)%Q as Hel.
    { unfold el, Reference.elapsedMs. unfold now in Hc.
      assert (st + totalPausedTime s <= last)%Q as Hl.
      { destruct (isPaused s); [| exact B].
        destruct B as (p & _ & H1 & H2). lra. }
      destruct (audioCtx s0); [lra |]. specialize (Hh eq_refl). lra. }
    assert (0 <= JS.Math_round (el / beatDuration s0)) as Hidx.
    { apply JSFacts.Math_round_nonneg. apply Qle_shift_div_l; [exact Hd | lra]. }
    rewrite JSFacts.rem_is_mod by exact Hidx.
    rewrite JSFacts.Math_floor_quarter.
    pose proof (Z.mod_pos_bound (JS.Math_round (el / beatDuration s0)) 4
                  ltac:(lia)) as Hm.
    split; [lia |]. apply Z.div_pos; lia.
Qed.

(** The transport of the other examples: started at 0 ms, paused from
    1000 ms to 4000 ms; a hit at 4500 ms. *)
Lemma clean_start_never_negative_witness :
  1 <= Timing.nearestBeat
         (evaluateTiming
            (toggles [DoPause (mkClock 0 1000); DoResume (mkClock 0 4000)]
               (start (constructor 100) (mkClock 0 0)))
            (mkClock 0 4500) 4500) <= 4.
Proof.
  destruct (clean_start_never_negative (constructor 100) (mkClock 0 0)
              [DoPause (mkClock 0 1000); DoResume (mkClock 0 4000)]
              (mkClock 0 4500) 4500) as (_ & H).
  - repeat split.
  - simpl. repeat split; vm_compute; discriminate.
  - vm_compute. discriminate.
  - intros _. vm_compute. discriminate.
  - destruct (H eq_refl) as [H1 _]. exact H1.
Defined.

Lemma Qfloor_unique (x : Q) (n : Z) :
  (inject_Z n <= x)%Q -> (x < inject_Z n + 1)%Q -> Qfloor x = n.
Proof.
  intros Hlo Hhi.
  pose proof (Qfloor_le x) as Flo. pose proof (Qlt_floor x) as Fhi.
  rewrite inject_Z_plus in Fhi. change (inject_Z 1) with 1%Q in Fhi.
  assert (inject_Z (Qfloor x) < inject_Z n + 1)%Q as H1 by lra.
  assert (inject_Z n < inject_Z (Qfloor x) + 1)%Q as H2 by lra.
  change 1%Q with (inject_Z 1) in H1, H2.
  rewrite <- inject_Z_plus in H1, H2. rewrite <- Zlt_Qlt in H1, H2. lia.
Qed.

(** The evaluator and the position query agree.  On a running, unpaused
    tracker whose beat duration is 60000 / bpm, for a hit evaluated at
    the reading of the query (and stamped with it, on the input clock)
    with a beat count that is not negative: in the first half of a beat
    the nearest beat is the current beat, in the same bar; in the second
    half it is the beat after the current one. *)
Theorem nearest_beat_follows_position (s : t) (c : Clock) (hitTime st : Q) :
  isRunning s = true -> startTime s = Some st -> isPaused s = false ->
  beatDuration s = (60000 / bpm s)%Q ->
  (audioCtx s = false -> hitTime = performance_now c) ->
  (0 <= BeatInfo.totalBeats (getCurrentBeatInfo s c))%Q ->
  ((BeatInfo.progress (getCurrentBeatInfo s c) < 1 # 2)%Q ->
   Timing.nearestBeat (evaluateTiming s c hitTime)
   = BeatInfo.beat (getCurrentBeatInfo s c)
   /\ Timing.barNumber (evaluateTiming s c hitTime)
      = BeatInfo.barNumber (getCurrentBeatInfo s c))
  /\ ((1 # 2 <= BeatInfo.progress (getCurrentBeatInfo s c))%Q ->
      Timing.nearestBeat (evaluateTiming s c hitTime)
      = BeatInfo.beat (getCurrentBeatInfo s c) mod 4 + 1).
Proof.
  intros R S P D Hh.
  rewrite (TransportClock.getCurrentBeatInfo_running s c st R S P).
  rewrite (TimingEvaluator.evaluateTiming_running s c hitTime st R S).
  cbv zeta. rewrite D.
  assert (Reference.elapsedMs (audioCtx s) st (totalPausedTime s) c hitTime
          = TransportClock.elapsed_ms s st c) as ->.
  { unfold Reference.elapsedMs, TransportClock.elapsed_ms.
    destruct (audioCtx s); [reflexivity |]. now rewrite (Hh eq_refl). }
  set (B := (TransportClock.elapsed_ms s st c / (60000 / bpm s))%Q).
  unfold TransportClock.position_of, JS.Math_floor.
  cbn [BeatInfo.beat BeatInfo.progress BeatInfo.barNumber BeatInfo.totalBeats
       Timing.nearestBeat Timing.barNumber].
  intros HB.
  pose proof (Qfloor_le B) as Flo. pose proof (Qlt_floor B) as Fhi.
  rewrite inject_Z_plus in Fhi. change (inject_Z 1) with 1%Q in Fhi.
  assert (0 <= Qfloor B) as Hn.
  { change 0 with (Qfloor 0). now apply Qfloor_resp_le. }
  assert (JS.fmod1 B = (B - inject_Z (Qfloor B))%Q) as ->.
  { unfold JS.fmod1. rewrite JSFacts.trunc_floor.
    assert (Qle_bool 0 B = true) as -> by now apply Qle_bool_iff.
    reflexivity. }
  set (n := Qfloor B) in *.
  split.
  - intros Hp.
    assert (JS.Math_round B = n) as -> by (apply JSFacts.Math_round_unique; lra).
    split; [reflexivity |].
    change (Qfloor (inject_Z n / 4)) with (JS.Math_floor (inject_Z n / 4)).
    rewrite JSFacts.Math_floor_quarter. symmetry. apply Qfloor_unique.
    + pose proof (Z.mul_div_le n 4 ltac:(lia)) as H.
      rewrite Zle_Qle, inject_Z_mult in H. change (inject_Z 4) with 4%Q in H.
      apply Qle_shift_div_l; [reflexivity | lra].
    + pose proof (Z.mul_succ_div_gt n 4 ltac:(lia)) as H.
      assert (n + 1 <= 4 * Z.succ (n / 4)) as H' by lia.
      rewrite Zle_Qle, inject_Z_mult, inject_Z_plus in H'. unfold Z.succ in H'.
      rewrite inject_Z_plus in H'.
      change (inject_Z 4) with 4%Q in H'. change (inject_Z 1) with 1%Q in H'.
      apply Qlt_shift_div_r; [reflexivity | lra].
  - intros Hp.
    assert (JS.Math_round B = n + 1) as ->.
    { apply JSFacts.Math_round_unique; rewrite inject_Z_plus;
        change (inject_Z 1) with 1%Q; lra. }
    rewrite !JSFacts.rem_is_mod by lia.
    rewrite Z.add_mod_idemp_l by lia. reflexivity.
Qed.

(** 1450 ms at 100 BPM is 0.42 beats into beat 3: the nearest beat is 3;
    1550 ms is 0.58 beats into it: the nearest beat is 4. *)
Lemma nearest_beat_follows_position_witness :
  Timing.nearestBeat
    (evaluateTiming (start (constructor 100) (mkClock 0 0)) (mkClock 0 1450) 1450)
  = BeatInfo.beat
      (getCurrentBeatInfo (start (constructor 100) (mkClock 0 0)) (mkClock 0 1450)).
Proof.
  destruct (nearest_beat_follows_position (start (constructor 100) (mkClock 0 0))
              (mkClock 0 1450) 1450 0 eq_refl eq_refl eq_refl eq_refl
              (fun _ => eq_refl) ltac:(vm_compute; discriminate)) as [H _].
  destruct (H ltac:(vm_compute; reflexivity)) as [H1 _]. exact H1.
Defined.

End TransportHistory.

(** * Further properties of the input handler *)
Module HoldPairing.
Import InputHandler.

(** In a trace of callbacks, every [onNoteEnd] call comes directly after
    an [onNoteStart] call and reports that call's timestamp as the start
    of the hold.  [prev] is the callback made before the trace. *)
Fixpoint paired (prev : option Callback) (out : list Callback) : Prop :=
  match out with
  | [] => True
  | NoteStart ts :: rest => paired (Some (NoteStart ts)) rest
  | NoteEnd st en :: rest =>
      (exists ts, prev = Some (NoteStart ts) /\ st = Some ts)
      /\ paired (Some (NoteEnd st en)) rest
  end.

(** While a note is held, the last callback made was the [onNoteStart]
    that began the hold. *)
Definition holding_since (s : t) (prev : option Callback) : Prop :=
  isHolding s = true ->
  exists ts, prev = Some (NoteStart ts) /\ holdStartTime s = Some ts.

(** What one step does to the hold: nothing that starts one; or it starts
    one with one [onNoteStart] call; or it ends the one in progress with
    one [onNoteEnd] call. *)
Lemma step_hold (st : Step) (s : t) :
  onNoteStart s = true ->
  onNoteStart (fst (step st s)) = true
  /\ ((snd (step st s) = []
       /\ (isHolding (fst (step st s)) = true ->
           isHolding s = true
           /\ holdStartTime (fst (step st s)) = holdStartTime s))
      \/ (exists ts, snd (step st s) = [NoteStart ts]
                     /\ isHolding (fst (step st s)) = true
                     /\ holdStartTime (fst (step st s)) = Some ts)
      \/ (exists en, snd (step st s) = [NoteEnd (holdStartTime s) en]
                     /\ isHolding s = true
                     /\ isHolding (fst (step st s)) = false)).
Proof.
  intros Reg.
  assert (forall c,
             onNoteStart (fst (triggerNoteStart s c)) = true
             /\ ((snd (triggerNoteStart s c) = []
                  /\ (isHolding (fst (triggerNoteStart s c)) = true ->
                      isHolding s = true
                      /\ holdStartTime (fst (triggerNoteStart s c))
                         = holdStartTime s))
                 \/ (exists ts, snd (triggerNoteStart s c) = [NoteStart ts]
                                /\ isHolding (fst (triggerNoteStart s c)) = true
                                /\ holdStartTime (fst (triggerNoteStart s c))
                                   = Some ts)
                 \/ (exists en,
                        snd (triggerNoteStart s c) = [NoteEnd (holdStartTime s) en]
                        /\ isHolding s = true
                        /\ isHolding (fst (triggerNoteStart s c)) = false)))
    as Hstart.
  { intros c. unfold triggerNoteStart.
    destruct (JS.lt _ _); simpl; [auto |].
    destruct (isHolding s) eqn:Hd; simpl; [auto |].
    rewrite Reg. split; [reflexivity |]. right. left. eauto. }
  assert (forall c,
             onNoteStart (fst (triggerNoteEnd s c)) = true
             /\ ((snd (triggerNoteEnd s c) = []
                  /\ (isHolding (fst (triggerNoteEnd s c)) = true ->
                      isHolding s = true
                      /\ holdStartTime (fst (triggerNoteEnd s c))
                         = holdStartTime s))
                 \/ (exists ts, snd (triggerNoteEnd s c) = [NoteStart ts]
                                /\ isHolding (fst (triggerNoteEnd s c)) = true
                                /\ holdStartTime (fst (triggerNoteEnd s c))
                                   = Some ts)
                 \/ (exists en,
                        snd (triggerNoteEnd s c) = [NoteEnd (holdStartTime s) en]
                        /\ isHolding s = true
                        /\ isHolding (fst (triggerNoteEnd s c)) = false)))
    as Hend.
  { intros c. unfold triggerNoteEnd.
    destruct (isHolding s) eqn:Hd; simpl; [| rewrite Hd; auto].
    destruct (onNoteEnd s); simpl.
    - split; [exact Reg |]. right. right. eauto.
    - split; [exact Reg |]. left. split; [reflexivity | discriminate]. }
  destruct st as [ev c | |]; simpl.
  - unfold dispatch. destruct (listening s); simpl; [| auto].
    destruct ev as [sp rp | sp | |].
    + destruct sp; simpl; [| auto]. destruct rp; simpl; [auto | apply Hstart].
    + destruct sp; simpl; [apply Hend | auto].
    + apply Hstart.
    + apply Hend.
  - auto.
  - split; [exact Reg |]. left. split; [reflexivity | discriminate].
Qed.

Lemma run_paired (steps : list Step) :
  forall (s : t) (prev : option Callback),
    onNoteStart s = true -> holding_since s prev ->
    paired prev (snd (run steps s)).
Proof.
  induction steps as [| st rest IH]; intros s prev Reg Hs; [exact I |].
  rewrite Debounce.run_cons. simpl.
  destruct (step_hold st s Reg)
    as (Reg' & [[E K] | [(ts & E & H1 & H2) | (en & E & H1 & H2)]]);
    rewrite E; simpl.
  - apply IH; [exact Reg' |]. intros H. destruct (K H) as [K1 K2].
    destruct (Hs K1) as (ts & Hp & Hh). exists ts. split; congruence.
  - apply IH; [exact Reg' |]. intros _. eauto.
  - split.
    + destruct (Hs H1) as (ts & Hp & Hh). exists ts. auto.
    + apply IH; [exact Reg' |]. intros H. congruence.
Qed.

(** On a handler with an [onNoteStart] callback registered and no note
    held, whatever DOM events arrive and however [start()] and [stop()] are
    called: every [onNoteEnd] call directly follows an [onNoteStart] call
    and passes that call's timestamp as the start of the hold, so no hold
    is ended twice and none is ended that was not begun.  ([stop()] drops
    a hold without a call; the next call is then an [onNoteStart].) *)
Theorem note_end_follows_its_start (s : t) (steps : list Step) :
  onNoteStart s = true -> isHolding s = false ->
  paired None (snd (run steps s)).
Proof.
  intros Reg Hd. apply run_paired; [exact Reg |].
  intros H. congruence.
Qed.

(** Key down at 500 ms, key up at 900 ms, key up again at 950 ms: one
    start, one end reporting 500 ms, and nothing for the second key up. *)
Lemma note_end_follows_its_start_witness :
  paired None
    (snd (run [Dom (keydown true false) (mkClock 0 500);
               Dom (keyup true) (mkClock 0 900);
               Dom (keyup true) (mkClock 0 950)]
            Debounce.listening_handler)).
Proof.
  apply (note_end_follows_its_start Debounce.listening_handler); reflexivity.
Defined.

End HoldPairing.

(** * Chords: [getChordForBar] and the chord lookup of [playNote] *)
Module Chords.

(** One entry of [CHORD_PROGRESSIONS]: the three multipliers, each as its
    semitone offset [n] (the multiplier is [st(n) = 2^(n/12)]). *)
Record Chord := mkChord { bass : Z; melody : Z; pad : Z }.

Definition CHORD_PROGRESSIONS : list Chord :=
  [mkChord 0 0 0; mkChord 0 0 0;
   mkChord (-3) (-3) (-3); mkChord (-3) (-3) (-3);
   mkChord 5 5 5; mkChord 5 5 5;
   mkChord 7 7 7; mkChord 7 7 7].

(** [getChordForBar(barNumber)]; [None] is [undefined]. *)
Definition getChordForBar (barNumber : Z) : option Chord :=
  let index := JS.rem barNumber (Z.of_nat (length CHORD_PROGRESSIONS)) in
  if index <? 0 then None else CHORD_PROGRESSIONS !! Z.to_nat index.

(** The chord root [playNote] reads for a bar. *)
Definition root_for_bar (g : AudioEngine.GenreId) (barNumber : Z) : option Z :=
  AudioEngine.chord_at g
    (JS.rem barNumber (Z.of_nat (length (AudioEngine.genre_chords g)))).

Lemma rem8_cases (barNumber : Z) :
  (0 <= Z.rem barNumber 8 < 8 /\ (0 <= barNumber \/ Z.rem barNumber 8 = 0))
  \/ (-8 < Z.rem barNumber 8 < 0 /\ barNumber < 0).
Proof.
  destruct (Z.le_gt_cases 0 barNumber) as [H | H].
  - left. pose proof (Z.rem_bound_pos barNumber 8 H ltac:(lia)). lia.
  - pose proof (Z.rem_bound_pos_neg barNumber 8 ltac:(lia) ltac:(lia)) as B.
    destruct (Z.eq_dec (Z.rem barNumber 8) 0) as [E | E]; [left; lia |].
    right. lia.
Qed.

Lemma root_for_bar_defined (g : AudioEngine.GenreId) (barNumber : Z) :
  root_for_bar g barNumber = None
  <-> barNumber < 0 /\ Z.rem barNumber 8 <> 0.
Proof.
  unfold root_for_bar, AudioEngine.chord_at, JS.rem.
  assert (length (AudioEngine.genre_chords g) = 8%nat) as L
    by (destruct g; reflexivity).
  rewrite L. change (Z.of_nat 8) with 8.
  destruct (rem8_cases barNumber) as [[B C] | [B C]].
  - destruct (Z.ltb_spec (Z.rem barNumber 8) 0) as [H | H]; [lia |].
    destruct (lookup_lt_is_Some_2 (AudioEngine.genre_chords g)
                (Z.to_nat (Z.rem barNumber 8)) ltac:(rewrite L; lia)) as [r ->].
    split; [discriminate | lia].
  - destruct (Z.ltb_spec (Z.rem barNumber 8) 0) as [H | H]; [| lia].
    split; [lia | reflexivity].
Qed.

Lemma playNote_outcome (render : AudioEngine.Channel -> nat -> nat)
    (beat barNumber : Z) (accuracy : BeatTracker.Accuracy)
    (e : AudioEngine.t) (c : Clock) :
  (AudioEngine.playNote render beat barNumber accuracy e c = None
   <-> AudioEngine.isInitialized e = true
       /\ barNumber < 0 /\ Z.rem barNumber 8 <> 0)
  /\ (AudioEngine.isInitialized e = false ->
      AudioEngine.playNote render beat barNumber accuracy e c = Some (None, e))
  /\ (forall r e',
        AudioEngine.playNote render beat barNumber accuracy e c = Some (r, e') ->
        AudioEngine.isInitialized e = true -> r = Some (beat, barNumber)).
Proof.
  pose proof (root_for_bar_defined (AudioEngine.genre e) barNumber) as D.
  unfold root_for_bar in D. unfold AudioEngine.playNote.
  destruct (AudioEngine.isInitialized e); simpl.
  - destruct (AudioEngine.chord_at _ _) as [root |].
    + split; [| split].
      * split; [discriminate |]. intros (_ & H). apply D in H. discriminate H.
      * discriminate.
      * intros r e' H _. now injection H as <- _.
    + split; [| split].
      * split; [| reflexivity]. intros _. split; [reflexivity |]. now apply D.
      * discriminate.
      * discriminate.
  - split; [| split].
    + split; [discriminate |]. intros (H & _). discriminate H.
    + reflexivity.
    + discriminate.
Qed.

(** [playNote] throws (reading [root] of an undefined chord) exactly when
    the engine is initialized and the bar number is negative and not a
    multiple of 8, whatever the beat, the accuracy and the genre.  So a
    hit whose timing result has such a bar number, as
    [Math.floor(nearestBeatIndex / 4)] is for a negative index, makes the
    note handler throw; an engine that is not initialized returns [null]
    for every bar. *)
Theorem playNote_throws_iff (render : AudioEngine.Channel -> nat -> nat)
    (beat barNumber : Z) (accuracy : BeatTracker.Accuracy)
    (e : AudioEngine.t) (c : Clock) :
  (AudioEngine.playNote render beat barNumber accuracy e c = None
   <-> AudioEngine.isInitialized e = true
       /\ barNumber < 0 /\ Z.rem barNumber 8 <> 0)
  /\ (AudioEngine.isInitialized e = false ->
      AudioEngine.playNote render beat barNumber accuracy e c = Some (None, e))
  /\ (forall r e',
        AudioEngine.playNote render beat barNumber accuracy e c = Some (r, e') ->
        AudioEngine.isInitialized e = true -> r = Some (beat, barNumber)).
Proof. exact (playNote_outcome render beat barNumber accuracy e c). Qed.

(** The chord tables are read with period 8: for a bar number that is not
    negative the chord is defined, in every genre and in
    [getChordForBar], and it is the chord of the bar eight bars later; a
    chord lasts two bars. *)
Theorem chords_cycle (g : AudioEngine.GenreId) (barNumber : Z) :
  0 <= barNumber ->
  is_Some (root_for_bar g barNumber)
  /\ is_Some (getChordForBar barNumber)
  /\ root_for_bar g (barNumber + 8) = root_for_bar g barNumber
  /\ getChordForBar (barNumber + 8) = getChordForBar barNumber
  /\ (Z.even barNumber = true ->
      root_for_bar g (barNumber + 1) = root_for_bar g barNumber
      /\ getChordForBar (barNumber + 1) = getChordForBar barNumber).
Proof.
  intros H.
  assert (length (AudioEngine.genre_chords g) = 8%nat) as L
    by (destruct g; reflexivity).
  unfold root_for_bar, getChordForBar, AudioEngine.chord_at, JS.rem.
  rewrite L. change (Z.of_nat (length CHORD_PROGRESSIONS)) with 8.
  change (Z.of_nat 8) with 8.
  rewrite !Z.rem_mod_nonneg by lia.
  assert ((barNumber + 8) mod 8 = barNumber mod 8) as ->.
  { rewrite <- (Z.mul_1_l 8) at 1. apply Z.mod_add. lia. }
  pose proof (Z.mod_pos_bound barNumber 8 ltac:(lia)) as B.
  pose proof (Z.mod_pos_bound (barNumber + 1) 8 ltac:(lia)) as B1.
  destruct (Z.ltb_spec (barNumber mod 8) 0) as [N | _]; [lia |].
  destruct (Z.ltb_spec ((barNumber + 1) mod 8) 0) as [N | _]; [lia |].
  split; [apply lookup_lt_is_Some; rewrite L; lia |].
  split; [apply lookup_lt_is_Some; simpl; lia |].
  split; [reflexivity |]. split; [reflexivity |].
  intros Ev.
  assert (exists k, 0 <= k < 4 /\ barNumber mod 8 = 2 * k
                    /\ (barNumber + 1) mod 8 = 2 * k + 1) as (k & Hk & E0 & E1).
  { apply Z.even_spec in Ev. destruct Ev as [m ->].
    exists (m mod 4).
    pose proof (Z.mod_pos_bound m 4 ltac:(lia)) as Bm.
    assert ((2 * m) mod 8 = 2 * (m mod 4)) as E.
    { change 8 with (2 * 4). rewrite Z.mul_mod_distr_l by lia. reflexivity. }
    split; [lia |]. split; [exact E |].
    rewrite (Z.div_mod m 4) at 1 by lia.
    replace (2 * (4 * (m / 4) + m mod 4) + 1)
      with ((2 * (m mod 4) + 1) + (m / 4) * 8) by lia.
    rewrite Z.mod_add by lia. apply Z.mod_small. lia. }
  rewrite E0, E1.
  assert (k = 0 \/ k = 1 \/ k = 2 \/ k = 3) as [-> | [-> | [-> | ->]]] by lia;
    destruct g; split; reflexivity.
Qed.

Lemma chords_cycle_witness :
  root_for_bar AudioEngine.house 13 = root_for_bar AudioEngine.house 5.
Proof.
  destruct (chords_cycle AudioEngine.house 5 ltac:(lia)) as (_ & _ & H & _).
  exact H.
Defined.

End Chords.

(** * Further properties of the audio engine *)
Module EngineFacts.
Import AudioEngine.
Import LoopLifecycle.

Lemma stopLoop_frame (ch : Channel) (e : t) :
  isDrumsPlaying (stopLoop ch e) = isDrumsPlaying e
  /\ schedulerTimerId (stopLoop ch e) = schedulerTimerId e
  /\ nextLoopTime (stopLoop ch e) = nextLoopTime e
  /\ beatDuration (stopLoop ch e) = beatDuration e
  /\ scheduleAheadTime (stopLoop ch e) = scheduleAheadTime e
  /\ bpm (stopLoop ch e) = bpm e /\ genre (stopLoop ch e) = genre e
  /\ isInitialized (stopLoop ch e) = isInitialized e
  /\ timers (stopLoop ch e) = timers e.
Proof.
  unfold stopLoop. destruct (activeLoops e !! ch); simpl; repeat split.
Qed.

(** An engine with no loop, no drums and no timer is left as it is by
    [stopAll]. *)
Lemma stopAll_silent (e : t) :
  activeLoops e = ∅ -> isDrumsPlaying e = false -> schedulerTimerId e = None ->
  stopAll e = e.
Proof.
  destruct e as [i m b d tid nx ah lk dp g cr rn st tm]. simpl.
  intros -> -> ->.
  unfold stopAll, stopContinuousDrums, stopLoop. simpl.
  rewrite lookup_empty. simpl.
  unfold all_sources. rewrite map_to_list_empty. simpl.
  unfold loop_stop, set_loops, set_stopped. simpl.
  f_equal. apply (right_id_L ∅ (∪)).
Qed.

Lemma stopContinuousDrums_effect (e : t) :
  isDrumsPlaying (stopContinuousDrums e) = false
  /\ schedulerTimerId (stopContinuousDrums e) = None
  /\ activeLoops (stopContinuousDrums e) = delete Drums (activeLoops e)
  /\ stopped e ⊆ stopped (stopContinuousDrums e)
  /\ rendered (stopContinuousDrums e) = rendered e
  /\ created (stopContinuousDrums e) = created e
  /\ (forall loop,
        activeLoops e !! Drums = Some loop ->
        cancelled (stopContinuousDrums e) loop)
  /\ (activeLoops e !! Drums = None ->
      stopped (stopContinuousDrums e) = stopped e).
Proof.
  unfold stopContinuousDrums.
  set (e2 := set_timer None (timers (set_isDrumsPlaying false e))
               (set_isDrumsPlaying false e)).
  destruct (stopLoop_frame Drums e2) as (F1 & F2 & _).
  destruct (stopLoop_map Drums e2) as (M1 & M2 & M3 & M4).
  rewrite F1, F2, M1, M3, M4. repeat split; auto.
  - intros loop H. now destruct (stopLoop_cancels Drums e2 loop H).
  - intros H. unfold stopLoop. change (activeLoops e2) with (activeLoops e).
    now rewrite H.
Qed.

Section WithRender.

Variable render : Channel -> nat -> nat.

Lemma stopAll_effect (e : t) :
  activeLoops (stopAll e) = ∅
  /\ isDrumsPlaying (stopAll e) = false
  /\ schedulerTimerId (stopAll e) = None
  /\ (forall ch loop, activeLoops e !! ch = Some loop -> cancelled (stopAll e) loop)
  /\ stopped e ⊆ stopped (stopAll e)
  /\ rendered (stopAll e) = rendered e
  /\ (forall fuel c, scheduler render fuel (stopAll e) c = Some (stopAll e))
  /\ stopAll (stopAll e) = stopAll e.
Proof.
  destruct (stopContinuousDrums_effect e) as (Hd & Ht & Hm & Hs & Hr & _ & Hc & _).
  assert (isDrumsPlaying (stopAll e) = false) as Hd' by exact Hd.
  assert (schedulerTimerId (stopAll e) = None) as Ht' by exact Ht.
  split; [reflexivity |]. split; [exact Hd' |]. split; [exact Ht' |].
  split; [| split; [| split; [| split]]].
  - intros ch loop H id Hid.
    change (id ∈ stopped (stopContinuousDrums e)
                 ∪ list_to_set (all_sources (activeLoops (stopContinuousDrums e)))).
    destruct (decide (ch = Drums)) as [-> | N].
    + apply elem_of_union_l. exact (Hc loop H id Hid).
    + apply elem_of_union_r, elem_of_list_to_set, all_sources_spec.
      exists ch, loop. split; [| exact Hid].
      rewrite Hm. now rewrite lookup_delete_ne.
  - change (stopped e
            ⊆ stopped (stopContinuousDrums e)
              ∪ list_to_set (all_sources (activeLoops (stopContinuousDrums e)))).
    set_solver.
  - exact Hr.
  - intros fuel c. unfold scheduler. now rewrite Hd'.
  - now apply stopAll_silent.
Qed.

(** [stopAll] leaves no loop in the map, stops the drum scheduler and
    drops its timer; every loop the map held, drums included, has all its
    sources stopped, and no source that was stopped is revived.  A
    scheduler pass that fires afterwards does nothing, and a second
    [stopAll] changes nothing. *)
Theorem stopAll_silences (e : t) :
  activeLoops (stopAll e) = ∅
  /\ isDrumsPlaying (stopAll e) = false
  /\ schedulerTimerId (stopAll e) = None
  /\ (forall ch loop, activeLoops e !! ch = Some loop -> cancelled (stopAll e) loop)
  /\ stopped e ⊆ stopped (stopAll e)
  /\ rendered (stopAll e) = rendered e
  /\ (forall fuel c, scheduler render fuel (stopAll e) c = Some (stopAll e))
  /\ stopAll (stopAll e) = stopAll e.
Proof. exact (stopAll_effect e). Qed.

Lemma stopInstruments_effect (e : t) :
  activeLoops (stopInstruments e) !! Drums = activeLoops e !! Drums
  /\ (forall b, activeLoops (stopInstruments e) !! Beat b = None)
  /\ (forall id,
        id ∈ stopped (stopInstruments e)
        <-> id ∈ stopped e
            \/ exists b loop, activeLoops e !! Beat b = Some loop /\ id ∈ loop)
  /\ isDrumsPlaying (stopInstruments e) = isDrumsPlaying e
  /\ schedulerTimerId (stopInstruments e) = schedulerTimerId e
  /\ nextLoopTime (stopInstruments e) = nextLoopTime e
  /\ rendered (stopInstruments e) = rendered e.
Proof.
  unfold stopInstruments. simpl.
  split; [| split; [| split; [| split; [| split; [| split]]]]];
    try reflexivity.
  - destruct (activeLoops e !! Drums) as [loop |] eqn:E.
    + apply map_lookup_filter_Some. auto.
    + apply map_lookup_filter_None. left. exact E.
  - intros b. apply map_lookup_filter_None. right. intros loop _. simpl.
    discriminate.
  - intros id. rewrite elem_of_union, elem_of_list_to_set, all_sources_spec.
    split; (intros [H | H]; [now left | right]).
    + destruct H as (ch & loop & Hm & Hid).
      apply map_lookup_filter_Some in Hm. destruct Hm as [Hm Hch]. simpl in Hch.
      destruct ch as [b |]; [eauto | congruence].
    + destruct H as (b & loop & Hm & Hid). exists (Beat b), loop.
      split; [| exact Hid]. apply map_lookup_filter_Some. split; [exact Hm |].
      simpl. discriminate.
Qed.

(** [stopInstruments] keeps the drums: the map entry for ['drums'], the
    drum scheduler, its timer and its next measure are untouched.  Every
    other entry is removed from the map, and the sources stopped are
    those stopped before and those of the removed loops, no others. *)
Theorem stopInstruments_keeps_drums (e : t) :
  activeLoops (stopInstruments e) !! Drums = activeLoops e !! Drums
  /\ (forall b, activeLoops (stopInstruments e) !! Beat b = None)
  /\ (forall id,
        id ∈ stopped (stopInstruments e)
        <-> id ∈ stopped e
            \/ exists b loop, activeLoops e !! Beat b = Some loop /\ id ∈ loop)
  /\ isDrumsPlaying (stopInstruments e) = isDrumsPlaying e
  /\ schedulerTimerId (stopInstruments e) = schedulerTimerId e
  /\ nextLoopTime (stopInstruments e) = nextLoopTime e
  /\ rendered (stopInstruments e) = rendered e.
Proof. exact (stopInstruments_effect e). Qed.

(** In every state the engine reaches, [stopAll] and [stopInstruments]
    leave no group live on any beat channel: every source of every group
    ever rendered for a beat has been stopped. *)
Theorem no_beat_group_survives (e : t) :
  reachable render e ->
  (forall g b,
      g ∈ rendered e -> channel g = Beat b ->
      cancelled (stopAll e) (members g)
      /\ cancelled (stopInstruments e) (members g))
  /\ reachable render (stopAll e)
  /\ reachable render (stopInstruments e).
Proof.
  intros R.
  pose proof (reachable_step render e _ R (step_stopAll render e)) as Ra.
  pose proof (reachable_step render e _ R (step_stopInstruments render e)) as Ri.
  split; [| split; [exact Ra | exact Ri]].
  assert (forall e' g b,
             Inv e' -> (forall b', activeLoops e' !! Beat b' = None) ->
             g ∈ rendered e' -> channel g = Beat b ->
             cancelled e' (members g)) as H.
  { intros e' g b I N Hg Hc id Hid.
    destruct (decide (id ∈ stopped e')) as [Y | Y]; [exact Y |].
    pose proof (inv_live e' I g b Hg Hc (ex_intro _ id (conj Hid Y))) as L.
    rewrite N in L. discriminate L. }
  intros g b Hg Hc. split.
  - apply (H (stopAll e) g b (reachable_Inv render _ Ra)); auto.
    destruct (stopAll_effect e) as (_ & _ & _ & _ & _ & Er & _).
    rewrite Er. exact Hg.
  - destruct (stopInstruments_effect e) as (_ & N & _ & _ & _ & _ & Er).
    apply (H (stopInstruments e) g b (reachable_Inv render _ Ri) N); auto.
Qed.

(** A pass that returns has run some number of iterations of the loop
    body and left [nextLoopTime] at or beyond the end of its window. *)
Lemma scheduler_loop_result (c : Clock) (fuel : nat) :
  forall e e',
    isDrumsPlaying e = true ->
    scheduler_loop render fuel e c = Some e' ->
    exists k,
      e' = Scheduler.iterate render c k e
      /\ (currentTime c + scheduleAheadTime e <= nextLoopTime e')%Q.
Proof.
  induction fuel as [| fuel IH]; intros e e' P H; simpl in H;
    destruct (JS.lt _ _) eqn:L; try discriminate H.
  - injection H as <-. exists 0%nat. split; [reflexivity |].
    now apply JSFacts.lt_false.
  - fold (Scheduler.body render c e) in H.
    destruct (Scheduler.body_frame render c e P) as (_ & _ & Bs & _).
    assert (isDrumsPlaying (Scheduler.body render c e) = true) as Pb
      by (rewrite (Scheduler.body_playing render c e P); reflexivity).
    destruct (IH (Scheduler.body render c e) e' Pb H) as (k & -> & Hk).
    exists (S k). split; [reflexivity |]. now rewrite <- Bs.
  - injection H as <-. exists 0%nat. split; [reflexivity |].
    now apply JSFacts.lt_false.
Qed.

(** What the lookahead buys.  When a pass comes no later than the window
    of the pass before it reached (that is, within [scheduleAheadTime] of
    it, as a 25 ms timer does for a 100 ms window), every drum loop it
    schedules starts at or after the time of the pass: none is scheduled
    late. *)
Theorem pass_on_time_schedules_ahead (c1 c2 : Clock) (fuel1 fuel2 : nat)
    (e0 e1 e2 : t) :
  isDrumsPlaying e0 = true -> (0 < beatDuration e0)%Q ->
  scheduler render fuel1 e0 c1 = Some e1 ->
  scheduler render fuel2 e1 c2 = Some e2 ->
  (currentTime c2 <= currentTime c1 + scheduleAheadTime e0)%Q ->
  exists new,
    rendered e2 = rendered e1 ++ new
    /\ Forall (fun g => channel g = Drums /\ (currentTime c2 <= startAt g)%Q) new
    /\ (currentTime c2 + scheduleAheadTime e0 <= nextLoopTime e2)%Q.
Proof.
  intros P Hb H1 H2 Hc.
  unfold scheduler in H1. rewrite P in H1. simpl in H1.
  destruct (scheduler_loop render fuel1 e0 c1) as [a |] eqn:L1; [| discriminate H1].
  injection H1 as <-.
  destruct (scheduler_loop_result c1 fuel1 e0 a P L1) as (k1 & -> & N1).
  destruct (Scheduler.iterate_effect render c1 k1 e0 P)
    as (_ & _ & _ & _ & _ & _ & Bd1 & Sa1 & P1 & _).
  set (a := Scheduler.iterate render c1 k1 e0) in *.
  unfold scheduler in H2. simpl in H2. rewrite P1 in H2. simpl in H2.
  destruct (scheduler_loop render fuel2 _ c2) as [b |] eqn:L2; [| discriminate H2].
  injection H2 as <-.
  set (e1 := set_timer (Some (S (timers a))) (S (timers a)) a) in *.
  destruct (scheduler_loop_result c2 fuel2 e1 b P1 L2) as (k2 & -> & N2).
  destruct (Scheduler.iterate_effect render c2 k2 e1 P1)
    as (new & Hr & _ & Hch & Ht & _).
  exists new. simpl. split; [exact Hr |]. split.
  - apply Forall_lookup_2. intros i g Hi. split.
    + exact (Forall_lookup_1 _ _ _ _ Hch Hi).
    + rewrite (Ht i g Hi). unfold Scheduler.due_time, Scheduler.measure. simpl.
      rewrite Bd1.
      assert (0 <= inject_Z (Z.of_nat i) * (beatDuration e0 * 4))%Q.
      { apply Qmult_le_0_compat; [| lra].
        change 0%Q with (inject_Z 0). rewrite <- Zle_Qle. lia. }
      lra.
  - simpl in N2. rewrite Sa1 in N2. exact N2.
Qed.

Lemma startContinuousDrums_effect (e : t) (c : Clock) (fuel : nat) :
  (0 < scheduleAheadTime e)%Q -> (scheduleAheadTime e <= beatDuration e * 4)%Q ->
  (1 <= fuel)%nat ->
  (isDrumsPlaying e = true -> startContinuousDrums render fuel e c = Some e)
  /\ (isDrumsPlaying e = false ->
      exists e',
        startContinuousDrums render fuel e c = Some e'
        /\ rendered e'
           = rendered e
             ++ [mkGroup Drums (currentTime c)
                   (seq (created e) (render Drums (created e))) None false]
        /\ activeLoops e'
           = <[Drums := seq (created e) (render Drums (created e))]> (activeLoops e)
        /\ nextLoopTime e' = (currentTime c + beatDuration e * 4)%Q
        /\ isDrumsPlaying e' = true
        /\ is_Some (schedulerTimerId e')
        /\ stopped e' = stopped e
        /\ beatDuration e' = beatDuration e
        /\ scheduleAheadTime e' = scheduleAheadTime e
        /\ bpm e' = bpm e /\ genre e' = genre e
        /\ isInitialized e' = isInitialized e).
Proof.
  intros Ha Hm Hf. unfold startContinuousDrums. split; intros P; rewrite P;
    [reflexivity |].
  set (e1 := set_nextLoopTime (currentTime c) (set_isDrumsPlaying true e)).
  assert (isDrumsPlaying e1 = true) as P1 by reflexivity.
  assert (scheduler_loop render fuel e1 c = Some (Scheduler.iterate render c 1 e1))
    as L.
  { apply Scheduler.loop_runs; [exact P1 | | | exact Hf].
    - intros i Hi. assert (i = 0%nat) as -> by lia.
      apply Scheduler.due_first. simpl. lra.
    - unfold Scheduler.due, Scheduler.due_time, Scheduler.measure,
        Scheduler.horizon. simpl. change (inject_Z (Z.of_nat 1)) with 1%Q.
      lra. }
  unfold scheduler. rewrite P1. simpl. rewrite L.
  eexists. split; [reflexivity |].
  change (Scheduler.iterate render c 1 e1) with (Scheduler.body render c e1).
  rewrite (Scheduler.body_playing render c e1 P1). simpl.
  repeat split; eauto.
Qed.


(** Changing the genre.  On an engine with the 100 ms window, for every
    genre, [setGenre] returns (one unit of fuel is enough) with the tempo
    and the beat duration of the genre.  When the drums are playing it
    restarts them: it stops every source of the drum loop the map holds
    and schedules exactly one drum loop, at the current audio time, the
    next one a measure of the new tempo later.  When they are not, it
    renders and stops nothing. *)
Theorem setGenre_restarts_drums (g : GenreId) (e : t) (c : Clock) (fuel : nat) :
  scheduleAheadTime e = (1 # 10)%Q -> (1 <= fuel)%nat ->
  exists e',
    setGenre render fuel g e c = Some e'
    /\ bpm e' = genre_bpm g /\ beatDuration e' = (60 / genre_bpm g)%Q
    /\ genre e' = g /\ isDrumsPlaying e' = isDrumsPlaying e
    /\ (isDrumsPlaying e = true ->
        (forall loop, activeLoops e !! Drums = Some loop -> cancelled e' loop)
        /\ rendered e'
           = rendered e
             ++ [mkGroup Drums (currentTime c)
                   (seq (created e) (render Drums (created e))) None false]
        /\ nextLoopTime e' = (currentTime c + 60 / genre_bpm g * 4)%Q)
    /\ (isDrumsPlaying e = false ->
        rendered e' = rendered e /\ activeLoops e' = activeLoops e
        /\ stopped e' = stopped e).
Proof.
  intros Ha Hf. unfold setGenre.
  set (e1 := set_tempo g (genre_bpm g) e).
  change (isDrumsPlaying e1) with (isDrumsPlaying e).
  destruct (isDrumsPlaying e) eqn:P.
  - destruct (stopContinuousDrums_effect e1)
      as (Sd & St & Sm & Ss & Sr & Sc & Scan & _).
    destruct (stopLoop_frame Drums
                (set_timer None (timers (set_isDrumsPlaying false e1))
                   (set_isDrumsPlaying false e1)))
      as (_ & _ & _ & Fb & Fa & Fp & Fg & _).
    fold (stopContinuousDrums e1) in Fb, Fa, Fp, Fg. simpl in Fb, Fa, Fp, Fg.
    destruct (startContinuousDrums_effect (stopContinuousDrums e1) c fuel) as [_ H].
    + rewrite Fa, Ha. reflexivity.
    + rewrite Fa, Fb, Ha. destruct g; vm_compute; discriminate.
    + exact Hf.
    + destruct (H Sd)
        as (e' & E & Er & Em & En & Ep & Et & Es & Eb & Eah & Hbpm & Hgen & _).
      rewrite Fp in Hbpm. rewrite Fg in Hgen.
      exists e'. split; [exact E |].
      split; [exact Hbpm |]. split; [now rewrite Eb, Fb |].
      split; [exact Hgen |]. split; [exact Ep |].
      split; [| discriminate].
      intros _. split; [| split].
      * intros loop Hl id Hid. rewrite Es. exact (Scan loop Hl id Hid).
      * rewrite Er, Sr, Sc. reflexivity.
      * rewrite En, Fb. reflexivity.
  - exists e1. repeat split; auto; discriminate.
Qed.

End WithRender.

(** After a hit on beat 1, [stopAll] stops both sources of its loop. *)
Lemma no_beat_group_survives_witness :
  cancelled (stopAll first_hit) [0; 1]%nat.
Proof.
  destruct (no_beat_group_survives two first_hit reachable_first_hit)
    as (H & _).
  destruct (H (mkGroup (Beat 1) 1 [0; 1]%nat (Some (440%Q, 0)) false) 1) as [K _].
  - apply list_elem_of_In. left. reflexivity.
  - reflexivity.
  - exact K.
Defined.

(** The state a pass leaves, [e] if it does not return. *)
Definition pass (fuel : nat) (e : t) (c : Clock) : t :=
  match scheduler two fuel e c with
  | Some e' => e'
  | None => e
  end.

(** An engine whose drums play at 100 BPM, next measure due at 0.11 s. *)
Definition waiting_engine : t :=
  set_nextLoopTime (11 # 100) (set_isDrumsPlaying true (initialize constructor)).

(** A pass at 0 s finds nothing due within its 100 ms window.  The pass
    50 ms later schedules the measure due at 0.11 s, ahead of its own time,
    and leaves the next one at 2.51 s, beyond its window. *)
Lemma pass_on_time_schedules_ahead_witness :
  rendered (pass 3 waiting_engine (mkClock 0 0)) = []
  /\ map (fun g => Qred (startAt g))
       (rendered (pass 3 (pass 3 waiting_engine (mkClock 0 0))
                    (mkClock (5 # 100) 0)))
     = [(11 # 100)%Q]
  /\ exists new,
       rendered (pass 3 (pass 3 waiting_engine (mkClock 0 0))
                   (mkClock (5 # 100) 0))
       = rendered (pass 3 waiting_engine (mkClock 0 0)) ++ new
       /\ Forall (fun g => channel g = Drums /\ (5 # 100 <= startAt g)%Q) new
       /\ ((5 # 100) + scheduleAheadTime waiting_engine
           <= nextLoopTime (pass 3 (pass 3 waiting_engine (mkClock 0 0))
                              (mkClock (5 # 100) 0)))%Q.
Proof.
  split; [reflexivity |]. split; [reflexivity |].
  exact (pass_on_time_schedules_ahead two (mkClock 0 0) (mkClock (5 # 100) 0)
           3 3 waiting_engine
           (pass 3 waiting_engine (mkClock 0 0))
           (pass 3 (pass 3 waiting_engine (mkClock 0 0)) (mkClock (5 # 100) 0))
           eq_refl eq_refl eq_refl eq_refl
           ltac:(vm_compute; discriminate)).
Defined.


(** Switching a playing engine to the 128 BPM genre, after a first pass
    has scheduled the drum loop with sources 0 and 1: both are stopped,
    the beat duration becomes 60 / 128 s and the next measure is due
    1.875 s after the restart. *)
Lemma setGenre_restarts_drums_witness :
  activeLoops (pass 3 Scheduler.playing_engine (mkClock 0 0)) !! Drums
  = Some [0; 1]%nat
  /\ exists e',
       setGenre two 1 house (pass 3 Scheduler.playing_engine (mkClock 0 0))
         (mkClock 3 0) = Some e'
       /\ beatDuration e' = (60 / 128)%Q
       /\ nextLoopTime e' = (3 + 60 / 128 * 4)%Q
       /\ cancelled e' [0; 1]%nat.
Proof.
  split; [reflexivity |].
  destruct (setGenre_restarts_drums two house
              (pass 3 Scheduler.playing_engine (mkClock 0 0))
              (mkClock 3 0) 1 eq_refl (le_n 1))
    as (e' & E & _ & B & _ & _ & H & _).
  destruct (H eq_refl) as (C & _ & N).
  exists e'. split; [exact E |]. split; [exact B |]. split; [exact N |].
  exact (C [0; 1]%nat eq_refl).
Defined.

End EngineFacts.

(** * VisualEngine.js: what a hit triggers

    The canvas is kept opaque: an animation is its class, colour and
    variant (its geometry and its frames are not modelled). *)
Module VisualEngine.

(** The five animation classes. *)
Inductive Shape := Circle | Line | Wave | Particles | Spiral.

Record Animation := mkAnimation {
  kind : Shape;
  color : string;
  isDissonant : bool
}.

(** An entry of [activeInstruments]. *)
Record ActiveInstrument := mkActive {
  name : string;
  activeColor : string;
  startTime : Q;
  duration : Q
}.

(** The [hitFeedback] object. *)
Record HitFeedback := mkFeedback {
  text : string;
  feedbackColor : string;
  streak : Z;
  feedbackStart : Q;
  feedbackDuration : Q
}.

(** The fields of a [VisualEngine] that a hit writes; [glitchEffect] holds
    the start time and the duration. *)
Record t := mk {
  animations : list Animation;
  glitchEffect : option (Q * Q);
  hitFeedback : option HitFeedback;
  activeInstruments : gmap Z ActiveInstrument
}.

(** The fields as the constructor leaves them. *)
Definition constructor : t :=
  {| animations := []; glitchEffect := None; hitFeedback := None;
     activeInstruments := ∅ |}.

(** [this.animations.push(new ...Animation(..., color, isDissonant))]. *)
Definition push (k : Shape) (col : string) (dis : bool) (v : t) : t :=
  mk (animations v ++ [mkAnimation k col dis]) (glitchEffect v) (hitFeedback v)
     (activeInstruments v).

(** [triggerGlitch()]. *)
Definition triggerGlitch (v : t) (c : Clock) : t :=
  mk (animations v) (Some (performance_now c, 150%Q)) (hitFeedback v)
     (activeInstruments v).

(** The [switch (instrument.shape)] of [triggerVisual]. *)
Definition add_for_shape (shape col : string) (dis : bool) (v : t) : t :=
  if String.eqb shape "circle" then push Circle col dis v
  else if String.eqb shape "line" then push Line col dis v
  else if String.eqb shape "wave" then push Wave col dis v
  else if String.eqb shape "particles" then push Particles col dis v
  else if String.eqb shape "spiral" then push Spiral col dis v
  else v.

(** [triggerVisual(beat, accuracy)]. *)
Definition triggerVisual (beat : Z) (accuracy : BeatTracker.Accuracy)
    (v : t) (c : Clock) : t :=
  match Instruments.find_by_beat (Instruments.Num (inject_Z beat)) with
  | None => v
  | Some instrument =>
      let dis := match accuracy with BeatTracker.off => true | _ => false end in
      let v1 :=
        mk (animations v) (glitchEffect v) (hitFeedback v)
           (<[beat := mkActive (Instruments.name instrument)
                        (Instruments.color instrument) (performance_now c) 2400]>
              (activeInstruments v)) in
      let v2 :=
        add_for_shape (Instruments.shape instrument)
          (Instruments.color instrument) dis v1 in
      if dis then triggerGlitch v2 c else v2
  end.

(** [showHitFeedback(accuracy, streak)]. *)
Definition showHitFeedback (accuracy : BeatTracker.Accuracy) (n : Z)
    (v : t) (c : Clock) : t :=
  let '(txt, col) :=
    match accuracy with
    | BeatTracker.perfect => ("PERFECT", "#4ade80")
    | BeatTracker.good => ("GOOD", "#60a5fa")
    | BeatTracker.off => ("OFF", "#ef4444")
    end in
  mk (animations v) (glitchEffect v)
     (Some (mkFeedback txt col n (performance_now c) 500))
     (activeInstruments v).

End VisualEngine.

(** * main.js: the game coordinator

    The synchronous methods of [Game].  [startGame] awaits the audio
    initialisation and is not modelled. *)
Module Game.

Record t := mk {
  audioEngine : AudioEngine.t;
  visualEngine : VisualEngine.t;
  beatTracker : BeatTracker.t;
  inputHandler : InputHandler.t;
  isPlaying : bool;
  isPaused : bool;
  lastBeat : Z;
  metronomeEnabled : bool;
  score : Q;
  streak : Z;
  bestStreak : Z
}.

(** [new Game()], after [setupEventListeners] registered both callbacks. *)
Definition constructor : t :=
  {| audioEngine := AudioEngine.constructor;
     visualEngine := VisualEngine.constructor;
     beatTracker := BeatTracker.constructor 100;
     inputHandler :=
       InputHandler.mk true true false None 0%Q 100%Q false;
     isPlaying := false; isPaused := false; lastBeat := 0;
     metronomeEnabled := true; score := 0%Q; streak := 0; bestStreak := 0 |}.

(** [Math.max(a, b)]. *)
Definition Math_max (a b : Q) : Q := if Qle_bool a b then b else a.

(** The score and the streak after a hit of the given accuracy, before
    the score is rounded. *)
Definition scored (accuracy : BeatTracker.Accuracy) (sc : Q) (st : Z) : Q * Z :=
  match accuracy with
  | BeatTracker.perfect =>
      ((sc + 100 * (1 + inject_Z st * (1 # 10)))%Q, st + 1)
  | BeatTracker.good =>
      ((sc + 50 * (1 + inject_Z st * (5 # 100)))%Q, st + 1)
  | BeatTracker.off => (Math_max 0 (sc - 25)%Q, 0)
  end.

Section WithRender.

Variable render : AudioEngine.Channel -> nat -> nat.

(** [handleNoteStart(timestamp)]: the new state, and whether [playNote]
    threw (the visual feedback is then not reached).  The hold duration
    it computes is passed to [playNote], which does not read it. *)
Definition handleNoteStart (timestamp : Q) (g : t) (c : Clock) : t * bool :=
  let timing := BeatTracker.evaluateTiming (beatTracker g) c timestamp in
  let accuracy := BeatTracker.Timing.accuracy timing in
  let '(sc, st) := scored accuracy (score g) (streak g) in
  let best := if bestStreak g <? st then st else bestStreak g in
  let sc' := inject_Z (JS.Math_round sc) in
  match
    AudioEngine.playNote render (BeatTracker.Timing.nearestBeat timing)
      (BeatTracker.Timing.barNumber timing) accuracy (audioEngine g) c
  with
  | None =>
      (mk (audioEngine g) (visualEngine g) (beatTracker g) (inputHandler g)
          (isPlaying g) (isPaused g) (lastBeat g) (metronomeEnabled g)
          sc' st best, true)
  | Some (_, engine) =>
      let v1 :=
        VisualEngine.triggerVisual (BeatTracker.Timing.nearestBeat timing)
          accuracy (visualEngine g) c in
      let v2 := VisualEngine.showHitFeedback accuracy st v1 c in
      (mk engine v2 (beatTracker g) (inputHandler g)
          (isPlaying g) (isPaused g) (lastBeat g) (metronomeEnabled g)
          sc' st best, false)
  end.

End WithRender.

(** [togglePause()]. *)
Definition togglePause (g : t) (c : Clock) : t :=
  if negb (isPlaying g) then g
  else if negb (isPaused g) then
    mk (AudioEngine.stopAll (audioEngine g)) (visualEngine g)
       (BeatTracker.pause (beatTracker g) c)
       (InputHandler.stop (inputHandler g))
       (isPlaying g) true (lastBeat g) (metronomeEnabled g)
       (score g) (streak g) (bestStreak g)
  else
    mk (audioEngine g) (visualEngine g)
       (BeatTracker.resume (beatTracker g) c)
       (InputHandler.start (inputHandler g))
       (isPlaying g) false (lastBeat g) (metronomeEnabled g)
       (score g) (streak g) (bestStreak g).

(** [goHome()]. *)
Definition goHome (g : t) : t :=
  if negb (isPlaying g) then g
  else
    mk (AudioEngine.stopInstruments (audioEngine g)) (visualEngine g)
       (BeatTracker.stop (beatTracker g))
       (InputHandler.stop (inputHandler g))
       false false (lastBeat g) (metronomeEnabled g)
       0%Q 0 (bestStreak g).

(** [toggleMetronome()]: the new state and the returned flag. *)
Definition toggleMetronome (g : t) : t * bool :=
  (mk (audioEngine g) (visualEngine g) (beatTracker g) (inputHandler g)
      (isPlaying g) (isPaused g) (lastBeat g) (negb (metronomeEnabled g))
      (score g) (streak g) (bestStreak g),
   negb (metronomeEnabled g)).

(** [setBPM(bpm)]. *)
Definition setBPM (b : Q) (g : t) : t :=
  mk (audioEngine g) (visualEngine g) (BeatTracker.setBPM b (beatTracker g))
     (inputHandler g) (isPlaying g) (isPaused g) (lastBeat g)
     (metronomeEnabled g) (score g) (streak g) (bestStreak g).

(** One frame of the render loop, without the drawing: the metronome
    click it asks of the engine, as the audio time and the downbeat flag
    of [playMetronomeClick], which plays nothing before the engine is
    initialised. *)
Definition frame (g : t) (c : Clock) : t * option (Q * bool) :=
  if isPlaying g && negb (isPaused g) && metronomeEnabled g then
    let beatInfo := BeatTracker.getCurrentBeatInfo (beatTracker g) c in
    let currentBeat :=
      JS.Math_floor (BeatTracker.BeatInfo.totalBeats beatInfo) in
    if currentBeat =? lastBeat g then (g, None)
    else
      let isDownbeat := JS.rem currentBeat 4 =? 0 in
      (mk (audioEngine g) (visualEngine g) (beatTracker g) (inputHandler g)
          (isPlaying g) (isPaused g) currentBeat (metronomeEnabled g)
          (score g) (streak g) (bestStreak g),
       if AudioEngine.isInitialized (audioEngine g)
       then Some (currentTime c, isDownbeat) else None)
  else (g, None).

(** The game with its input handler replaced. *)
Definition with_input (ih : InputHandler.t) (g : t) : t :=
  mk (audioEngine g) (visualEngine g) (beatTracker g) ih
     (isPlaying g) (isPaused g) (lastBeat g) (metronomeEnabled g)
     (score g) (streak g) (bestStreak g).

(** What the player and the page do to a game in play: a DOM event that
    reaches the input handler's listeners, a click on the pause button (or
    the Escape key), a click on the home button, the metronome switch, a
    change of tempo and an animation frame. *)
Inductive Action :=
| Input (ev : InputHandler.DomEvent) (c : Clock)
| Frame (c : Clock)
| Pause (c : Clock)
| Home
| Metronome
| Tempo (b : Q).

(** The [code] of a keyboard event, as far as the listeners tell them
    apart. *)
Inductive Key := Space | Enter | Escape | OtherKey.

(** Where a touch starts: on the start screen outside the genre buttons,
    on a genre button, or anywhere else. *)
Inductive Target := StartScreen | GenreButton | Elsewhere.

(** A keyboard or touch event on its way through the page. *)
Inductive DocEvent :=
| KeyDown (k : Key) (repeat : bool)
| KeyUp (k : Key)
| TouchStart (target : Target)
| TouchEnd.

(** The same event as the input handler's listeners read it. *)
Definition seen (ev : DocEvent) : InputHandler.DomEvent :=
  match ev with
  | KeyDown k repeat =>
      InputHandler.keydown (match k with Space => true | _ => false end) repeat
  | KeyUp k => InputHandler.keyup (match k with Space => true | _ => false end)
  | TouchStart _ => InputHandler.touchstart
  | TouchEnd => InputHandler.touchend
  end.

(** The events for which a listener of [setupEventListeners] calls
    [startGame()] when the game is not in play: Space or Enter going down,
    and a touch on the start screen outside the genre buttons. *)
Definition starts (ev : DocEvent) : bool :=
  match ev with
  | KeyDown Space _ | KeyDown Enter _ => true
  | TouchStart StartScreen => true
  | _ => false
  end.

(** What the listeners make of an event: the game they leave, or a call
    of [startGame()], which is asynchronous and not modelled. *)
Inductive Reaction :=
| Handled (g : t)
| StartsGame.

Section Session.

Variable render : AudioEngine.Channel -> nat -> nat.

(** The two callbacks registered by [setupEventListeners]: [onNoteStart]
    calls [handleNoteStart], [onNoteEnd] has an empty body. *)
Definition callback (cb : InputHandler.Callback) (g : t) (c : Clock) : t :=
  match cb with
  | InputHandler.NoteStart ts => fst (handleNoteStart render ts g c)
  | InputHandler.NoteEnd _ _ => g
  end.

(** A DOM event as the input handler's four listeners treat it, when they
    are attached: the handler updates its own fields, then invokes its
    callbacks.  The game's own listeners are in [document] below. *)
Definition input (ev : InputHandler.DomEvent) (g : t) (c : Clock) : t :=
  let '(ih, out) := InputHandler.dispatch ev (inputHandler g) c in
  fold_left (fun g' cb => callback cb g' c) out (with_input ih g).

(** A keyboard or touch event, through every listener the page has for
    it, in the order they were registered: the game's start listeners,
    the game's Escape listener, then the input handler's listeners.  A
    listener that [togglePause] attaches or detaches during the event
    reads an Escape key, which the input handler ignores either way. *)
Definition document (ev : DocEvent) (g : t) (c : Clock) : Reaction :=
  if negb (isPlaying g) && starts ev then StartsGame
  else
    let g1 :=
      match ev with
      | KeyDown Escape _ => if isPlaying g then togglePause g c else g
      | _ => g
      end in
    Handled (input (seen ev) g1 c).

Definition act (a : Action) (g : t) : t :=
  match a with
  | Input ev c => input ev g c
  | Frame c => fst (frame g c)
  | Pause c => togglePause g c
  | Home => goHome g
  | Metronome => fst (toggleMetronome g)
  | Tempo b => setBPM b g
  end.

Fixpoint session (acts : list Action) (g : t) : t :=
  match acts with
  | [] => g
  | a :: rest => session rest (act a g)
  end.

End Session.

End Game.

(** * Properties of the game coordinator *)
Module GameFacts.
Import Game.

(** The score is a whole number that is not negative, and the streak lies
    between 0 and the best streak. *)
Definition sound (g : t) : Prop :=
  (exists n : Z, 0 <= n /\ score g = inject_Z n)
  /\ 0 <= streak g <= bestStreak g.

Lemma Math_round_whole (x : Q) (n : Z) :
  (x == inject_Z n)%Q -> JS.Math_round x = n.
Proof. intros E. apply JSFacts.Math_round_unique; rewrite E; lra. Qed.

Section WithRender.

Variable render : AudioEngine.Channel -> nat -> nat.

(** The score fields after a hit do not depend on what [playNote] does. *)
Lemma handleNoteStart_score (ts : Q) (g : t) (c : Clock) :
  let accuracy :=
    BeatTracker.Timing.accuracy
      (BeatTracker.evaluateTiming (beatTracker g) c ts) in
  score (fst (handleNoteStart render ts g c))
  = inject_Z (JS.Math_round (fst (scored accuracy (score g) (streak g))))
  /\ streak (fst (handleNoteStart render ts g c))
     = snd (scored accuracy (score g) (streak g))
  /\ bestStreak (fst (handleNoteStart render ts g c))
     = Z.max (bestStreak g) (snd (scored accuracy (score g) (streak g)))
  /\ beatTracker (fst (handleNoteStart render ts g c)) = beatTracker g
  /\ inputHandler (fst (handleNoteStart render ts g c)) = inputHandler g
  /\ isPlaying (fst (handleNoteStart render ts g c)) = isPlaying g
  /\ isPaused (fst (handleNoteStart render ts g c)) = isPaused g.
Proof.
  cbv zeta. unfold handleNoteStart.
  destruct (scored _ (score g) (streak g)) as [sc st] eqn:E. simpl.
  assert ((if bestStreak g <? st then st else bestStreak g)
          = Z.max (bestStreak g) st) as M.
  { destruct (Z.ltb_spec (bestStreak g) st); lia. }
  destruct (AudioEngine.playNote _ _ _ _ _ _) as [[r e'] |]; simpl;
    rewrite M; repeat split.
Qed.

Lemma handleNoteStart_sound (ts : Q) (g : t) (c : Clock) :
  sound g ->
  let accuracy :=
    BeatTracker.Timing.accuracy
      (BeatTracker.evaluateTiming (beatTracker g) c ts) in
  let g' := fst (handleNoteStart render ts g c) in
  sound g'
  /\ bestStreak g <= bestStreak g'
  /\ (accuracy = BeatTracker.perfect ->
      (score g' == score g + 100 + 10 * inject_Z (streak g))%Q
      /\ streak g' = streak g + 1)
  /\ (accuracy = BeatTracker.good ->
      (score g + 50 <= score g')%Q /\ streak g' = streak g + 1)
  /\ (accuracy = BeatTracker.off ->
      (score g' == Math_max 0 (score g - 25))%Q
      /\ (score g' <= score g)%Q /\ streak g' = 0).
Proof.
  intros [(n & Hn & Es) Hst]. cbv zeta. unfold sound.
  destruct (handleNoteStart_score ts g c) as (Sc & St & Bs & _).
  cbv zeta in Sc, St, Bs. rewrite Sc, St, Bs, Es.
  assert (0 <= inject_Z n)%Q as Qn
    by (change 0%Q with (inject_Z 0); now rewrite <- Zle_Qle).
  assert (0 <= inject_Z (streak g))%Q as Qs
    by (change 0%Q with (inject_Z 0); rewrite <- Zle_Qle; lia).
  destruct (BeatTracker.Timing.accuracy _); unfold scored; simpl fst; simpl snd.
  - assert (JS.Math_round
              (inject_Z n + 100 * (1 + inject_Z (streak g) * (1 # 10)))
            = n + 100 + 10 * streak g) as R.
    { apply Math_round_whole.
      rewrite !inject_Z_plus, inject_Z_mult.
      change (inject_Z 100) with 100%Q. change (inject_Z 10) with 10%Q. ring. }
    rewrite R. split; [| split; [lia | split; [| split; discriminate]]].
    + split; [exists (n + 100 + 10 * streak g); split; [lia | reflexivity] | lia].
    + intros _. split; [| reflexivity].
      rewrite !inject_Z_plus, inject_Z_mult.
      change (inject_Z 100) with 100%Q. change (inject_Z 10) with 10%Q. ring.
  - set (x := (inject_Z n + 50 * (1 + inject_Z (streak g) * (5 # 100)))%Q).
    assert (n + 50 <= JS.Math_round x) as R.
    { rewrite <- (Math_round_whole (inject_Z (n + 50)) (n + 50)) by reflexivity.
      unfold JS.Math_round. apply Qfloor_resp_le.
      rewrite inject_Z_plus. change (inject_Z 50) with 50%Q. unfold x. lra. }
    split; [| split; [lia | split; [discriminate | split; [| discriminate]]]].
    + split; [exists (JS.Math_round x); split; [lia | reflexivity] | lia].
    + intros _. split; [| reflexivity].
      rewrite Zle_Qle in R. rewrite inject_Z_plus in R.
      change (inject_Z 50) with 50%Q in R. exact R.
  - assert (Math_max 0 (inject_Z n - 25) == inject_Z (Z.max 0 (n - 25)))%Q as Em.
    { unfold Math_max.
      assert (inject_Z n - 25 == inject_Z (n - 25))%Q as E25.
      { unfold Z.sub. rewrite inject_Z_plus. reflexivity. }
      destruct (Qle_bool 0 (inject_Z n - 25)) eqn:L.
      - apply Qle_bool_iff in L. rewrite E25 in L.
        change 0%Q with (inject_Z 0) in L. rewrite <- Zle_Qle in L.
        rewrite Z.max_r by lia. exact E25.
      - assert (~ (0 <= inject_Z n - 25)%Q) as N.
        { intros H. apply Qle_bool_iff in H. congruence. }
        rewrite E25 in N. change 0%Q with (inject_Z 0) in N.
        rewrite <- Zle_Qle in N. rewrite Z.max_l by lia. reflexivity. }
    rewrite (Math_round_whole _ _ Em).
    split; [| split; [lia | split; [discriminate | split; [discriminate |]]]].
    + split; [exists (Z.max 0 (n - 25)); split; [lia | reflexivity] | lia].
    + intros _. split; [now rewrite Em |]. split; [| reflexivity].
      rewrite <- Zle_Qle. lia.
Qed.

(** The score.  From a sound state, a hit leaves the state sound and the
    best streak no lower.  A Perfect hit adds exactly 100 + 10 x streak
    and extends the streak by one; a Good hit adds at least 50 and extends
    the streak by one; an Off hit takes 25 off the score, stopping at 0, and
    resets the streak.  This holds whether or not [playNote] throws. *)
Theorem hit_scores (ts : Q) (g : t) (c : Clock) :
  sound g ->
  let accuracy :=
    BeatTracker.Timing.accuracy
      (BeatTracker.evaluateTiming (beatTracker g) c ts) in
  let g' := fst (handleNoteStart render ts g c) in
  sound g'
  /\ bestStreak g <= bestStreak g'
  /\ (accuracy = BeatTracker.perfect ->
      (score g' == score g + 100 + 10 * inject_Z (streak g))%Q
      /\ streak g' = streak g + 1)
  /\ (accuracy = BeatTracker.good ->
      (score g + 50 <= score g')%Q /\ streak g' = streak g + 1)
  /\ (accuracy = BeatTracker.off ->
      (score g' == Math_max 0 (score g - 25))%Q
      /\ (score g' <= score g)%Q /\ streak g' = 0).
Proof. exact (handleNoteStart_sound ts g c). Qed.

(** Every action keeps the state sound and the best streak. *)
Lemma callbacks_sound (out : list InputHandler.Callback) (g : t) (c : Clock) :
  sound g ->
  sound (fold_left (fun g' cb => callback render cb g' c) out g)
  /\ bestStreak g
     <= bestStreak (fold_left (fun g' cb => callback render cb g' c) out g).
Proof.
  revert g. induction out as [| cb rest IH]; intros g S; [simpl; split; [exact S | lia] |].
  simpl. destruct cb as [ts | st en]; simpl.
  - destruct (handleNoteStart_sound ts g c S) as (S' & B & _).
    destruct (IH _ S') as [S2 B2]. split; [exact S2 | lia].
  - now apply IH.
Qed.

Lemma act_sound (a : Action) (g : t) :
  sound g ->
  sound (act render a g) /\ bestStreak g <= bestStreak (act render a g).
Proof.
  intros S. destruct a as [ev c | c | c | | | b]; simpl.
  - unfold input. destruct (InputHandler.dispatch _ _ _) as [ih out].
    exact (callbacks_sound out (with_input ih g) c S).
  - unfold frame.
    destruct (isPlaying g && negb (isPaused g) && metronomeEnabled g);
      [| split; [exact S | simpl; lia]].
    cbv zeta. destruct (_ =? lastBeat g); simpl; (split; [exact S | lia]).
  - unfold togglePause.
    destruct (isPlaying g); simpl; [| split; [exact S | lia]].
    destruct (isPaused g); simpl; (split; [exact S | lia]).
  - unfold goHome. destruct (isPlaying g); simpl; [| split; [exact S | lia]].
    destruct S as [_ B]. split; [| simpl; lia].
    split; [exists 0; split; [lia | reflexivity] | simpl; lia].
  - split; [exact S | lia].
  - split; [exact S | lia].
Qed.

(** Over any session (presses and releases, frames, pauses, returns to the
    start screen, metronome and tempo changes) the score stays a whole number
    that is not negative, the streak stays between 0 and the best streak,
    and the best streak never drops. *)
Theorem score_stays_sound (acts : list Action) (g : t) :
  sound g ->
  sound (session render acts g)
  /\ bestStreak g <= bestStreak (session render acts g).
Proof.
  revert g. induction acts as [| a rest IH]; intros g S; [simpl; split; [exact S | lia] |].
  simpl. destruct (act_sound a g S) as [S1 B1].
  destruct (IH _ S1) as [S2 B2]. split; [exact S2 | lia].
Qed.

(** No instrument has a beat outside 1..4. *)
Lemma find_by_beat_outside (beat : Z) :
  ~ 1 <= beat <= 4 ->
  Instruments.find_by_beat (Instruments.Num (inject_Z beat)) = None.
Proof.
  intros N.
  destruct (Instruments.find_by_beat _) as [i |] eqn:F; [| reflexivity].
  destruct (InstrumentLookup.find_by_beat_sound _ _ F) as [I S].
  unfold Instruments.strict_eq in S.
  apply Qeq_bool_iff in S. apply (proj1 (inject_Z_injective _ _)) in S.
  simpl in I. destruct I as [<- | [<- | [<- | [<- | []]]]]; simpl in S; lia.
Qed.

Definition dissonance (accuracy : BeatTracker.Accuracy) : bool :=
  match accuracy with BeatTracker.off => true | _ => false end.

(** The picture of a beat from 1 to 4. *)
Lemma triggerVisual_inside (beat : Z) (accuracy : BeatTracker.Accuracy)
    (v : VisualEngine.t) (c : Clock) :
  1 <= beat <= 4 ->
  let v' := VisualEngine.triggerVisual beat accuracy v c in
  let i := Instruments.getInstrumentByBeat (Instruments.Num (inject_Z beat)) in
  (exists k,
     k <> VisualEngine.Line
     /\ VisualEngine.animations v'
        = VisualEngine.animations v
          ++ [VisualEngine.mkAnimation k (Instruments.color i)
                (dissonance accuracy)])
  /\ VisualEngine.glitchEffect v'
     = (if dissonance accuracy then Some (performance_now c, 150%Q)
        else VisualEngine.glitchEffect v)
  /\ VisualEngine.activeInstruments v' !! beat
     = Some (VisualEngine.mkActive (Instruments.name i) (Instruments.color i)
               (performance_now c) 2400)
  /\ VisualEngine.hitFeedback v' = VisualEngine.hitFeedback v.
Proof.
  intros B.
  assert (beat = 1 \/ beat = 2 \/ beat = 3 \/ beat = 4) as [-> | [-> | [-> | ->]]]
    by lia; cbv zeta; unfold VisualEngine.triggerVisual.
  - change (Instruments.find_by_beat (Instruments.Num (inject_Z 1)))
      with (Some Instruments.melody).
    change (Instruments.getInstrumentByBeat (Instruments.Num (inject_Z 1)))
      with Instruments.melody.
    destruct accuracy; cbv zeta;
      (split; [exists VisualEngine.Spiral; split; [discriminate | reflexivity] |]);
      (split; [reflexivity |]); (split; [apply lookup_insert_eq | reflexivity]).
  - change (Instruments.find_by_beat (Instruments.Num (inject_Z 2)))
      with (Some Instruments.pad).
    change (Instruments.getInstrumentByBeat (Instruments.Num (inject_Z 2)))
      with Instruments.pad.
    destruct accuracy; cbv zeta;
      (split; [exists VisualEngine.Wave; split; [discriminate | reflexivity] |]);
      (split; [reflexivity |]); (split; [apply lookup_insert_eq | reflexivity]).
  - change (Instruments.find_by_beat (Instruments.Num (inject_Z 3)))
      with (Some Instruments.bass).
    change (Instruments.getInstrumentByBeat (Instruments.Num (inject_Z 3)))
      with Instruments.bass.
    destruct accuracy; cbv zeta;
      (split; [exists VisualEngine.Circle; split; [discriminate | reflexivity] |]);
      (split; [reflexivity |]); (split; [apply lookup_insert_eq | reflexivity]).
  - change (Instruments.find_by_beat (Instruments.Num (inject_Z 4)))
      with (Some Instruments.percussion).
    change (Instruments.getInstrumentByBeat (Instruments.Num (inject_Z 4)))
      with Instruments.percussion.
    destruct accuracy; cbv zeta;
      (split; [exists VisualEngine.Particles; split; [discriminate | reflexivity] |]);
      (split; [reflexivity |]); (split; [apply lookup_insert_eq | reflexivity]).
Qed.

(** The loop of a beat from 1 to 4. *)
Lemma playNote_inside (beat barNumber : Z) (accuracy : BeatTracker.Accuracy)
    (e : AudioEngine.t) (c : Clock) (r : option (Z * Z)) (e' : AudioEngine.t) :
  AudioEngine.isInitialized e = true ->
  1 <= beat <= 4 ->
  AudioEngine.playNote render beat barNumber accuracy e c = Some (r, e') ->
  exists p,
    e' = AudioEngine.install render (AudioEngine.Beat beat) (currentTime c) p
           (dissonance accuracy) (AudioEngine.stopLoop (AudioEngine.Beat beat) e).
Proof.
  intros I B. unfold AudioEngine.playNote. rewrite I. simpl negb. cbv iota.
  destruct (AudioEngine.chord_at _ _) as [root |]; [| discriminate].
  cbv zeta. intros H. injection H as _ <-.
  assert (beat = 1 \/ beat = 2 \/ beat = 3 \/ beat = 4) as [-> | [-> | [-> | ->]]]
    by lia; eexists; reflexivity.
Qed.

(** Sound and picture of a hit, for an initialised engine.  The handler
    stops at [playNote] exactly when the bar number is negative and not a
    multiple of 8; the score is then already updated, and neither the
    engine nor the picture changes.  Otherwise, for a nearest beat from
    1 to 4 the engine renders one more group, on that beat's channel,
    starting now, and the picture gains one animation in the instrument's
    colour, never a line; both are dissonant exactly for an Off hit, which
    also starts the glitch.  For any other nearest beat no group is
    rendered and no animation added.  In both cases the feedback shows
    the new streak. *)
Theorem hit_sound_and_picture (ts : Q) (g : t) (c : Clock) :
  AudioEngine.isInitialized (audioEngine g) = true ->
  let timing := BeatTracker.evaluateTiming (beatTracker g) c ts in
  let beat := BeatTracker.Timing.nearestBeat timing in
  let bar := BeatTracker.Timing.barNumber timing in
  let dis := dissonance (BeatTracker.Timing.accuracy timing) in
  let threw := snd (handleNoteStart render ts g c) in
  let g' := fst (handleNoteStart render ts g c) in
  (threw = true <-> bar < 0 /\ Z.rem bar 8 <> 0)
  /\ (threw = true ->
      audioEngine g' = audioEngine g /\ visualEngine g' = visualEngine g)
  /\ (threw = false -> 1 <= beat <= 4 ->
      (exists p,
         AudioEngine.rendered (audioEngine g')
         = AudioEngine.rendered (audioEngine g)
           ++ [AudioEngine.mkGroup (AudioEngine.Beat beat) (currentTime c)
                 (seq (AudioEngine.created (audioEngine g))
                    (render (AudioEngine.Beat beat)
                       (AudioEngine.created (audioEngine g))))
                 p dis])
      /\ (exists k,
            k <> VisualEngine.Line
            /\ VisualEngine.animations (visualEngine g')
               = VisualEngine.animations (visualEngine g)
                 ++ [VisualEngine.mkAnimation k
                       (Instruments.color
                          (Instruments.getInstrumentByBeat
                             (Instruments.Num (inject_Z beat))))
                       dis])
      /\ VisualEngine.glitchEffect (visualEngine g')
         = (if dis then Some (performance_now c, 150%Q)
            else VisualEngine.glitchEffect (visualEngine g)))
  /\ (threw = false -> ~ 1 <= beat <= 4 ->
      AudioEngine.rendered (audioEngine g')
      = AudioEngine.rendered (audioEngine g)
      /\ VisualEngine.animations (visualEngine g')
         = VisualEngine.animations (visualEngine g)
      /\ VisualEngine.glitchEffect (visualEngine g')
         = VisualEngine.glitchEffect (visualEngine g)
      /\ VisualEngine.activeInstruments (visualEngine g')
         = VisualEngine.activeInstruments (visualEngine g))
  /\ (threw = false ->
      exists fb,
        VisualEngine.hitFeedback (visualEngine g') = Some fb
        /\ VisualEngine.streak fb = streak g'
        /\ VisualEngine.feedbackStart fb = performance_now c).
Proof.
  intros I. cbv zeta.
  set (timing := BeatTracker.evaluateTiming (beatTracker g) c ts).
  set (beat := BeatTracker.Timing.nearestBeat timing).
  set (bar := BeatTracker.Timing.barNumber timing).
  set (acc := BeatTracker.Timing.accuracy timing).
  destruct (Chords.playNote_outcome render beat bar acc (audioEngine g) c)
    as (T & _ & _).
  unfold handleNoteStart. fold timing. fold beat. fold bar. fold acc.
  destruct (scored acc (score g) (streak g)) as [sc st].
  destruct (AudioEngine.playNote render beat bar acc (audioEngine g) c)
    as [[r e'] |] eqn:P; simpl.
  - split; [| split; [discriminate | split; [| split]]].
    + split; [discriminate |]. intros H.
      exfalso. destruct T as [_ T]. specialize (T (conj I H)). discriminate T.
    + intros _ B.
      destruct (playNote_inside beat bar acc _ c r e' I B P) as [p ->].
      destruct (LoopLifecycle.stopLoop_map (AudioEngine.Beat beat) (audioEngine g))
        as (_ & _ & Cr & Rn).
      destruct (triggerVisual_inside beat acc (visualEngine g) c B)
        as ((k & Hk & An) & Gl & _ & _).
      cbv zeta in An, Gl.
      split; [| split].
      * exists p. unfold AudioEngine.install. simpl. now rewrite Cr, Rn.
      * exists k. split; [exact Hk |]. destruct acc; exact An.
      * destruct acc; exact Gl.
    + intros _ B.
      destruct (LoopLifecycle.playNote_shape render beat bar acc _ c r e' P)
        as [[F _] | [(_ & _ & ->) | (_ & B' & _)]];
        [congruence | | contradiction].
      destruct (LoopLifecycle.stopLoop_map (AudioEngine.Beat beat) (audioEngine g))
        as (_ & _ & _ & Rn).
      unfold VisualEngine.triggerVisual.
      rewrite (find_by_beat_outside beat B).
      split; [exact Rn |]. destruct acc; repeat split.
    + intros _. destruct acc; simpl; eexists; repeat split.
  - split; [| split; [| split; [| split]]]; try discriminate.
    + split; [| reflexivity]. intros _. destruct T as [T _].
      now destruct (T eq_refl) as (_ & H).
    + intros _. split; reflexivity.
Qed.

End WithRender.

Lemma with_input_id (g : t) : with_input (inputHandler g) g = g.
Proof. now destruct g. Qed.

(** An event that starts a note: the space bar going down, not as a key
    repeat, or a touch. *)
Definition press (ev : InputHandler.DomEvent) : bool :=
  match ev with
  | InputHandler.keydown isSpace repeat => isSpace && negb repeat
  | InputHandler.touchstart => true
  | _ => false
  end.

(** An event that ends a note: the space bar going up, or a touch ending. *)
Definition release (ev : InputHandler.DomEvent) : bool :=
  match ev with
  | InputHandler.keyup isSpace => isSpace
  | InputHandler.touchend => true
  | _ => false
  end.

Lemma input_detached (render : AudioEngine.Channel -> nat -> nat)
    (ev : InputHandler.DomEvent) (g : t) (c : Clock) :
  InputHandler.listening (inputHandler g) = false -> input render ev g c = g.
Proof.
  intros L. unfold input, InputHandler.dispatch. rewrite L. simpl.
  apply with_input_id.
Qed.

Lemma input_press (render : AudioEngine.Channel -> nat -> nat)
    (ev : InputHandler.DomEvent) (g : t) (c : Clock) :
  InputHandler.listening (inputHandler g) = true -> press ev = true ->
  input render ev g c
  = fold_left (fun g' cb => callback render cb g' c)
      (snd (InputHandler.triggerNoteStart (inputHandler g) c))
      (with_input (fst (InputHandler.triggerNoteStart (inputHandler g) c)) g).
Proof.
  intros L P. unfold input, InputHandler.dispatch. rewrite L. simpl negb.
  cbv iota.
  destruct ev as [[|] [|] | k | |]; try discriminate P;
    now destruct (InputHandler.triggerNoteStart _ _).
Qed.

Lemma input_release (render : AudioEngine.Channel -> nat -> nat)
    (ev : InputHandler.DomEvent) (g : t) (c : Clock) :
  InputHandler.listening (inputHandler g) = true -> release ev = true ->
  input render ev g c
  = with_input (fst (InputHandler.triggerNoteEnd (inputHandler g) c)) g.
Proof.
  intros L P. unfold input, InputHandler.dispatch. rewrite L. simpl negb.
  cbv iota.
  assert (forall out g0,
             (forall cb, In cb out -> exists a b, cb = InputHandler.NoteEnd a b) ->
             fold_left (fun g' cb => callback render cb g' c) out g0 = g0) as F.
  { induction out as [| cb rest IH]; intros g0 H; [reflexivity |].
    simpl. destruct (H cb (or_introl eq_refl)) as (a & b & ->). simpl.
    apply IH. intros cb' I. apply H. now right. }
  assert (forall cb,
             In cb (snd (InputHandler.triggerNoteEnd (inputHandler g) c)) ->
             exists a b, cb = InputHandler.NoteEnd a b) as E.
  { unfold InputHandler.triggerNoteEnd.
    destruct (InputHandler.isHolding (inputHandler g)); simpl; [| tauto].
    destruct (InputHandler.onNoteEnd (inputHandler g)); simpl; [| tauto].
    intros cb [<- | []]. eauto. }
  destruct ev as [sp rp | [|] | |]; try discriminate P; simpl;
    destruct (InputHandler.triggerNoteEnd _ _) as [ih out]; now apply F.
Qed.

(** A game in play: the engine initialised and its drums running, the
    tracker on the audio clock and started at 0 s, the input attached. *)
Definition playing : t :=
  mk Scheduler.playing_engine VisualEngine.constructor
     (BeatTracker.start
        (BeatTracker.setAudioContext true (BeatTracker.constructor 100))
        (mkClock 0 0))
     (InputHandler.start (inputHandler constructor))
     true false 0 true 0%Q 0 0.

Lemma playing_sound : sound playing.
Proof. split; [exists 0; split; [lia | reflexivity] | simpl; lia]. Qed.

Lemma input_not_space (render : AudioEngine.Channel -> nat -> nat)
    (ev : DocEvent) (g : t) (c : Clock) :
  (forall rep, ev <> KeyDown Space rep) -> ev <> KeyUp Space ->
  (forall tg, ev <> TouchStart tg) -> ev <> TouchEnd ->
  input render (seen ev) g c = g.
Proof.
  intros H1 H2 H3 H4. unfold input, InputHandler.dispatch.
  destruct (InputHandler.listening (inputHandler g)); simpl;
    [| apply with_input_id].
  destruct ev as [[| | |] rep | [| | |] | tg |]; simpl;
    try apply with_input_id;
    first [ now destruct (H1 rep) | now destruct H2
          | now destruct (H3 tg) | now destruct H4 ].
Qed.

(** Pausing silences the engine and detaches the input handler: a
    scheduler pass does nothing, and of all keyboard and touch events only
    an Escape key going down changes the paused game, by resuming it.
    Resuming reattaches the input and resumes the tracker, and leaves the
    engine as the pause left it: the drums are not started again.  The
    score is kept through both. *)
Theorem pause_silences_resume_keeps_silent
    (render : AudioEngine.Channel -> nat -> nat) (g : t) (c1 c2 : Clock) :
  isPlaying g = true -> isPaused g = false ->
  let p := togglePause g c1 in
  let r := togglePause p c2 in
  (isPaused p = true
   /\ AudioEngine.activeLoops (audioEngine p) = ∅
   /\ AudioEngine.isDrumsPlaying (audioEngine p) = false
   /\ (forall ev c, input render ev p c = p)
   /\ (forall ev c,
         (forall rep, ev <> KeyDown Escape rep) ->
         document render ev p c = Handled p)
   /\ (forall rep, document render (KeyDown Escape rep) p c2 = Handled r)
   /\ forall fuel c,
        AudioEngine.scheduler render fuel (audioEngine p) c
        = Some (audioEngine p))
  /\ (isPaused r = false
      /\ audioEngine r = audioEngine p
      /\ InputHandler.listening (inputHandler r) = true
      /\ InputHandler.isHolding (inputHandler r) = false
      /\ beatTracker r
         = BeatTracker.resume (BeatTracker.pause (beatTracker g) c1) c2
      /\ score r = score g /\ streak r = streak g
      /\ bestStreak r = bestStreak g).
Proof.
  intros Pl Pa. cbv zeta.
  destruct (EngineFacts.stopContinuousDrums_effect (audioEngine g))
    as (Hd & _).
  assert (AudioEngine.isDrumsPlaying (AudioEngine.stopAll (audioEngine g)) = false)
    as Hd' by exact Hd.
  assert (isPlaying (togglePause g c1) = true
          /\ InputHandler.listening (inputHandler (togglePause g c1)) = false)
    as [Pl' Li'].
  { unfold togglePause. rewrite Pl, Pa. split; reflexivity. }
  split.
  - split; [unfold togglePause; now rewrite Pl, Pa |].
    split; [unfold togglePause; now rewrite Pl, Pa |].
    split; [unfold togglePause; rewrite Pl, Pa; exact Hd' |].
    split; [intros ev c; now apply input_detached |].
    split; [| split].
    + intros ev c N. unfold document. rewrite Pl'. simpl.
      destruct ev as [[| | |] rep | k | tg |];
        try (now rewrite input_detached by exact Li').
      now destruct (N rep).
    + intros rep. unfold document. rewrite Pl'. cbn [negb andb].
      cbv beta iota zeta. now rewrite input_not_space.
    + intros fuel c. unfold togglePause. rewrite Pl, Pa. simpl.
      unfold AudioEngine.scheduler. now rewrite Hd'.
  - unfold togglePause. rewrite Pl, Pa. simpl. repeat split.
Qed.

(** Going home keeps the drums and nothing else of the sound: the drum
    entry, the scheduler flag and the next measure are as before, and no
    beat has a loop.  The tracker is stopped, so its queries return their
    defaults; the input handler is detached, so of all keyboard and touch
    events only those that call [startGame()] (Space or Enter going down,
    a touch on the start screen outside the genre buttons) have any
    effect; the score and the streak are 0 while the best streak is kept.
    A second click, or a pause, changes nothing. *)
Theorem goHome_keeps_drums_only
    (render : AudioEngine.Channel -> nat -> nat) (g : t) :
  isPlaying g = true ->
  let h := goHome g in
  (AudioEngine.activeLoops (audioEngine h) !! AudioEngine.Drums
   = AudioEngine.activeLoops (audioEngine g) !! AudioEngine.Drums
   /\ AudioEngine.isDrumsPlaying (audioEngine h)
      = AudioEngine.isDrumsPlaying (audioEngine g)
   /\ AudioEngine.nextLoopTime (audioEngine h)
      = AudioEngine.nextLoopTime (audioEngine g)
   /\ forall b,
        AudioEngine.activeLoops (audioEngine h) !! AudioEngine.Beat b = None)
  /\ (forall c,
        BeatTracker.getCurrentBeatInfo (beatTracker h) c
        = BeatTracker.BeatInfo.mk 1 0%Q 0 0%Q)
  /\ (forall c ts,
        BeatTracker.evaluateTiming (beatTracker h) c ts = BeatTracker.fallback)
  /\ (forall ev c, input render ev h c = h)
  /\ (forall ev c,
        document render ev h c = if starts ev then StartsGame else Handled h)
  /\ (score h = 0%Q /\ streak h = 0 /\ bestStreak h = bestStreak g)
  /\ goHome h = h
  /\ forall c, togglePause h c = h.
Proof.
  intros Pl. cbv zeta.
  destruct (EngineFacts.stopInstruments_effect (audioEngine g))
    as (D & N & _ & P & _ & X & _).
  assert (isPlaying (goHome g) = false
          /\ InputHandler.listening (inputHandler (goHome g)) = false)
    as [Pl' Li'].
  { unfold goHome. rewrite Pl. split; reflexivity. }
  split; [unfold goHome; rewrite Pl; simpl; repeat split; assumption |].
  split; [unfold goHome; rewrite Pl; reflexivity |].
  split; [unfold goHome; rewrite Pl; reflexivity |].
  split; [intros ev c; now apply input_detached |].
  split.
  - intros ev c. unfold document. rewrite Pl'. simpl.
    destruct (starts ev) eqn:St; [reflexivity |].
    rewrite input_detached.
    + destruct ev as [[| | |] rep | k | tg |]; try reflexivity;
        discriminate St.
    + destruct ev as [[| | |] rep | k | tg |]; try exact Li';
        discriminate St.
  - unfold goHome. rewrite Pl. simpl. repeat split.
Qed.

(** One press, one hit.  A press that comes at least [debounceMs] after
    the last accepted one, with no note held, is handled as one hit
    stamped with its own time.  While the note is held no further press
    reaches the game.  The release changes the input handler only.  After
    the release a press that comes less than [debounceMs] after the first
    one does not reach the game either. *)
Theorem one_press_one_hit
    (render : AudioEngine.Channel -> nat -> nat) (g : t)
    (down again up : InputHandler.DomEvent) (c1 c2 c3 c4 : Clock) :
  InputHandler.listening (inputHandler g) = true ->
  InputHandler.onNoteStart (inputHandler g) = true ->
  InputHandler.isHolding (inputHandler g) = false ->
  (InputHandler.lastTriggerTime (inputHandler g)
   + InputHandler.debounceMs (inputHandler g) <= performance_now c1)%Q ->
  press down = true -> press again = true -> release up = true ->
  let g1 := input render down g c1 in
  let g2 := input render up g1 c3 in
  g1 = fst (handleNoteStart render (performance_now c1)
              (with_input
                 (fst (InputHandler.triggerNoteStart (inputHandler g) c1)) g)
              c1)
  /\ InputHandler.holdStartTime (inputHandler g1) = Some (performance_now c1)
  /\ input render again g1 c2 = g1
  /\ (exists ih, g2 = with_input ih g1 /\ InputHandler.isHolding ih = false)
  /\ ((performance_now c4 - performance_now c1
       < InputHandler.debounceMs (inputHandler g))%Q ->
      input render again g2 c4 = g2).
Proof.
  intros L On Hd Sp Pd Pa Pu. cbv zeta.
  assert (~ Debounce.suppressed (inputHandler g) c1) as NS.
  { intros [H | H]; [congruence | lra]. }
  destruct (Debounce.triggerNoteStart_accepted (inputHandler g) c1 NS) as [E _].
  rewrite On in E.
  rewrite (input_press render down g c1 L Pd). rewrite E. simpl fst. simpl snd.
  set (ih1 := InputHandler.mk _ _ _ _ _ _ _) in *.
  cbn [fold_left callback].
  set (g1 := fst (handleNoteStart render (performance_now c1)
                    (with_input ih1 g) c1)).
  assert (inputHandler g1 = ih1) as I1.
  { destruct (handleNoteStart_score render (performance_now c1)
                (with_input ih1 g) c1) as (_ & _ & _ & _ & I & _).
    exact I. }
  assert (InputHandler.listening ih1 = true) as L1 by exact L.
  split; [reflexivity |]. split; [now rewrite I1 |].
  split; [| split].
  - rewrite (input_press render again g1 c2) by (now rewrite I1 || assumption).
    rewrite I1.
    rewrite (Debounce.triggerNoteStart_suppressed ih1 c2) by (now left).
    simpl. rewrite <- I1. apply with_input_id.
  - rewrite (input_release render up g1 c3) by (now rewrite I1 || assumption).
    rewrite I1. eexists. split; [reflexivity |].
    unfold InputHandler.triggerNoteEnd. reflexivity.
  - intros Near.
    rewrite (input_release render up g1 c3) by (now rewrite I1 || assumption).
    rewrite I1.
    set (ih2 := fst (InputHandler.triggerNoteEnd ih1 c3)).
    assert (ih2 = InputHandler.mk (InputHandler.onNoteStart (inputHandler g))
                    (InputHandler.onNoteEnd (inputHandler g)) false None
                    (performance_now c1)
                    (InputHandler.debounceMs (inputHandler g))
                    (InputHandler.listening (inputHandler g))) as E2.
    { unfold ih2, ih1. rewrite On. reflexivity. }
    rewrite (input_press render again (with_input ih2 g1) c4);
      [| rewrite E2; exact L | exact Pa].
    change (inputHandler (with_input ih2 g1)) with ih2.
    rewrite (Debounce.triggerNoteStart_suppressed ih2 c4).
    + simpl. reflexivity.
    + right. rewrite E2. exact Near.
Qed.

Lemma hit_scores_witness :
  sound playing
  /\ sound (fst (handleNoteStart LoopLifecycle.two 605 playing
                   (mkClock (605 # 1000) 605))).
Proof.
  split; [exact playing_sound |].
  destruct (hit_scores LoopLifecycle.two 605 playing
              (mkClock (605 # 1000) 605) playing_sound) as [H _].
  exact H.
Defined.

Lemma score_stays_sound_witness :
  sound playing
  /\ sound (session LoopLifecycle.two
              [Input (InputHandler.keydown true false)
                 (mkClock (605 # 1000) 605);
               Pause (mkClock 1 1000); Home]
              playing).
Proof.
  split; [exact playing_sound |].
  destruct (score_stays_sound LoopLifecycle.two
              [Input (InputHandler.keydown true false)
                 (mkClock (605 # 1000) 605);
               Pause (mkClock 1 1000); Home]
              playing playing_sound) as [H _].
  exact H.
Defined.

Lemma hit_sound_and_picture_witness :
  AudioEngine.isInitialized (audioEngine playing) = true
  /\ snd (handleNoteStart LoopLifecycle.two 605 playing
            (mkClock (605 # 1000) 605)) = false
  /\ BeatTracker.Timing.nearestBeat
       (BeatTracker.evaluateTiming (beatTracker playing)
          (mkClock (605 # 1000) 605) 605) = 2
  /\ (exists p,
        AudioEngine.rendered
          (audioEngine
             (fst (handleNoteStart LoopLifecycle.two 605 playing
                     (mkClock (605 # 1000) 605))))
        = AudioEngine.rendered (audioEngine playing)
          ++ [AudioEngine.mkGroup (AudioEngine.Beat 2) (605 # 1000)
                [0; 1]%nat p false])
  /\ exists fb,
       VisualEngine.hitFeedback
         (visualEngine
            (fst (handleNoteStart LoopLifecycle.two 605 playing
                    (mkClock (605 # 1000) 605))))
       = Some fb
       /\ VisualEngine.streak fb = 1.
Proof.
  split; [reflexivity |]. split; [reflexivity |]. split; [reflexivity |].
  destruct (hit_sound_and_picture LoopLifecycle.two 605 playing
              (mkClock (605 # 1000) 605) eq_refl) as (_ & _ & R & _ & F).
  split.
  - destruct (R eq_refl ltac:(vm_compute; split; discriminate)) as [[p H] _].
    exists p. exact H.
  - destruct (F eq_refl) as (fb & H1 & H2 & _). exists fb.
    split; [exact H1 |]. rewrite H2. reflexivity.
Defined.

Lemma pause_silences_resume_keeps_silent_witness :
  isPlaying playing = true /\ isPaused playing = false
  /\ audioEngine (togglePause (togglePause playing (mkClock 1 1000))
                    (mkClock 2 2000))
     = audioEngine (togglePause playing (mkClock 1 1000))
  /\ document LoopLifecycle.two (KeyDown Space false)
       (togglePause playing (mkClock 1 1000)) (mkClock 2 2000)
     = Handled (togglePause playing (mkClock 1 1000))
  /\ document LoopLifecycle.two (KeyDown Escape false)
       (togglePause playing (mkClock 1 1000)) (mkClock 2 2000)
     = Handled (togglePause (togglePause playing (mkClock 1 1000))
                  (mkClock 2 2000)).
Proof.
  split; [reflexivity |]. split; [reflexivity |].
  destruct (pause_silences_resume_keeps_silent LoopLifecycle.two playing
              (mkClock 1 1000) (mkClock 2 2000) eq_refl eq_refl)
    as ((_ & _ & _ & _ & D & E & _) & _ & H & _).
  split; [exact H |]. split.
  - apply D. discriminate.
  - exact (E false).
Defined.

Lemma goHome_keeps_drums_only_witness :
  isPlaying playing = true
  /\ goHome (goHome playing) = goHome playing
  /\ document LoopLifecycle.two (KeyDown Escape false) (goHome playing)
       (mkClock 1 1000)
     = Handled (goHome playing)
  /\ document LoopLifecycle.two (KeyDown Enter false) (goHome playing)
       (mkClock 1 1000)
     = StartsGame.
Proof.
  split; [reflexivity |].
  destruct (goHome_keeps_drums_only LoopLifecycle.two playing eq_refl)
    as (_ & _ & _ & _ & D & _ & H & _).
  split; [exact H |]. split.
  - exact (D (KeyDown Escape false) (mkClock 1 1000)).
  - exact (D (KeyDown Enter false) (mkClock 1 1000)).
Defined.

Lemma one_press_one_hit_witness :
  InputHandler.listening (inputHandler playing) = true
  /\ (InputHandler.lastTriggerTime (inputHandler playing)
      + InputHandler.debounceMs (inputHandler playing) <= 605)%Q
  /\ input LoopLifecycle.two InputHandler.touchstart
       (input LoopLifecycle.two (InputHandler.keydown true false) playing
          (mkClock (605 # 1000) 605))
       (mkClock (900 # 1000) 900)
     = input LoopLifecycle.two (InputHandler.keydown true false) playing
         (mkClock (605 # 1000) 605).
Proof.
  assert (InputHandler.lastTriggerTime (inputHandler playing)
          + InputHandler.debounceMs (inputHandler playing) <= 605)%Q as Sp
    by (unfold Qle; simpl; lia).
  split; [reflexivity |]. split; [exact Sp |].
  destruct (one_press_one_hit LoopLifecycle.two playing
              (InputHandler.keydown true false) InputHandler.touchstart
              (InputHandler.keyup true)
              (mkClock (605 # 1000) 605) (mkClock (900 # 1000) 900)
              (mkClock 1 1000) (mkClock (650 # 1000) 650)
              eq_refl eq_refl eq_refl Sp eq_refl eq_refl eq_refl)
    as (_ & _ & H & _).
  exact H.
Defined.


End GameFacts.
